(** * Namespace tree and invocation records of pytorch-to-returnn

    A shallow embedding of [pytorch_to_returnn/naming/namespace.py]
    ([RegisteredName]) and [pytorch_to_returnn/naming/call.py] ([CallEntry]).

    Python objects live in arenas of a [Store] and are referred to by their
    index, so that the aliasing of the source (a tensor entry listing the
    namespace nodes that name it, a node listing its calls, a call pointing
    back to its node) is kept.  Methods become computations of the monad [M]:
    they thread the store and either return, or raise a Python exception. *)

From stdpp Require Import base relations list strings pretty.
From Stdlib Require Import Lia.

Open Scope string_scope.
Open Scope list_scope.
Open Scope nat_scope.

(** ** Python values and exceptions *)

(** The values that occur in dumped layer descriptions. *)
#[local] Unset Elimination Schemes.
Inductive pyval : Type :=
| PNone
| PBool (b : bool)
| PStr (s : string)
| PList (l : list pyval)
| PDict (d : list (string * pyval)).
#[local] Set Elimination Schemes.

Inductive exn : Type :=
| AssertionError
| KeyError
| ValueError
| TypeError
| AttributeError
| IndexError
| NotImplementedError
| RecursionError
| ExternalError.

#[global] Instance exn_eq_dec : EqDecision exn.
Proof. solve_decision. Defined.

(** ** Object references *)

(** References are indices into the arenas of the store. *)
Abbreviation NameId := nat (only parsing).
Abbreviation CallId := nat (only parsing).
Abbreviation ModId := nat (only parsing).
Abbreviation TensorId := nat (only parsing).
Abbreviation CtxId := nat (only parsing).
(** A traced [Tensor] object, the key of [naming.tensors]. *)
Abbreviation TensorVal := nat (only parsing).

(** Identity of a Python object: its class and its index.  [x in l] on a
    list of objects of classes without [__eq__] is membership of the
    reference. *)
Inductive pyobj : Type :=
| ObjName (n : NameId)
| ObjCall (c : CallId)
| ObjModule (m : ModId)
| ObjTensor (t : TensorId).

#[global] Instance pyobj_eq_dec : EqDecision pyobj.
Proof. solve_decision. Defined.

Definition py_in (x : pyobj) (l : list pyobj) : bool := bool_decide (x ∈ l).

(** ** Ordered dictionaries *)

(** [OrderedDict[str, V]]: an association list in insertion order. *)
Definition dict_contains {V} (k : string) (d : list (string * V)) : bool :=
  bool_decide (k ∈ d.*1).

Fixpoint dict_get {V} (k : string) (d : list (string * V)) : option V :=
  match d with
  | [] => None
  | (k', v) :: d' => if decide (k' = k) then Some v else dict_get k d'
  end.

(** [d[k] = v]: replaces the value of an existing key in place, appends a
    new key. *)
Fixpoint dict_set {V} (k : string) (v : V) (d : list (string * V)) : list (string * V) :=
  match d with
  | [] => [(k, v)]
  | (k', v') :: d' =>
      if decide (k' = k) then (k, v) :: d' else (k', v') :: dict_set k v d'
  end.

(** [l.remove(x)]: drops the first occurrence; [None] stands for the
    [ValueError] of a missing element. *)
Fixpoint list_remove_first `{EqDecision A} (x : A) (l : list A) : option (list A) :=
  match l with
  | [] => None
  | y :: l' => if decide (y = x) then Some l' else cons y <$> list_remove_first x l'
  end.

(** ** The classes *)

(** A RETURNN layer object, known by the network (context) that owns it
    and its name there; [layer.output] is its data. *)
Record Layer : Type := { layer_net : CtxId; layer_name : string }.

#[global] Instance Layer_eq_dec : EqDecision Layer.
Proof. solve_decision. Defined.

(** [RegisteredName], namespace.py lines 13-27. *)
Record RegisteredName : Type := {
  rn_childs_by_name : list (string * NameId);
  rn_parent : option NameId;
  rn_name : option string;
  rn_level : nat;
  rn_modules : list ModId;
  rn_calls : list CallId;
  rn_tensor : option TensorId;
  rn_returnn_ctx : option CtxId;
  rn_is_reserved : bool;
  rn_is_subnet : bool;
  rn_wrap_to_returnn_enabled : bool;
  rn_inputs : list NameId
}.

Definition ReservedInputName : string := "data".
Definition ReservedOutputName : string := "output".
Definition ReservedNames : list string := [ReservedInputName; ReservedOutputName].

(** The argument of [set_outputs]: one tensor, or a list or tuple. *)
Inductive outputs_arg : Type :=
| OutSingle (t : TensorVal)
| OutSeq (l : list TensorVal).

(** [CallEntry], call.py lines 13-34 (the [orig_inputs_*] attributes are
    written by the caller only and are left out). *)
Record CallEntry : Type := {
  ce_module : ModId;
  ce_orig_outputs : option outputs_arg;
  ce_inputs_args : option (list (option TensorId));
  ce_inputs_kwargs : option (list (string * option TensorId));
  ce_inputs_flat : option (list (option TensorId));
  ce_outputs : option (list TensorId);
  ce_parent_call : option CallId;
  ce_child_calls : list CallId;
  ce_level : option nat;
  ce_namespace : option NameId;
  ce_returnn_layer : option Layer;
  ce_returnn_layer_dict : option pyval
}.

(** Modelled from the spec: [ModuleEntry] (module.py is not part of the
    sources): "identity of one operation-unit instance.  Attributes: ordered
    list of invocations against it, ordered list of naming namespace
    nodes". *)
Record ModuleEntry : Type := {
  me_calls : list CallId;
  me_names : list NameId
}.

(** Modelled from the spec: [TensorEntry] (tensor.py is not part of the
    sources): "identity of one traced value.  Attributes: ordered set of
    owning namespace nodes, producer invocation(s) and unit(s), optional
    resolved shape/layout"; [te_tensor] is the traced value itself, which
    [x.tensor()] gives back.  An element of [te_names] is a namespace node
    or [None]: [set_outputs] appends [self.namespace] as it is. *)
Record TensorEntry : Type := {
  te_tensor : TensorVal;
  te_names : list (option NameId);
  te_output_from_calls : list CallId;
  te_output_from_modules : list ModId;
  te_returnn_data : option Layer
}.

(** Modelled from the spec: [ReturnnContext] (returnn_ctx.py is not part of
    the sources): "parent context link (absent at root), an in-progress
    network object, defined input slots (value + optional index), defined
    single output".  [ctx_layers] are the layers constructed so far in the
    network, by name; [ctx_sub_net_layer] is the layer that wraps the
    network in the parent network. *)
Record ReturnnContext : Type := {
  ctx_parent : option CtxId;
  ctx_name : option string;
  ctx_layers : list (string * pyval);
  ctx_inputs : list (TensorId * option string);
  ctx_output : option Layer;
  ctx_sub_net_layer : option Layer
}.

(** Modelled from the spec: the global trace state [Naming] (naming.py is
    not part of the sources): "the call stack (LIFO push on invocation
    entry, pop on exit), session flags (retain original pre-trace values,
    enable graph materialization)" and the tensor registry.  The top of
    the stack is the last element, as in [module_call_stack[-1]]. *)
Record Naming : Type := {
  nm_wrap_to_returnn_enabled : bool;
  nm_keep_orig_module_io_tensors : bool;
  nm_module_call_stack : list CallId;
  nm_tensors : list (TensorVal * TensorId)
}.

Record Store : Type := {
  st_names : list RegisteredName;
  st_calls : list CallEntry;
  st_modules : list ModuleEntry;
  st_tensors : list TensorEntry;
  st_ctxs : list ReturnnContext;
  st_naming : Naming
}.

(** *** Attribute assignment *)

Definition set_childs_by_name (v : list (string * NameId)) (r : RegisteredName) :=
  {| rn_childs_by_name := v; rn_parent := rn_parent r; rn_name := rn_name r;
     rn_level := rn_level r; rn_modules := rn_modules r; rn_calls := rn_calls r;
     rn_tensor := rn_tensor r; rn_returnn_ctx := rn_returnn_ctx r;
     rn_is_reserved := rn_is_reserved r; rn_is_subnet := rn_is_subnet r;
     rn_wrap_to_returnn_enabled := rn_wrap_to_returnn_enabled r;
     rn_inputs := rn_inputs r |}.

Definition set_level (v : nat) (r : RegisteredName) :=
  {| rn_childs_by_name := rn_childs_by_name r; rn_parent := rn_parent r; rn_name := rn_name r;
     rn_level := v; rn_modules := rn_modules r; rn_calls := rn_calls r;
     rn_tensor := rn_tensor r; rn_returnn_ctx := rn_returnn_ctx r;
     rn_is_reserved := rn_is_reserved r; rn_is_subnet := rn_is_subnet r;
     rn_wrap_to_returnn_enabled := rn_wrap_to_returnn_enabled r;
     rn_inputs := rn_inputs r |}.

Definition set_modules (v : list ModId) (r : RegisteredName) :=
  {| rn_childs_by_name := rn_childs_by_name r; rn_parent := rn_parent r; rn_name := rn_name r;
     rn_level := rn_level r; rn_modules := v; rn_calls := rn_calls r;
     rn_tensor := rn_tensor r; rn_returnn_ctx := rn_returnn_ctx r;
     rn_is_reserved := rn_is_reserved r; rn_is_subnet := rn_is_subnet r;
     rn_wrap_to_returnn_enabled := rn_wrap_to_returnn_enabled r;
     rn_inputs := rn_inputs r |}.

Definition set_calls (v : list CallId) (r : RegisteredName) :=
  {| rn_childs_by_name := rn_childs_by_name r; rn_parent := rn_parent r; rn_name := rn_name r;
     rn_level := rn_level r; rn_modules := rn_modules r; rn_calls := v;
     rn_tensor := rn_tensor r; rn_returnn_ctx := rn_returnn_ctx r;
     rn_is_reserved := rn_is_reserved r; rn_is_subnet := rn_is_subnet r;
     rn_wrap_to_returnn_enabled := rn_wrap_to_returnn_enabled r;
     rn_inputs := rn_inputs r |}.

Definition set_tensor (v : option TensorId) (r : RegisteredName) :=
  {| rn_childs_by_name := rn_childs_by_name r; rn_parent := rn_parent r; rn_name := rn_name r;
     rn_level := rn_level r; rn_modules := rn_modules r; rn_calls := rn_calls r;
     rn_tensor := v; rn_returnn_ctx := rn_returnn_ctx r;
     rn_is_reserved := rn_is_reserved r; rn_is_subnet := rn_is_subnet r;
     rn_wrap_to_returnn_enabled := rn_wrap_to_returnn_enabled r;
     rn_inputs := rn_inputs r |}.

Definition set_returnn_ctx (v : option CtxId) (r : RegisteredName) :=
  {| rn_childs_by_name := rn_childs_by_name r; rn_parent := rn_parent r; rn_name := rn_name r;
     rn_level := rn_level r; rn_modules := rn_modules r; rn_calls := rn_calls r;
     rn_tensor := rn_tensor r; rn_returnn_ctx := v;
     rn_is_reserved := rn_is_reserved r; rn_is_subnet := rn_is_subnet r;
     rn_wrap_to_returnn_enabled := rn_wrap_to_returnn_enabled r;
     rn_inputs := rn_inputs r |}.

Definition set_inputs (v : list NameId) (r : RegisteredName) :=
  {| rn_childs_by_name := rn_childs_by_name r; rn_parent := rn_parent r; rn_name := rn_name r;
     rn_level := rn_level r; rn_modules := rn_modules r; rn_calls := rn_calls r;
     rn_tensor := rn_tensor r; rn_returnn_ctx := rn_returnn_ctx r;
     rn_is_reserved := rn_is_reserved r; rn_is_subnet := rn_is_subnet r;
     rn_wrap_to_returnn_enabled := rn_wrap_to_returnn_enabled r;
     rn_inputs := v |}.

Definition set_orig_outputs (v : option outputs_arg) (c : CallEntry) :=
  {| ce_module := ce_module c; ce_orig_outputs := v;
     ce_inputs_args := ce_inputs_args c; ce_inputs_kwargs := ce_inputs_kwargs c;
     ce_inputs_flat := ce_inputs_flat c; ce_outputs := ce_outputs c;
     ce_parent_call := ce_parent_call c; ce_child_calls := ce_child_calls c;
     ce_level := ce_level c; ce_namespace := ce_namespace c;
     ce_returnn_layer := ce_returnn_layer c;
     ce_returnn_layer_dict := ce_returnn_layer_dict c |}.

Definition set_call_inputs (a : option (list (option TensorId)))
    (k : option (list (string * option TensorId)))
    (f : option (list (option TensorId))) (c : CallEntry) :=
  {| ce_module := ce_module c; ce_orig_outputs := ce_orig_outputs c;
     ce_inputs_args := a; ce_inputs_kwargs := k;
     ce_inputs_flat := f; ce_outputs := ce_outputs c;
     ce_parent_call := ce_parent_call c; ce_child_calls := ce_child_calls c;
     ce_level := ce_level c; ce_namespace := ce_namespace c;
     ce_returnn_layer := ce_returnn_layer c;
     ce_returnn_layer_dict := ce_returnn_layer_dict c |}.

Definition set_outputs_field (v : option (list TensorId)) (c : CallEntry) :=
  {| ce_module := ce_module c; ce_orig_outputs := ce_orig_outputs c;
     ce_inputs_args := ce_inputs_args c; ce_inputs_kwargs := ce_inputs_kwargs c;
     ce_inputs_flat := ce_inputs_flat c; ce_outputs := v;
     ce_parent_call := ce_parent_call c; ce_child_calls := ce_child_calls c;
     ce_level := ce_level c; ce_namespace := ce_namespace c;
     ce_returnn_layer := ce_returnn_layer c;
     ce_returnn_layer_dict := ce_returnn_layer_dict c |}.

Definition set_parent_call (v : option CallId) (c : CallEntry) :=
  {| ce_module := ce_module c; ce_orig_outputs := ce_orig_outputs c;
     ce_inputs_args := ce_inputs_args c; ce_inputs_kwargs := ce_inputs_kwargs c;
     ce_inputs_flat := ce_inputs_flat c; ce_outputs := ce_outputs c;
     ce_parent_call := v; ce_child_calls := ce_child_calls c;
     ce_level := ce_level c; ce_namespace := ce_namespace c;
     ce_returnn_layer := ce_returnn_layer c;
     ce_returnn_layer_dict := ce_returnn_layer_dict c |}.

Definition set_child_calls (v : list CallId) (c : CallEntry) :=
  {| ce_module := ce_module c; ce_orig_outputs := ce_orig_outputs c;
     ce_inputs_args := ce_inputs_args c; ce_inputs_kwargs := ce_inputs_kwargs c;
     ce_inputs_flat := ce_inputs_flat c; ce_outputs := ce_outputs c;
     ce_parent_call := ce_parent_call c; ce_child_calls := v;
     ce_level := ce_level c; ce_namespace := ce_namespace c;
     ce_returnn_layer := ce_returnn_layer c;
     ce_returnn_layer_dict := ce_returnn_layer_dict c |}.

Definition set_namespace (v : option NameId) (c : CallEntry) :=
  {| ce_module := ce_module c; ce_orig_outputs := ce_orig_outputs c;
     ce_inputs_args := ce_inputs_args c; ce_inputs_kwargs := ce_inputs_kwargs c;
     ce_inputs_flat := ce_inputs_flat c; ce_outputs := ce_outputs c;
     ce_parent_call := ce_parent_call c; ce_child_calls := ce_child_calls c;
     ce_level := ce_level c; ce_namespace := v;
     ce_returnn_layer := ce_returnn_layer c;
     ce_returnn_layer_dict := ce_returnn_layer_dict c |}.

Definition set_layer (l : option Layer) (d : option pyval) (c : CallEntry) :=
  {| ce_module := ce_module c; ce_orig_outputs := ce_orig_outputs c;
     ce_inputs_args := ce_inputs_args c; ce_inputs_kwargs := ce_inputs_kwargs c;
     ce_inputs_flat := ce_inputs_flat c; ce_outputs := ce_outputs c;
     ce_parent_call := ce_parent_call c; ce_child_calls := ce_child_calls c;
     ce_level := ce_level c; ce_namespace := ce_namespace c;
     ce_returnn_layer := l;
     ce_returnn_layer_dict := d |}.

Definition set_me_calls (v : list CallId) (m : ModuleEntry) :=
  {| me_calls := v; me_names := me_names m |}.
Definition set_me_names (v : list NameId) (m : ModuleEntry) :=
  {| me_calls := me_calls m; me_names := v |}.

Definition set_te_names (v : list (option NameId)) (t : TensorEntry) :=
  {| te_tensor := te_tensor t; te_names := v;
     te_output_from_calls := te_output_from_calls t;
     te_output_from_modules := te_output_from_modules t;
     te_returnn_data := te_returnn_data t |}.
Definition set_te_output_from_calls (v : list CallId) (t : TensorEntry) :=
  {| te_tensor := te_tensor t; te_names := te_names t;
     te_output_from_calls := v;
     te_output_from_modules := te_output_from_modules t;
     te_returnn_data := te_returnn_data t |}.
Definition set_te_output_from_modules (v : list ModId) (t : TensorEntry) :=
  {| te_tensor := te_tensor t; te_names := te_names t;
     te_output_from_calls := te_output_from_calls t;
     te_output_from_modules := v;
     te_returnn_data := te_returnn_data t |}.
Definition set_te_returnn_data (v : option Layer) (t : TensorEntry) :=
  {| te_tensor := te_tensor t; te_names := te_names t;
     te_output_from_calls := te_output_from_calls t;
     te_output_from_modules := te_output_from_modules t;
     te_returnn_data := v |}.

Definition set_ctx_layers (v : list (string * pyval)) (c : ReturnnContext) :=
  {| ctx_parent := ctx_parent c; ctx_name := ctx_name c; ctx_layers := v;
     ctx_inputs := ctx_inputs c; ctx_output := ctx_output c;
     ctx_sub_net_layer := ctx_sub_net_layer c |}.
Definition set_ctx_inputs (v : list (TensorId * option string)) (c : ReturnnContext) :=
  {| ctx_parent := ctx_parent c; ctx_name := ctx_name c; ctx_layers := ctx_layers c;
     ctx_inputs := v; ctx_output := ctx_output c;
     ctx_sub_net_layer := ctx_sub_net_layer c |}.
Definition set_ctx_output (v : option Layer) (c : ReturnnContext) :=
  {| ctx_parent := ctx_parent c; ctx_name := ctx_name c; ctx_layers := ctx_layers c;
     ctx_inputs := ctx_inputs c; ctx_output := v;
     ctx_sub_net_layer := ctx_sub_net_layer c |}.

Definition set_stack (v : list CallId) (n : Naming) :=
  {| nm_wrap_to_returnn_enabled := nm_wrap_to_returnn_enabled n;
     nm_keep_orig_module_io_tensors := nm_keep_orig_module_io_tensors n;
     nm_module_call_stack := v; nm_tensors := nm_tensors n |}.
Definition set_nm_tensors (v : list (TensorVal * TensorId)) (n : Naming) :=
  {| nm_wrap_to_returnn_enabled := nm_wrap_to_returnn_enabled n;
     nm_keep_orig_module_io_tensors := nm_keep_orig_module_io_tensors n;
     nm_module_call_stack := nm_module_call_stack n; nm_tensors := v |}.

Definition with_names (v : list RegisteredName) (s : Store) :=
  {| st_names := v; st_calls := st_calls s; st_modules := st_modules s;
     st_tensors := st_tensors s; st_ctxs := st_ctxs s; st_naming := st_naming s |}.
Definition with_calls (v : list CallEntry) (s : Store) :=
  {| st_names := st_names s; st_calls := v; st_modules := st_modules s;
     st_tensors := st_tensors s; st_ctxs := st_ctxs s; st_naming := st_naming s |}.
Definition with_modules (v : list ModuleEntry) (s : Store) :=
  {| st_names := st_names s; st_calls := st_calls s; st_modules := v;
     st_tensors := st_tensors s; st_ctxs := st_ctxs s; st_naming := st_naming s |}.
Definition with_tensors (v : list TensorEntry) (s : Store) :=
  {| st_names := st_names s; st_calls := st_calls s; st_modules := st_modules s;
     st_tensors := v; st_ctxs := st_ctxs s; st_naming := st_naming s |}.
Definition with_ctxs (v : list ReturnnContext) (s : Store) :=
  {| st_names := st_names s; st_calls := st_calls s; st_modules := st_modules s;
     st_tensors := st_tensors s; st_ctxs := v; st_naming := st_naming s |}.
Definition with_naming (v : Naming) (s : Store) :=
  {| st_names := st_names s; st_calls := st_calls s; st_modules := st_modules s;
     st_tensors := st_tensors s; st_ctxs := st_ctxs s; st_naming := v |}.

(** ** The monad of methods *)

(** A method returns a value, or raises; both leave a store behind.
    [Stuck] is the use of a reference that the store does not hold, which
    no Python run can do. *)
Inductive result (A : Type) : Type :=
| Ok (a : A) (s : Store)
| Raise (e : exn) (s : Store)
| Stuck.
Arguments Ok {A} a s.
Arguments Raise {A} e s.
Arguments Stuck {A}.

Definition M (A : Type) : Type := Store → result A.

Definition M_ret {A} (a : A) : M A := λ s, Ok a s.
Definition M_bind {A B} (f : A → M B) (m : M A) : M B :=
  λ s, match m s with
       | Ok a s' => f a s'
       | Raise e s' => Raise e s'
       | Stuck => Stuck
       end.

#[global] Instance M_mret : MRet M := @M_ret.
#[global] Instance M_mbind : MBind M := @M_bind.

Definition raise {A} (e : exn) : M A := λ s, Raise e s.
Definition stuck {A} : M A := λ _, Stuck.
Definition assert (b : bool) : M unit :=
  if b then mret () else raise AssertionError.
Definition get_store : M Store := λ s, Ok s s.

(** [try: body finally: fin] *)
Definition try_finally {A} (body : M A) (fin : M unit) : M A :=
  λ s, match body s with
       | Ok a s' =>
           match fin s' with
           | Ok _ s'' => Ok a s''
           | Raise e s'' => Raise e s''
           | Stuck => Stuck
           end
       | Raise e s' =>
           match fin s' with
           | Ok _ s'' => Raise e s''
           | Raise e' s'' => Raise e' s''
           | Stuck => Stuck
           end
       | Stuck => Stuck
       end.

Fixpoint for_each {A} (l : list A) (f : A → M unit) : M unit :=
  match l with
  | [] => mret ()
  | x :: l' => f x ;; for_each l' f
  end.

Fixpoint map_M {A B} (f : A → M B) (l : list A) : M (list B) :=
  match l with
  | [] => mret []
  | x :: l' => y ← f x; ys ← map_M f l'; mret (y :: ys)
  end.

(** The result of a method that only reads the store. *)
Inductive pres (A : Type) : Type :=
| Val (a : A)
| Exc (e : exn)
| Dangling.
Arguments Val {A} a.
Arguments Exc {A} e.
Arguments Dangling {A}.

Definition pres_bind {A B} (f : A → pres B) (m : pres A) : pres B :=
  match m with
  | Val a => f a
  | Exc e => Exc e
  | Dangling => Dangling
  end.

#[global] Instance pres_mret : MRet pres := @Val.
#[global] Instance pres_mbind : MBind pres := @pres_bind.

Fixpoint map_pres {A B} (f : A → pres B) (l : list A) : pres (list B) :=
  match l with
  | [] => Val []
  | x :: l' => y ← f x; ys ← map_pres f l'; Val (y :: ys)
  end.

Definition lift_pres {A} (f : Store → pres A) : M A :=
  λ s, match f s with
       | Val a => Ok a s
       | Exc e => Raise e s
       | Dangling => Stuck
       end.

(** [d[k]] *)
Definition lookup_key {V} (k : string) (d : list (string * V)) : M V :=
  match dict_get k d with
  | Some v => mret v
  | None => raise KeyError
  end.

(** *** Reading and writing objects *)

Definition get_name (n : NameId) : M RegisteredName :=
  λ s, match st_names s !! n with Some r => Ok r s | None => Stuck end.
Definition modify_name (n : NameId) (f : RegisteredName → RegisteredName) : M unit :=
  λ s, match st_names s !! n with
       | Some r => Ok () (with_names (<[n := f r]> (st_names s)) s)
       | None => Stuck
       end.
Definition alloc_name (r : RegisteredName) : M NameId :=
  λ s, Ok (length (st_names s)) (with_names (st_names s ++ [r]) s).

Definition get_call (c : CallId) : M CallEntry :=
  λ s, match st_calls s !! c with Some r => Ok r s | None => Stuck end.
Definition modify_call (c : CallId) (f : CallEntry → CallEntry) : M unit :=
  λ s, match st_calls s !! c with
       | Some r => Ok () (with_calls (<[c := f r]> (st_calls s)) s)
       | None => Stuck
       end.
Definition alloc_call (r : CallEntry) : M CallId :=
  λ s, Ok (length (st_calls s)) (with_calls (st_calls s ++ [r]) s).

Definition get_module (m : ModId) : M ModuleEntry :=
  λ s, match st_modules s !! m with Some r => Ok r s | None => Stuck end.
Definition modify_module (m : ModId) (f : ModuleEntry → ModuleEntry) : M unit :=
  λ s, match st_modules s !! m with
       | Some r => Ok () (with_modules (<[m := f r]> (st_modules s)) s)
       | None => Stuck
       end.
Definition alloc_module (r : ModuleEntry) : M ModId :=
  λ s, Ok (length (st_modules s)) (with_modules (st_modules s ++ [r]) s).

Definition get_tensor (t : TensorId) : M TensorEntry :=
  λ s, match st_tensors s !! t with Some r => Ok r s | None => Stuck end.
Definition modify_tensor (t : TensorId) (f : TensorEntry → TensorEntry) : M unit :=
  λ s, match st_tensors s !! t with
       | Some r => Ok () (with_tensors (<[t := f r]> (st_tensors s)) s)
       | None => Stuck
       end.
Definition alloc_tensor (r : TensorEntry) : M TensorId :=
  λ s, Ok (length (st_tensors s)) (with_tensors (st_tensors s ++ [r]) s).

Definition get_ctx (c : CtxId) : M ReturnnContext :=
  λ s, match st_ctxs s !! c with Some r => Ok r s | None => Stuck end.
Definition modify_ctx (c : CtxId) (f : ReturnnContext → ReturnnContext) : M unit :=
  λ s, match st_ctxs s !! c with
       | Some r => Ok () (with_ctxs (<[c := f r]> (st_ctxs s)) s)
       | None => Stuck
       end.
Definition alloc_ctx (r : ReturnnContext) : M CtxId :=
  λ s, Ok (length (st_ctxs s)) (with_ctxs (st_ctxs s ++ [r]) s).

Definition get_naming : M Naming := λ s, Ok (st_naming s) s.
Definition modify_naming (f : Naming → Naming) : M unit :=
  λ s, Ok () (with_naming (f (st_naming s)) s).

(** ** The collaborators outside the two modules *)

(** The operation units and the RETURNN engine are used through the
    following operations only.  A unit is known by the index of its
    [ModuleEntry]. *)
Record External : Type := {
  (** [module.module.has_torch_forward()]: a property of the unit's class. *)
  has_torch_forward : ModId → bool;
  (** [module.get_canonical_name(parent_namespace=...)] *)
  get_canonical_name : Store → ModId → NameId → string;
  (** [module.create_returnn_layer_dict is not Module.create_returnn_layer_dict] *)
  overrides_create_returnn_layer_dict : ModId → bool;
  (** [nest.pack_sequence_as(structure=(inputs_args, inputs_kwargs), flat_sequence=...)];
      [None] when the two views do not match. *)
  pack_sequence_as :
    option (list (option TensorId)) → option (list (string * option TensorId)) →
    list (option TensorVal) →
    option (list (option TensorVal) * list (string * option TensorVal));
  (** [module.forward] on the packed positional arguments *)
  forward : ModId → list (option TensorVal) → M TensorVal;
  (** [module.create_returnn_layer_dict] on the packed arguments *)
  create_returnn_layer_dict :
    Store → ModId → list (option TensorVal) → list (string * option TensorVal) →
    pyval + exn;
  (** [returnn_net.construct_layer(...)]: the engine accepts the description,
      or raises. *)
  construct_layer : Store → CtxId → string → pyval → option exn;
  (** [module.check_returnn_layer(layer)] *)
  check_returnn_layer : Store → ModId → Layer → option exn;
  (** [module.make_output_tensor_from_returnn(inputs_flat=..., layer=...)] *)
  make_output_tensor_from_returnn :
    Store → ModId → list (option TensorVal) → Layer → TensorVal;
  (** the import of parameters and the check against the torch outputs that
      end [apply_call] *)
  check_call_returnn_outputs : Store → CallId → Layer → option exn
}.

Definition truthy (name : option string) : bool :=
  match name with
  | Some s => negb (bool_decide (s = ""))
  | None => false
  end.

Definition reserved (name : string) : bool := bool_decide (name ∈ ReservedNames).

Definition raise_if (e : option exn) : M unit :=
  match e with
  | Some e => raise e
  | None => mret ()
  end.

(** [None.attr]: an [AttributeError]. *)
Definition attr_of {A} (o : option A) : M A :=
  match o with
  | Some a => mret a
  | None => raise AttributeError
  end.

Fixpoint assoc_get {V} (k : nat) (d : list (nat * V)) : option V :=
  match d with
  | [] => None
  | (k', v) :: d' => if decide (k' = k) then Some v else assoc_get k d'
  end.

(** Modelled from the spec: [naming.tensors[x]], the tensor identity registry
    of naming.py: "each gets a fresh-or-reused TensorEntry". *)
Definition tensor_entry (x : TensorVal) : M TensorId :=
  nm ← get_naming;
  match assoc_get x (nm_tensors nm) with
  | Some t => mret t
  | None =>
      t ← alloc_tensor {| te_tensor := x; te_names := []; te_output_from_calls := [];
                          te_output_from_modules := []; te_returnn_data := None |};
      modify_naming (λ nm, set_nm_tensors (nm_tensors nm ++ [(x, t)]) nm);;
      mret t
  end.

(** Modelled from the spec: [ReturnnContext(parent=..., name=...)]: a fresh
    context with an empty network; it has a wrapping layer in the parent
    network exactly when there is a parent ("might not exist in the root
    namespace", call.py line 139). *)
Definition ReturnnContext_new (parent : option CtxId) (name : option string) : M CtxId :=
  alloc_ctx {| ctx_parent := parent; ctx_name := name; ctx_layers := [];
               ctx_inputs := []; ctx_output := None;
               ctx_sub_net_layer :=
                 match parent with
                 | Some p => Some {| layer_net := p; layer_name := default "" name |}
                 | None => None
                 end |}.

(** Modelled from the spec: [returnn_ctx.define_input(tensor, data_key=...)]
    "informs the context of the new slot". *)
Definition define_input (ctx : CtxId) (tensor : TensorId) (data_key : option string) : M unit :=
  modify_ctx ctx (λ c, set_ctx_inputs (ctx_inputs c ++ [(tensor, data_key)]) c).

(** Modelled from the spec: [returnn_ctx.define_output(layer)] "informs the
    context of the resulting node as the scope's output". *)
Definition define_output (ctx : CtxId) (layer : option Layer) : M unit :=
  l ← attr_of layer;
  modify_ctx ctx (set_ctx_output (Some l)).

(** ** RegisteredName *)

(** namespace.py lines 156-162.  [itertools.count(1)] is followed for [n]
    steps; [unique_name_total] shows that the number of steps taken in
    [_get_unique_name] is always enough. *)
Definition name_free (childs : list (string * NameId)) (name : string) : bool :=
  negb (dict_contains name childs) && negb (reserved name).

Fixpoint unique_name_from (n : nat) (childs : list (string * NameId))
    (suggested_name : string) (i : nat) : option string :=
  match n with
  | 0 => None
  | S n' =>
      let suggested_name_ := suggested_name +:+ ("_" +:+ pretty i) in
      if name_free childs suggested_name_ then Some suggested_name_
      else unique_name_from n' childs suggested_name (S i)
  end.

Definition unique_name (childs : list (string * NameId)) (suggested_name : string)
    : option string :=
  if name_free childs suggested_name then Some suggested_name
  else unique_name_from (S (length childs + length ReservedNames)) childs suggested_name 1.

Definition _get_unique_name (self : NameId) (suggested_name : string) : M string :=
  r ← get_name self;
  match unique_name (rn_childs_by_name r) suggested_name with
  | Some name => mret name
  | None => stuck
  end.

(** namespace.py lines 96-100 *)
Definition assign_tensor (self : NameId) (tensor : TensorId) : M unit :=
  r ← get_name self;
  match rn_tensor r with
  | Some old =>
      te ← get_tensor old;
      match list_remove_first (Some self) (te_names te) with
      | Some l => modify_tensor old (set_te_names l)
      | None => raise ValueError
      end
  | None => mret ()
  end;;
  modify_name self (set_tensor (Some tensor));;
  modify_tensor tensor (λ te, set_te_names (te_names te ++ [Some self]) te).

(** call.py lines 36-39 *)
Definition CallEntry_init (module : ModId) : M CallId :=
  self ← alloc_call {| ce_module := module; ce_orig_outputs := None;
                       ce_inputs_args := None; ce_inputs_kwargs := None;
                       ce_inputs_flat := None; ce_outputs := None;
                       ce_parent_call := None; ce_child_calls := [];
                       ce_level := None; ce_namespace := None;
                       ce_returnn_layer := None; ce_returnn_layer_dict := None |};
  modify_module module (λ m, set_me_calls (me_calls m ++ [self]) m);;
  mret self.

Section Methods.

Context (ext : External).

(** namespace.py lines 115-129.  [frames] is the depth of Python calls that
    is left before the interpreter raises [RecursionError]. *)
Fixpoint maybe_create_returnn_ctx (frames : nat) (self : NameId) : M unit :=
  match frames with
  | 0 => raise RecursionError
  | S frames' =>
      r ← get_name self;
      assert (rn_is_subnet r);;
      assert (rn_wrap_to_returnn_enabled r);;
      match rn_returnn_ctx r with
      | Some _ => mret ()
      | None =>
          parent_ctx ←
            match rn_parent r with
            | Some p =>
                pr ← get_name p;
                match rn_returnn_ctx pr with
                | None => maybe_create_returnn_ctx frames' p
                | Some _ => mret ()
                end;;
                pr ← get_name p;
                assert (bool_decide (is_Some (rn_returnn_ctx pr)));;
                mret (rn_returnn_ctx pr)
            | None => mret None
            end;
          c ← ReturnnContext_new parent_ctx (rn_name r);
          modify_name self (set_returnn_ctx (Some c))
      end
  end.

(** namespace.py lines 131-147 *)
Definition assign_module (frames : nat) (self : NameId) (module : ModId) : M unit :=
  r ← get_name self;
  if bool_decide (module ∈ rn_modules r) then mret ()
  else
    (if rn_is_subnet r then assert (has_torch_forward ext module)
     else (assert (bool_decide (rn_modules r = []));;
           assert (negb (has_torch_forward ext module))));;
    modify_name self (λ r, set_modules (rn_modules r ++ [module]) r);;
    modify_module module (λ m, set_me_names (me_names m ++ [self]) m);;
    (if rn_is_reserved r then assert (negb (has_torch_forward ext module)) else mret ());;
    if rn_wrap_to_returnn_enabled r then
      r ← get_name self;
      if has_torch_forward ext module && negb (bool_decide (is_Some (rn_returnn_ctx r))) then
        assert (bool_decide (is_Some (rn_parent r)));;
        maybe_create_returnn_ctx frames self
      else mret ()
    else mret ().

(** namespace.py lines 102-113 *)
Definition assign_call (frames : nat) (self : NameId) (call : CallId) : M unit :=
  r ← get_name self;
  if bool_decide (call ∈ rn_calls r) then mret ()
  else
    ce ← get_call call;
    assign_module frames self (ce_module ce);;
    r ← get_name self;
    (if rn_is_subnet r then assert (has_torch_forward ext (ce_module ce))
     else (assert (bool_decide (rn_calls r = []));;
           assert (negb (has_torch_forward ext (ce_module ce)))));;
    ce ← get_call call;
    assert (negb (bool_decide (is_Some (ce_namespace ce))));;
    modify_call call (set_namespace (Some self));;
    modify_name self (λ r, set_calls (rn_calls r ++ [call]) r).

(** namespace.py lines 29-62 *)
Definition RegisteredName_init (frames : nat)
    (wrap_to_returnn_enabled : option bool) (parent : option NameId)
    (name : option string) (call : option CallId) (tensor : option TensorId)
    (is_reserved is_subnet : bool) : M NameId :=
  wrap ←
    (match parent with
     | Some p =>
         assert (truthy name);;
         assert (negb (bool_decide (is_Some wrap_to_returnn_enabled)));;
         pr ← get_name p;
         mret (rn_wrap_to_returnn_enabled pr)
     | None =>
         assert (negb (truthy name));;
         match wrap_to_returnn_enabled with
         | Some w => mret w
         | None => raise AssertionError
         end
     end : M bool);
  (if is_reserved then mret ()
   else assert (match name with Some n => negb (reserved n) | None => true end));;
  self ← alloc_name {| rn_childs_by_name := []; rn_parent := parent; rn_name := name;
                       rn_level := 0; rn_modules := []; rn_calls := [];
                       rn_tensor := None; rn_returnn_ctx := None;
                       rn_is_reserved := is_reserved; rn_is_subnet := is_subnet;
                       rn_wrap_to_returnn_enabled := wrap; rn_inputs := [] |};
  match call with
  | Some c => assign_call frames self c
  | None => mret ()
  end;;
  match parent with
  | Some p =>
      pr ← get_name p;
      modify_name self (set_level (rn_level pr + 1))
  | None => mret ()
  end;;
  match tensor with
  | Some t => assign_tensor self t
  | None => mret ()
  end;;
  (if wrap : bool then
     match parent with
     | Some _ => mret ()
     | None => maybe_create_returnn_ctx frames self
     end
   else mret ());;
  mret self.

(** namespace.py lines 164-169 *)
Definition register_sub_net (frames : nat) (self : NameId) (suggested_name : string)
    : M NameId :=
  r ← get_name self;
  assert (rn_is_subnet r);;
  name ← _get_unique_name self suggested_name;
  child ← RegisteredName_init frames None (Some self) (Some name) None None false true;
  modify_name self (λ r, set_childs_by_name (dict_set name child (rn_childs_by_name r)) r);;
  mret child.

(** namespace.py lines 171-177 *)
Definition register_sub_call (frames : nat) (self : NameId) (call : CallId) : M NameId :=
  r ← get_name self;
  assert (rn_is_subnet r);;
  ce ← get_call call;
  s ← get_store;
  name ← _get_unique_name self (get_canonical_name ext s (ce_module ce) self);
  child ← RegisteredName_init frames None (Some self) (Some name) None None false
             (has_torch_forward ext (ce_module ce));
  modify_name self (λ r, set_childs_by_name (dict_set name child (rn_childs_by_name r)) r);;
  assign_call frames child call;;
  mret child.

(** namespace.py lines 179-192.  [self._inputs] holds namespace nodes and
    [tensor] is a tensor entry: the membership test of line 182 compares
    objects of the two classes. *)
Definition register_input (frames : nat) (self : NameId) (tensor : TensorId) : M NameId :=
  r ← get_name self;
  assert (rn_is_subnet r);;
  assert (negb (py_in (ObjTensor tensor) (ObjName <$> rn_inputs r)));;
  let idx := length (rn_inputs r) in
  let name :=
    if bool_decide (idx ≠ 0) then ReservedInputName +:+ (":" +:+ pretty idx)
    else ReservedInputName in
  assert (negb (dict_contains name (rn_childs_by_name r)));;
  name_ ← RegisteredName_init frames None (Some self) (Some name) None (Some tensor) true false;
  modify_name self (λ r, set_childs_by_name (dict_set name name_ (rn_childs_by_name r)) r);;
  modify_name self (λ r, set_inputs (rn_inputs r ++ [name_]) r);;
  (if rn_wrap_to_returnn_enabled r then
     r ← get_name self;
     ctx ← attr_of (rn_returnn_ctx r);
     define_input ctx tensor (if bool_decide (idx ≠ 0) then Some (pretty idx) else None)
   else mret ());;
  mret name_.

(** namespace.py lines 226-233; the method only reads the store. *)
Fixpoint name_for_tensor_loop (s : Store) (self : NameId)
    (childs : list (string * NameId)) (names : list (option NameId)) : pres string :=
  match names with
  | [] => Exc KeyError
  | None :: _ => Exc AttributeError
  | Some name_ :: names' =>
      match st_names s !! name_ with
      | None => Dangling
      | Some nr =>
          if bool_decide (rn_parent nr = Some self) then
            match rn_name nr ≫= λ k, dict_get k childs with
            | None => Exc KeyError
            | Some c =>
                if bool_decide (c = name_) then Val (default "" (rn_name nr))
                else Exc AssertionError
            end
          else name_for_tensor_loop s self childs names'
      end
  end.

Definition name_for_tensor (s : Store) (self : NameId) (tensor : TensorId) : pres string :=
  match st_names s !! self, st_tensors s !! tensor with
  | Some r, Some te =>
      if rn_is_subnet r then name_for_tensor_loop s self (rn_childs_by_name r) (te_names te)
      else Exc AssertionError
  | _, _ => Dangling
  end.

(** call.py lines 57-59 *)
Definition set_returnn_layer (self : CallId) (layer : option Layer)
    (layer_dict : option pyval) : M unit :=
  modify_call self (set_layer layer layer_dict).

(** call.py lines 61-77 *)
Definition set_outputs (self : CallId) (outputs : outputs_arg) : M unit :=
  ce ← get_call self;
  assert (negb (bool_decide (is_Some (ce_outputs ce))));;
  naming ← get_naming;
  (if nm_keep_orig_module_io_tensors naming
   then modify_call self (set_orig_outputs (Some outputs))
   else mret ());;
  if nm_wrap_to_returnn_enabled naming then
    let outputs := match outputs with OutSingle t => [t] | OutSeq l => l end in
    entry_outputs ← map_M tensor_entry outputs;
    modify_call self (set_outputs_field (Some entry_outputs));;
    for_each entry_outputs (λ x,
      modify_tensor x (λ te, set_te_output_from_calls (te_output_from_calls te ++ [self]) te);;
      modify_tensor x (λ te,
        set_te_output_from_modules (te_output_from_modules te ++ [ce_module ce]) te));;
    match entry_outputs with
    | x :: _ =>
        ce ← get_call self;
        te ← get_tensor x;
        if bool_decide (ce_namespace ce ∈ te_names te) then mret ()
        else modify_tensor x (λ te, set_te_names (te_names te ++ [ce_namespace ce]) te)
    | [] => mret ()
    end
  else mret ().

(** [naming.module_call_stack.append(call)] *)
Definition push_call (call : CallId) : M unit :=
  modify_naming (λ nm, set_stack (nm_module_call_stack nm ++ [call]) nm).

(** The [finally] block of namespace.py lines 220-221. *)
Definition pop_call_checked (call : CallId) : M unit :=
  nm ← get_naming;
  match last (nm_module_call_stack nm) with
  | None => raise IndexError
  | Some top =>
      assert (bool_decide (call = top));;
      modify_naming (λ nm, set_stack (removelast (nm_module_call_stack nm)) nm)
  end.

(** namespace.py lines 194-224; [apply_call] is the method of the call
    entry, defined below. *)
Definition register_returnn_subnet_output_with (apply_call : CallId → M TensorVal)
    (frames : nat) (self : NameId) (tensor : TensorId) : M NameId :=
  r ← get_name self;
  assert (rn_is_subnet r);;
  naming ← get_naming;
  assert (nm_wrap_to_returnn_enabled naming);;
  name_ ← lift_pres (λ s, name_for_tensor s self tensor);
  te ← get_tensor tensor;
  producer ← lookup_key name_ (rn_childs_by_name r);
  pr ← get_name producer;
  let potential_calls :=
    remove_dups (filter (λ c, c ∈ rn_calls pr) (te_output_from_calls te)) in
  call ← (match potential_calls with
          | [call] => mret call
          | _ => raise AssertionError
          end : M CallId);
  assign_tensor self tensor;;
  let name := ReservedOutputName in
  r ← get_name self;
  assert (negb (dict_contains name (rn_childs_by_name r)));;
  child ← RegisteredName_init frames None (Some self) (Some name) None None true false;
  modify_name self (λ r, set_childs_by_name (dict_set name child (rn_childs_by_name r)) r);;
  copy_mod ← alloc_module {| me_calls := []; me_names := [] |};
  copy_call ← CallEntry_init copy_mod;
  modify_call copy_call (set_parent_call (Some call));;
  modify_call call (λ ce, set_child_calls (ce_child_calls ce ++ [copy_call]) ce);;
  modify_call copy_call (set_call_inputs (Some [Some tensor]) (Some []) (Some [Some tensor]));;
  assign_call frames child copy_call;;
  push_call copy_call;;
  try_finally (apply_call copy_call) (pop_call_checked copy_call);;
  r ← get_name self;
  ctx ← attr_of (rn_returnn_ctx r);
  ce ← get_call copy_call;
  define_output ctx (ce_returnn_layer ce);;
  layer ← attr_of (ce_returnn_layer ce);
  modify_tensor tensor (set_te_returnn_data (Some layer));;
  mret child.

(** call.py lines 79-161, one activation of the method; [apply_call] is
    the method as the nested activation sees it. *)
Definition apply_call_body (apply_call : CallId → M TensorVal)
    (frames : nat) (self : CallId) : M TensorVal :=
  ce ← get_call self;
  let module := ce_module ce in
  namespace ← (match ce_namespace ce with
               | Some n => mret n
               | None => raise AssertionError
               end : M NameId);
  flat ← (match ce_inputs_flat ce with
          | Some l => mret l
          | None => raise TypeError
          end : M (list (option TensorId)));
  inputs_flat ← map_M (λ x : option TensorId,
                   match x with
                   | Some t => te ← get_tensor t; mret (Some (te_tensor te))
                   | None => mret None
                   end) flat;
  '(inputs_args, inputs_kwargs) ←
    (match pack_sequence_as ext (ce_inputs_args ce) (ce_inputs_kwargs ce) inputs_flat with
     | Some packed => mret packed
     | None => raise ValueError
     end : M (list (option TensorVal) * list (string * option TensorVal)));
  '(res, layer, layer_dict) ←
    (if has_torch_forward ext module then
       for_each inputs_flat (λ x,
         match x with
         | Some x => t ← tensor_entry x; register_input frames namespace t;; mret ()
         | None => raise KeyError
         end);;
       res ← forward ext module inputs_args;
       res_entry ← tensor_entry res;
       ns ← get_name namespace;
       ctx ← attr_of (rn_returnn_ctx ns);
       c ← get_ctx ctx;
       match ctx_sub_net_layer c with
       | Some _ =>
           register_returnn_subnet_output_with apply_call frames namespace res_entry;;
           mret ()
       | None => mret ()
       end;;
       ns ← get_name namespace;
       ctx ← attr_of (rn_returnn_ctx ns);
       c ← get_ctx ctx;
       mret (res, ctx_sub_net_layer c, None)
     else
       assert (overrides_create_returnn_layer_dict ext module);;
       ns ← get_name namespace;
       parent_namespace ← (match rn_parent ns with
                           | Some p => mret p
                           | None => raise AssertionError
                           end : M NameId);
       maybe_create_returnn_ctx frames parent_namespace;;
       s ← get_store;
       layer_dict ← (match create_returnn_layer_dict ext s module inputs_args inputs_kwargs with
                     | inl d => mret d
                     | inr e => raise e
                     end : M pyval);
       ns ← get_name namespace;
       let layer_name := rn_name ns in
       pr ← get_name parent_namespace;
       returnn_net ← attr_of (rn_returnn_ctx pr);
       net ← get_ctx returnn_net;
       assert (negb (match layer_name with
                     | Some n => dict_contains n (ctx_layers net)
                     | None => false
                     end));;
       me ← get_module module;
       (if bool_decide (2 ≤ length (me_calls me))%nat then raise NotImplementedError
        else mret ());;
       (* Now the main construction of the layer itself. *)
       name ← (match layer_name with
               | Some n => mret n
               | None => raise TypeError
               end : M string);
       s ← get_store;
       raise_if (construct_layer ext s returnn_net name layer_dict);;
       modify_ctx returnn_net (λ c, set_ctx_layers (dict_set name layer_dict (ctx_layers c)) c);;
       let layer := {| layer_net := returnn_net; layer_name := name |} in
       (* The update of the parameters of the parent layers works on the
          engine's layer objects only. *)
       s ← get_store;
       raise_if (check_returnn_layer ext s module layer);;
       s ← get_store;
       let res := make_output_tensor_from_returnn ext s module inputs_flat layer in
       res_entry ← tensor_entry res;
       modify_tensor res_entry (set_te_returnn_data (Some layer));;
       assign_tensor namespace res_entry;;
       mret (res, Some layer, Some layer_dict)
     : M (TensorVal * option Layer * option pyval));
  set_returnn_layer self layer layer_dict;;
  set_outputs self (OutSeq [res]);;
  match layer with
  | Some layer =>
      s ← get_store;
      raise_if (check_call_returnn_outputs ext s self layer)
  | None => mret ()
  end;;
  mret res.

Fixpoint apply_call (frames : nat) (self : CallId) : M TensorVal :=
  match frames with
  | 0 => raise RecursionError
  | S frames' => apply_call_body (apply_call frames') frames' self
  end.

Definition register_returnn_subnet_output (frames : nat) (self : NameId)
    (tensor : TensorId) : M NameId :=
  register_returnn_subnet_output_with (apply_call frames) frames self tensor.

(** namespace.py lines 270-276, the loop over [childs_by_name.items()];
    [dump] is [dump_as_returnn_layer_dict]. *)
Fixpoint net_dict_loop (dump : NameId → pres pyval) (s : Store)
    (items : list (string * NameId)) (net_dict : list (string * pyval))
    : pres (list (string * pyval)) :=
  match items with
  | [] => Val net_dict
  | (name, child) :: items' =>
      match st_names s !! child with
      | None => Dangling
      | Some cr =>
          match rn_calls cr with
          | [] => net_dict_loop dump s items' net_dict
          | _ :: _ =>
              v ← dump child;
              net_dict_loop dump s items' (dict_set name v net_dict)
          end
      end
  end.

(** namespace.py lines 257-263, one round of the loop over [_inputs]. *)
Definition input_layer_name (s : Store) (r : RegisteredName) (input_child : NameId)
    : pres string :=
  match st_names s !! input_child with
  | None => Dangling
  | Some ic =>
      match rn_tensor ic with
      | None => Exc AssertionError
      | Some input_tensor =>
          match rn_parent r with
          | None => Exc AssertionError
          | Some parent_namespace => name_for_tensor s parent_namespace input_tensor
          end
      end
  end.

(** namespace.py lines 250-268 *)
Fixpoint dump_as_returnn_layer_dict (frames : nat) (s : Store) (self : NameId)
    : pres pyval :=
  match frames with
  | 0 => Exc RecursionError
  | S frames' =>
      match st_names s !! self with
      | None => Dangling
      | Some r =>
          primitive ←
            match rn_calls r with
            | [] => Val false
            | call :: _ =>
                match st_calls s !! call with
                | None => Dangling
                | Some ce => Val (negb (has_torch_forward ext (ce_module ce)))
                end
            end;
          if primitive : bool then
            match rn_calls r with
            | [call] =>
                match st_calls s !! call with
                | None => Dangling
                | Some ce => Val (default PNone (ce_returnn_layer_dict ce))
                end
            | _ => Exc AssertionError
            end
          else
            (* Subnetwork *)
            inputs ← map_pres (input_layer_name s r) (rn_inputs r);
            subnet_dict ←
              net_dict_loop (dump_as_returnn_layer_dict frames' s) s (rn_childs_by_name r) [];
            match inputs with
            | [] =>
                Val (PDict [("class", PStr "subnetwork"); ("from", PList []);
                            ("subnetwork", PDict subnet_dict)])
            | [input] =>
                Val (PDict [("class", PStr "subnetwork"); ("from", PStr input);
                            ("subnetwork", PDict subnet_dict)])
            | _ =>
                Val (PDict [("class", PStr "subnetwork"); ("from", PList (PStr <$> inputs));
                            ("subnetwork", PDict subnet_dict);
                            ("concat_sources", PBool false)])
            end
      end
  end.

(** namespace.py lines 270-276 *)
Definition dump_as_returnn_net_dict (frames : nat) (s : Store) (self : NameId)
    : pres (list (string * pyval)) :=
  match st_names s !! self with
  | None => Dangling
  | Some r => net_dict_loop (dump_as_returnn_layer_dict frames s) s (rn_childs_by_name r) []
  end.

End Methods.

(** ** Paths and searches *)

(** [sep.join(l)] *)
Fixpoint str_join (sep : string) (l : list string) : string :=
  match l with
  | [] => ""
  | x :: l' =>
      match l' with
      | [] => x
      | _ :: _ => x +:+ (sep +:+ str_join sep l')
      end
  end.

(** namespace.py lines 90-93, the loop [while name_.parent]; it is followed
    for [n] rounds, and [None] says that it has not ended by then. *)
Fixpoint absolute_name_loop (n : nat) (s : Store) (name_ : NameId)
    (names : list (option string)) : option (pres (list (option string))) :=
  match n with
  | 0 => None
  | S n' =>
      match st_names s !! name_ with
      | None => Some Dangling
      | Some r =>
          match rn_parent r with
          | Some p => absolute_name_loop n' s p (rn_name r :: names)
          | None => Some (Val names)
          end
      end
  end.

(** namespace.py line 94: [str.join] raises a [TypeError] on an item that
    is [None]. *)
Definition join_names (names : list (option string)) : pres string :=
  match names with
  | [] => Val ""
  | _ :: _ =>
      match mapM id names with
      | Some l => Val (str_join "/" l)
      | None => Exc TypeError
      end
  end.

(** namespace.py lines 88-94 *)
Definition get_absolute_name (n : nat) (s : Store) (self : NameId) : option (pres string) :=
  (λ names, names ≫= join_names) <$> absolute_name_loop n s self [].

(** namespace.py lines 237-240, the loop over [childs_by_name.items()] *)
Fixpoint find_name_for_module_loop (s : Store) (module : ModId)
    (items : list (string * NameId)) : pres (option string) :=
  match items with
  | [] => Val None
  | (name, child) :: items' =>
      match st_names s !! child with
      | None => Dangling
      | Some cr =>
          if bool_decide (module ∈ rn_modules cr) then Val (Some name)
          else find_name_for_module_loop s module items'
      end
  end.

(** namespace.py lines 235-240 *)
Definition find_name_for_module (s : Store) (self : NameId) (module : ModId)
    : pres (option string) :=
  match st_names s !! self with
  | None => Dangling
  | Some r =>
      if rn_is_subnet r then find_name_for_module_loop s module (rn_childs_by_name r)
      else Exc AssertionError
  end.

(** call.py lines 44-48; the loop is followed for [n] rounds, and [None]
    says that it has not ended by then. *)
Fixpoint get_root_call (n : nat) (s : Store) (entry : CallId) : option (pres CallId) :=
  match n with
  | 0 => None
  | S n' =>
      match st_calls s !! entry with
      | None => Some Dangling
      | Some ce =>
          match ce_parent_call ce with
          | Some parent_call => get_root_call n' s parent_call
          | None => Some (Val entry)
          end
      end
  end.

(** ** Outcomes and frames *)

(** [wp m s Q E]: every Python outcome of [m] from [s] satisfies [Q] when
    [m] returns and [E] when it raises. *)
Definition wp {A} (m : M A) (s : Store) (Q : A → Store → Prop)
    (E : exn → Store → Prop) : Prop :=
  match m s with
  | Ok a s' => Q a s'
  | Raise e s' => E e s'
  | Stuck => True
  end.

(** [twp m s Q E]: moreover [m] finds every object that it uses in [s]. *)
Definition twp {A} (m : M A) (s : Store) (Q : A → Store → Prop)
    (E : exn → Store → Prop) : Prop :=
  match m s with
  | Ok a s' => Q a s'
  | Raise e s' => E e s'
  | Stuck => False
  end.

(** Two arenas are related by [Q] when the objects of the first are still
    there in the second, each related by [Q] to what it was. *)
Definition list_rel {X} (Q : relation X) (l l' : list X) : Prop :=
  ∀ i x, l !! i = Some x → ∃ x', l' !! i = Some x' ∧ Q x x'.

(** What a frame lets a computation do to the objects of each class and to
    the trace state. *)
Record frame_spec : Type := {
  FN : relation RegisteredName;
  FC : relation CallEntry;
  FM : relation ModuleEntry;
  FT : relation TensorEntry;
  FX : relation ReturnnContext;
  FG : relation Naming
}.

Definition framed (F : frame_spec) (s s' : Store) : Prop :=
  list_rel (FN F) (st_names s) (st_names s') ∧
  list_rel (FC F) (st_calls s) (st_calls s') ∧
  list_rel (FM F) (st_modules s) (st_modules s') ∧
  list_rel (FT F) (st_tensors s) (st_tensors s') ∧
  list_rel (FX F) (st_ctxs s) (st_ctxs s') ∧
  FG F (st_naming s) (st_naming s').

Class FrameOK (F : frame_spec) : Prop := {
  FN_pre :: PreOrder (FN F);
  FC_pre :: PreOrder (FC F);
  FM_pre :: PreOrder (FM F);
  FT_pre :: PreOrder (FT F);
  FX_pre :: PreOrder (FX F);
  FG_pre :: PreOrder (FG F)
}.

(** [m] stays within the frame [F], whatever its outcome. *)
Definition frame {A} (F : frame_spec) (m : M A) : Prop :=
  ∀ s0 s, framed F s0 s → wp m s (λ _ s', framed F s0 s') (λ _ s', framed F s0 s').

(** Objects agree on an attribute. *)
Definition same {X Y} (π : X → Y) : relation X := λ x x', π x' = π x.
Definition any {X} : relation X := λ _ _, True.

(** ** A trace session *)

(** The collaborators of the examples: the unit 0 is compound (it has a
    torch forward), the other units are primitive; the unit 1 adds its
    inputs, the others copy; the engine accepts every layer. *)
Definition demo_ext : External :=
  {| has_torch_forward := λ m, bool_decide (m = 0);
     get_canonical_name := λ _ m _,
       if bool_decide (m = 0) then "net" else if bool_decide (m = 1) then "add" else "copy";
     overrides_create_returnn_layer_dict := λ m, negb (bool_decide (m = 0));
     pack_sequence_as := λ _ _ flat, Some (flat, []);
     forward := λ _ _, raise ExternalError;
     create_returnn_layer_dict := λ _ m _ _,
       if bool_decide (m = 1)
       then inl (PDict [("class", PStr "combine"); ("kind", PStr "add");
                        ("from", PList [PStr "data"; PStr "data:1"])])
       else inl (PDict [("class", PStr "copy"); ("from", PStr "add")]);
     construct_layer := λ _ _ _ _, None;
     check_returnn_layer := λ _ _ _, None;
     make_output_tensor_from_returnn := λ s _ _ _, 100 + length (st_tensors s);
     check_call_returnn_outputs := λ _ _ _, None |}.

(** The same, with an engine that refuses every layer. *)
Definition failing_ext : External :=
  {| has_torch_forward := has_torch_forward demo_ext;
     get_canonical_name := get_canonical_name demo_ext;
     overrides_create_returnn_layer_dict := overrides_create_returnn_layer_dict demo_ext;
     pack_sequence_as := pack_sequence_as demo_ext;
     forward := forward demo_ext;
     create_returnn_layer_dict := create_returnn_layer_dict demo_ext;
     construct_layer := λ _ _ _ _, Some ExternalError;
     check_returnn_layer := check_returnn_layer demo_ext;
     make_output_tensor_from_returnn := make_output_tensor_from_returnn demo_ext;
     check_call_returnn_outputs := check_call_returnn_outputs demo_ext |}.

Definition empty_store (wrap : bool) : Store :=
  {| st_names := []; st_calls := []; st_modules := []; st_tensors := []; st_ctxs := [];
     st_naming := {| nm_wrap_to_returnn_enabled := wrap;
                     nm_keep_orig_module_io_tensors := false;
                     nm_module_call_stack := []; nm_tensors := [] |} |}.

Definition store_after {A} (m : M A) (s : Store) : Store :=
  match m s with
  | Ok _ s' => s'
  | Raise _ s' => s'
  | Stuck => s
  end.

(** The root node 0, the units 0 and 1, the entries 0 and 1 of the tensors
    100 and 101, and the call 0 of unit 0. *)
Definition begin_session (wrap : bool) : M unit :=
  RegisteredName_init demo_ext 8 (Some wrap) None None None None false true;;
  alloc_module {| me_calls := []; me_names := [] |};;
  alloc_module {| me_calls := []; me_names := [] |};;
  tensor_entry 100;;
  tensor_entry 101;;
  CallEntry_init 0;;
  mret ().

(** A session with graph materialization, and one without. *)
Definition session_store : Store :=
  Eval vm_compute in store_after (begin_session true) (empty_store true).

Definition plain_store : Store :=
  Eval vm_compute in store_after (begin_session false) (empty_store false).

(** The two tensors are inputs of the root (nodes 1 and 2); the call 0 of
    the compound unit is registered as the sub-network [net] (node 3) with
    the same two inputs (nodes 4 and 5); in it, the call 1 of the
    primitive unit 1 is registered as [add] (node 6). *)
Definition net_session : M unit :=
  register_input demo_ext 8 0 0;;
  register_input demo_ext 8 0 1;;
  net ← register_sub_call demo_ext 8 0 0;
  register_input demo_ext 8 net 0;;
  register_input demo_ext 8 net 1;;
  c1 ← CallEntry_init 1;
  modify_call c1 (set_call_inputs (Some [Some 0; Some 1]) (Some []) (Some [Some 0; Some 1]));;
  register_sub_call demo_ext 8 net c1;;
  mret ().

Definition net_store : Store :=
  Eval vm_compute in store_after net_session session_store.

(** The call 1 has been applied: the layer [add] is constructed and the
    tensor entry 2 is its output. *)
Definition applied_store : Store :=
  Eval vm_compute in store_after (apply_call demo_ext 8 1) net_store.

(** A second call of the unit 1, the call 2. *)
Definition second_call : M CallId :=
  c2 ← CallEntry_init 1;
  modify_call c2 (set_call_inputs (Some [Some 0; Some 1]) (Some []) (Some [Some 0; Some 1]));;
  mret c2.

Definition second_call_store : Store :=
  Eval vm_compute in store_after second_call applied_store.

(** The call 2 is registered in [net], as the node 7. *)
Definition reuse_store : Store :=
  Eval vm_compute in store_after (register_sub_call demo_ext 8 3 2) second_call_store.

(** Four sub-networks are registered in [net]; the names [add], [data],
    [add] and [x] are suggested. *)
Definition named_store : Store :=
  Eval vm_compute in
    store_after (map_M (register_sub_net demo_ext 8 3) ["add"; "data"; "add"; "x"])
      applied_store.

(** The outputs of the call 0 are set. *)
Definition outputs_store : Store :=
  Eval vm_compute in store_after (set_outputs 0 (OutSeq [100])) session_store.

(** The call 0 is running. *)
Definition running_store : Store :=
  Eval vm_compute in store_after (push_call 0) applied_store.

(** The two inputs of the root and the sub-network [net] of the call 0,
    before anything is registered in [net]. *)
Definition sub_session : M unit :=
  register_input demo_ext 8 0 0;;
  register_input demo_ext 8 0 1;;
  register_sub_call demo_ext 8 0 0;;
  mret ().

Definition sub_store : Store :=
  Eval vm_compute in store_after sub_session session_store.

(** The output of [add] is registered as the output of [net], by the call
    2 of the new unit 2. *)
Definition output_store : Store :=
  Eval vm_compute in
    store_after (register_returnn_subnet_output demo_ext 8 3 2) running_store.

(** A second call of the compound unit 0, the call 2, and its binding to
    the sub-network [add_1] (node 7) of [net]. *)
Definition unbound_store : Store :=
  Eval vm_compute in store_after (CallEntry_init 0) named_store.

Definition bound_store : Store :=
  Eval vm_compute in store_after (assign_call demo_ext 8 7 2) unbound_store.

(** * Vocabulary of the properties *)

(** The frame of the call stack and of the unit of each call. *)
Definition stack_frame : frame_spec :=
  {| FN := any; FC := same ce_module; FM := any; FT := any; FX := any;
     FG := same nm_module_call_stack |}.

(** The [i]-th name that [_get_unique_name] tries. *)
Definition candidate (suggested_name : string) (i : nat) : string :=
  suggested_name +:+ ("_" +:+ pretty i).

(** The record of a child node, as [__init__] leaves it when no call is
    given. *)
Definition child_record (pr : RegisteredName) (p : NameId) (name : string)
    (tensor : option TensorId) (is_reserved is_subnet : bool) : RegisteredName :=
  {| rn_childs_by_name := []; rn_parent := Some p; rn_name := Some name;
     rn_level := rn_level pr + 1; rn_modules := []; rn_calls := [];
     rn_tensor := tensor; rn_returnn_ctx := None;
     rn_is_reserved := is_reserved; rn_is_subnet := is_subnet;
     rn_wrap_to_returnn_enabled := rn_wrap_to_returnn_enabled pr; rn_inputs := [] |}.

(** The store after [self] has got the child [name]. *)
Definition with_child (s : Store) (self : NameId) (r : RegisteredName) (name : string)
    (child_rec : RegisteredName) : Store :=
  with_names
    (<[self := set_childs_by_name (rn_childs_by_name r ++ [(name, length (st_names s))]) r]>
       (st_names s ++ [child_rec])) s.

(** The frames that let a unit be assigned to a node: the context and the
    units of the node may change, and so may the names of the unit. *)
Class ModuleFrame (F : frame_spec) : Prop := {
  mf_ok :: FrameOK F;
  mf_ctx : ∀ r v, FN F r (set_returnn_ctx v r);
  mf_modules : ∀ r v, FN F r (set_modules v r);
  mf_me_names : ∀ m v, FM F m (set_me_names v m)
}.

(** The frames that also let a call be bound: the calls of the node and
    the node of the call may change. *)
Class BindingFrame (F : frame_spec) : Prop := {
  bf_mf :: ModuleFrame F;
  bf_calls : ∀ r v, FN F r (set_calls v r);
  bf_namespace : ∀ c v, FC F c (set_namespace v c)
}.

(** The frame of the children and of the input slots of each node. *)
Definition childs_frame : frame_spec :=
  {| FN := same (λ r, (rn_childs_by_name r, rn_inputs r));
     FC := any; FM := any; FT := any; FX := any; FG := any |}.

(** The frame of the assignment of a unit: of a node, only the units and
    the context change; calls, tensors and the trace state stay. *)
Definition unit_frame : frame_spec :=
  {| FN := same (λ r, (rn_childs_by_name r, rn_inputs r, rn_calls r, rn_parent r,
                       rn_name r, rn_is_subnet r, rn_is_reserved r, rn_tensor r,
                       rn_wrap_to_returnn_enabled r, rn_level r));
     FC := eq; FM := same me_calls; FT := eq; FX := eq; FG := eq |}.

(** The scope [self] has got the new node [length (st_names s)] as its
    last child, under [name]; the older children are as they were. *)
Definition child_added (s s' : Store) (self : NameId) (name : string) : Prop :=
  ∃ r r', st_names s !! self = Some r ∧ st_names s' !! self = Some r' ∧
    rn_childs_by_name r' = rn_childs_by_name r ++ [(name, length (st_names s))] ∧
    is_Some (st_names s' !! length (st_names s)).

(** The child has at least one bound call. *)
Definition has_calls (s : Store) (child : NameId) : bool :=
  match st_names s !! child with
  | Some cr => negb (bool_decide (rn_calls cr = []))
  | None => false
  end.

(** Every child is registered under its own name. *)
Definition keyed_by_name (s : Store) (childs : list (string * NameId)) : Prop :=
  Forall (λ kc, rn_name <$> st_names s !! kc.2 = Some (Some kc.1)) childs.

(** The test of line 251 fails: there is no call, or the first call is of
    a unit with a torch forward. *)
Definition dumped_as_subnetwork (ext : External) (s : Store) (r : RegisteredName)
    : Prop :=
  match rn_calls r with
  | [] => True
  | call :: _ =>
      (λ ce, has_torch_forward ext (ce_module ce)) <$> st_calls s !! call = Some true
  end.

(** The frame of the recorded outputs of each call. *)
Definition outputs_frame : frame_spec :=
  {| FN := any; FC := same ce_outputs; FM := any; FT := any; FX := any; FG := any |}.

(** The name and the data key of the input slot of index [idx]. *)
Definition slot_name (idx : nat) : string :=
  if bool_decide (idx ≠ 0) then ReservedInputName +:+ (":" +:+ pretty idx)
  else ReservedInputName.

Definition slot_key (idx : nat) : option string :=
  if bool_decide (idx ≠ 0) then Some (pretty idx) else None.

(** The store after [register_input] has made the slot, before the
    context is told. *)
Definition with_slot (s : Store) (self : NameId) (r : RegisteredName)
    (tensor : TensorId) (te : TensorEntry) : Store :=
  let idx := length (rn_inputs r) in
  let slot := length (st_names s) in
  with_tensors
    (<[tensor := set_te_names (te_names te ++ [Some slot]) te]> (st_tensors s))
    (with_names
       (<[self := set_inputs (rn_inputs r ++ [slot])
                    (set_childs_by_name
                       (rn_childs_by_name r ++ [(slot_name idx, slot)]) r)]>
          (st_names s ++ [child_record r self (slot_name idx) (Some tensor) true false]))
       s).

(** What [register_input] has done to the scope [self], after it has been
    called for each of [tensors] in turn and has returned [slots]: the
    slots are new nodes; they are the last input slots and the last
    children of the scope, in this order, under the names [data],
    [data:1], ...; each is reserved and names its tensor; the other nodes
    are as before; and when the scope is wrapped to RETURNN, its context
    has got the tensors as inputs, the first without a data key when the
    scope had no input before. *)
Definition slots_registered (s : Store) (self : NameId) (r : RegisteredName)
    (tensors : list TensorId) (slots : list NameId) (s' : Store) : Prop :=
  let k := length (rn_inputs r) in
  let n := length tensors in
  slots = seq (length (st_names s)) n ∧
  (∃ r', st_names s' !! self = Some r' ∧
         rn_inputs r' = rn_inputs r ++ slots ∧
         rn_childs_by_name r' =
           rn_childs_by_name r ++ zip (slot_name <$> seq k n) slots) ∧
  (∀ i t, tensors !! i = Some t →
     ∃ sr, st_names s' !! (length (st_names s) + i) = Some sr ∧
           rn_name sr = Some (slot_name (k + i)) ∧ rn_is_reserved sr = true ∧
           rn_is_subnet sr = false ∧ rn_tensor sr = Some t ∧
           rn_parent sr = Some self) ∧
  (∀ m, m < length (st_names s) → m ≠ self → st_names s' !! m = st_names s !! m) ∧
  (if rn_wrap_to_returnn_enabled r then
     ∃ ctx c c', rn_returnn_ctx r = Some ctx ∧ st_ctxs s !! ctx = Some c ∧
                 st_ctxs s' !! ctx = Some c' ∧
                 ctx_inputs c' = ctx_inputs c ++ zip tensors (slot_key <$> seq k n)
   else st_ctxs s' = st_ctxs s).

(** The contexts that [s'] has and [s] has not are without layers. *)
Definition new_ctxs_empty (s s' : Store) : Prop :=
  ∀ i c, length (st_ctxs s) ≤ i → st_ctxs s' !! i = Some c → ctx_layers c = [].

(** Nothing is bound and no layer is constructed between [s] and [s']: the
    calls, the tensors, the trace state and the contexts of [s] are the
    same in [s']; a unit has the same calls; a node has the same calls,
    tensor, children and input slots (its context may have been created);
    a context that is new has no layer. *)
Definition nothing_bound (s s' : Store) : Prop :=
  framed unit_frame s s' ∧ new_ctxs_empty s s'.

(** The tensors of the flat inputs of a call, as line 86 reads them. *)
Definition read_inputs (s : Store) (flat : list (option TensorId))
    : option (list (option TensorVal)) :=
  mapM (λ x : option TensorId,
          match x with
          | Some t => Some <$> (te_tensor <$> st_tensors s !! t)
          | None => Some None
          end) flat.

(** [apply_call] on the call [self] of a primitive unit gets to the test
    of line 110 in the store [s1]: the call is bound to a node that has a
    parent, its inputs are read and packed, the unit has its own
    [create_returnn_layer_dict], the context of the parent is there or is
    created, the unit describes itself, and the network of the parent has
    no layer of the name of the node. *)
Definition reaches_reuse_check (ext : External) (frames : nat) (s : Store)
    (self : CallId) (s1 : Store) : Prop :=
  ∃ ce namespace flat inputs_flat inputs_args inputs_kwargs ns parent_namespace
    layer_dict ns1 pr returnn_net net,
    st_calls s !! self = Some ce ∧
    ce_namespace ce = Some namespace ∧
    ce_inputs_flat ce = Some flat ∧
    read_inputs s flat = Some inputs_flat ∧
    pack_sequence_as ext (ce_inputs_args ce) (ce_inputs_kwargs ce) inputs_flat
      = Some (inputs_args, inputs_kwargs) ∧
    overrides_create_returnn_layer_dict ext (ce_module ce) = true ∧
    st_names s !! namespace = Some ns ∧
    rn_parent ns = Some parent_namespace ∧
    maybe_create_returnn_ctx frames parent_namespace s = Ok () s1 ∧
    create_returnn_layer_dict ext s1 (ce_module ce) inputs_args inputs_kwargs
      = inl layer_dict ∧
    st_names s1 !! namespace = Some ns1 ∧
    st_names s1 !! parent_namespace = Some pr ∧
    rn_returnn_ctx pr = Some returnn_net ∧
    st_ctxs s1 !! returnn_net = Some net ∧
    match rn_name ns1 with
    | Some n => dict_contains n (ctx_layers net) = false
    | None => True
    end.

Definition call_stack (s : Store) : list CallId := nm_module_call_stack (st_naming s).

(** The frame of the links of a call: its unit and its node stay. *)
Definition link_frame : frame_spec :=
  {| FN := eq; FC := same (λ ce, (ce_module ce, ce_namespace ce));
     FM := eq; FT := eq; FX := eq; FG := eq |}.

(** The frame of a change of the call stack alone. *)
Definition stack_frame_pop : frame_spec :=
  {| FN := eq; FC := eq; FM := eq; FT := eq; FX := eq; FG := any |}.

(** The parent of every node is a node of the store. *)
Definition parents_ok (s : Store) : Prop :=
  Forall (λ r, match rn_parent r with
               | Some p => p < length (st_names s)
               | None => True
               end) (st_names s).

(** Every node that has a parent is younger than the parent and has a
    name. *)
Definition named_tree (s : Store) : Prop :=
  ∀ n r, st_names s !! n = Some r →
    match rn_parent r with
    | Some p => p < n ∧ is_Some (rn_name r)
    | None => True
    end.

(** [p] is the [parent_call] of the call [c]. *)
Definition parent_call_of (s : Store) (c p : CallId) : Prop :=
  ∃ ce, st_calls s !! c = Some ce ∧ ce_parent_call ce = Some p.

(** From [s] to [s'] contexts have been created and nothing more: the
    nodes differ in [returnn_ctx] at most, the contexts of [s] are kept, the
    new ones follow them, and the rest of the store is the same. *)
Definition ctx_only (s s' : Store) : Prop :=
  Forall2 (λ r r', r' = set_returnn_ctx (rn_returnn_ctx r') r) (st_names s) (st_names s') ∧
  st_calls s' = st_calls s ∧ st_modules s' = st_modules s ∧
  st_tensors s' = st_tensors s ∧ (∃ new, st_ctxs s' = st_ctxs s ++ new) ∧
  st_naming s' = st_naming s.

(** Every parent is older than its children. *)
Definition parents_older (s : Store) : Prop :=
  ∀ n r p, st_names s !! n = Some r → rn_parent r = Some p → p < n.

(** The contexts mirror the tree: the context of a node has the name of
    the node, and its parent is the context of the parent of the node, or
    [None] for a node without parent. *)
Definition ctx_tree_ok (s : Store) : Prop :=
  ∀ n r c, st_names s !! n = Some r → rn_returnn_ctx r = Some c →
    ∃ cx, st_ctxs s !! c = Some cx ∧ ctx_name cx = rn_name r ∧
      match rn_parent r with
      | Some p =>
          ∃ pr pc, st_names s !! p = Some pr ∧ rn_returnn_ctx pr = Some pc ∧
                   ctx_parent cx = Some pc
      | None => ctx_parent cx = None
      end.

(** The store after [assign_module] has linked the node [self] and the
    unit [m]. *)
Definition with_module (s : Store) (self : NameId) (r : RegisteredName) (m : ModId)
    (me : ModuleEntry) : Store :=
  with_modules (<[m := set_me_names (me_names me ++ [self]) me]> (st_modules s))
    (with_names (<[self := set_modules (rn_modules r ++ [m]) r]> (st_names s)) s).

(** The effect of an [assign_module] that links [self] and [m]: the unit
    is new and of the kind of the node, a primitive node had no unit, and
    contexts are created at most after the link. *)
Definition module_assigned (ext : External) (self : NameId) (m : ModId)
    (s s' : Store) : Prop :=
  ∃ r me, st_names s !! self = Some r ∧ st_modules s !! m = Some me ∧
    ¬ (m ∈ rn_modules r) ∧ has_torch_forward ext m = rn_is_subnet r ∧
    (rn_is_subnet r = false → rn_modules r = []) ∧
    ctx_only (with_module s self r m me) s'.

(** The store after [assign_call] has bound the call to the node [self]. *)
Definition with_call (s : Store) (self : NameId) (r : RegisteredName) (call : CallId)
    (ce : CallEntry) : Store :=
  with_names (<[self := set_calls (rn_calls r ++ [call]) r]> (st_names s))
    (with_calls (<[call := set_namespace (Some self) ce]> (st_calls s)) s).

(** The effect of an [assign_call] that binds: the call had no node, its
    unit is linked to the node before if it was not, and the call is added
    to the node. *)
Definition call_bound (ext : External) (self : NameId) (call : CallId)
    (s s' : Store) : Prop :=
  ∃ ce s1 r1, st_calls s !! call = Some ce ∧ ce_namespace ce = None ∧
    (s1 = s ∨ module_assigned ext self (ce_module ce) s s1) ∧
    st_names s1 !! self = Some r1 ∧ ¬ (call ∈ rn_calls r1) ∧
    ce_module ce ∈ rn_modules r1 ∧
    has_torch_forward ext (ce_module ce) = rn_is_subnet r1 ∧
    (rn_is_subnet r1 = false → rn_calls r1 = []) ∧
    s' = with_call s1 self r1 call ce.

(** The units of a node are of the kind of the node; the calls of a node
    point back to it and are calls of its units; a primitive node has one
    unit and one call at most. *)
Definition kinds_ok (ext : External) (s : Store) : Prop :=
  ∀ n r, st_names s !! n = Some r →
    (∀ m, m ∈ rn_modules r → has_torch_forward ext m = rn_is_subnet r) ∧
    (∀ c, c ∈ rn_calls r →
       ∃ ce, st_calls s !! c = Some ce ∧ ce_namespace ce = Some n ∧
             ce_module ce ∈ rn_modules r) ∧
    (rn_is_subnet r = false → length (rn_modules r) ≤ 1 ∧ length (rn_calls r) ≤ 1).

(** The tensor of a node lists the node among its names. *)
Definition tensor_links_ok (s : Store) : Prop :=
  ∀ n r t, st_names s !! n = Some r → rn_tensor r = Some t →
    ∃ te, st_tensors s !! t = Some te ∧ Some n ∈ te_names te.

(** The tree of the nodes: a child is younger than its parent and has a
    name that is not empty; a primitive node has no child and no input; the
    keys of [childs_by_name] are distinct; every child is in the store,
    under its own name, with the node as parent; the inputs are children. *)
Definition tree_ok (s : Store) : Prop :=
  ∀ n r, st_names s !! n = Some r →
    (∀ p, rn_parent r = Some p → p < n ∧ truthy (rn_name r) = true) ∧
    (rn_is_subnet r = false → rn_childs_by_name r = [] ∧ rn_inputs r = []) ∧
    NoDup (rn_childs_by_name r).*1 ∧
    (∀ k c, (k, c) ∈ rn_childs_by_name r →
       ∃ cr, st_names s !! c = Some cr ∧ rn_name cr = Some k ∧ rn_parent cr = Some n) ∧
    (∀ i, i ∈ rn_inputs r → i ∈ (rn_childs_by_name r).*2).

(** The stores have the same tree: the same nodes with the same
    children, parent, name, kind and inputs. *)
Definition same_tree (s s' : Store) : Prop :=
  Forall2 (λ r r', rn_childs_by_name r' = rn_childs_by_name r ∧
                   rn_parent r' = rn_parent r ∧ rn_name r' = rn_name r ∧
                   rn_is_subnet r' = rn_is_subnet r ∧ rn_inputs r' = rn_inputs r)
    (st_names s) (st_names s').

(** The first step of [register_sub_call]: a child of the kind of the
    unit of the call is registered under the free name [name]. *)
Definition sub_call_registered (ext : External) (self : NameId) (call : CallId)
    (s s1 : Store) (name : string) : Prop :=
  ∃ r ce, st_names s !! self = Some r ∧ rn_is_subnet r = true ∧
    st_calls s !! call = Some ce ∧
    name_free (rn_childs_by_name r) name = true ∧ name ≠ "" ∧
    s1 = with_child s self r name
           (child_record r self name None false (has_torch_forward ext (ce_module ce))).

(** The frame of the tree and of the unit of each call. *)
Definition tree_frame : frame_spec :=
  {| FN := same (λ r, (rn_childs_by_name r, rn_inputs r, rn_parent r, rn_name r,
                       rn_is_subnet r, rn_is_reserved r));
     FC := same ce_module; FM := any; FT := any; FX := any; FG := any |}.

(** The calls are the same, and every tensor keeps the calls and units
    that it is an output of. *)
Definition refs_grow (s s' : Store) : Prop :=
  st_calls s' = st_calls s ∧
  ∀ x te, st_tensors s !! x = Some te →
    ∃ te', st_tensors s' !! x = Some te' ∧
      (∀ c, c ∈ te_output_from_calls te → c ∈ te_output_from_calls te') ∧
      (∀ m, m ∈ te_output_from_modules te → m ∈ te_output_from_modules te').

(** The tensor [x] refers back to the call and to its unit. *)
Definition has_back_refs (s : Store) (call : CallId) (module : ModId) (x : TensorId) : Prop :=
  ∃ te, st_tensors s !! x = Some te ∧ call ∈ te_output_from_calls te ∧
        module ∈ te_output_from_modules te.

(** The frame of what the dump of a primitive node reads. *)
Definition dump_frame : frame_spec :=
  {| FN := same (λ r, (rn_calls r, rn_name r, rn_parent r, rn_returnn_ctx r));
     FC := same (λ c, (ce_module c, ce_returnn_layer_dict c));
     FM := any; FT := any; FX := any; FG := any |}.


(** The scope [p] knows the tensor [t] as [name]: the first of the names
    of the tensor whose parent is [p] is the child that [p] holds under
    [name], its own name. *)
Definition known_as (s : Store) (p : NameId) (t : TensorId) (name : string) : Prop :=
  ∃ pr te i n nr,
    st_names s !! p = Some pr ∧ rn_is_subnet pr = true ∧
    st_tensors s !! t = Some te ∧ te_names te !! i = Some (Some n) ∧
    st_names s !! n = Some nr ∧ rn_parent nr = Some p ∧ rn_name nr = Some name ∧
    dict_get name (rn_childs_by_name pr) = Some n ∧
    ∀ j, j < i → ∃ n' nr', te_names te !! j = Some (Some n') ∧
      st_names s !! n' = Some nr' ∧ rn_parent nr' ≠ Some p.

(** The input slot [slot] of the node [r] holds a tensor that the parent
    scope of the node knows as [name]. *)
Definition input_known_as (s : Store) (r : RegisteredName) (slot : NameId)
    (name : string) : Prop :=
  ∃ ir t p, st_names s !! slot = Some ir ∧ rn_tensor ir = Some t ∧
    rn_parent r = Some p ∧ known_as s p t name.

(** Every input slot of a node that has a parent holds a tensor that the
    parent scope knows by a name. *)
Definition inputs_known (s : Store) : Prop :=
  ∀ n r slot, st_names s !! n = Some r → is_Some (rn_parent r) →
    slot ∈ rn_inputs r → ∃ name, input_known_as s r slot name.

(** The nested-scope node of the spec: it refers to the single input
    directly, to several inputs by the list of their names with
    ["concat_sources": False], and holds the mapping of the children under
    ["subnetwork"]. *)
Definition subnetwork_node (inputs : list string) (subnet_dict : list (string * pyval))
    : pyval :=
  match inputs with
  | [] => PDict [("class", PStr "subnetwork"); ("from", PList []);
                 ("subnetwork", PDict subnet_dict)]
  | [input] => PDict [("class", PStr "subnetwork"); ("from", PStr input);
                      ("subnetwork", PDict subnet_dict)]
  | _ => PDict [("class", PStr "subnetwork"); ("from", PList (PStr <$> inputs));
                ("subnetwork", PDict subnet_dict); ("concat_sources", PBool false)]
  end.

(** The mapping [d] has exactly one entry for each of the children that
    has a call, in their order, under the name of the child, with a value
    that [D] relates to the child; no key occurs twice. *)
Definition entries_of (s : Store) (D : NameId → pyval → Prop)
    (childs : list (string * NameId)) (d : list (string * pyval)) : Prop :=
  Forall2 (λ kc kv, kv.1 = kc.1 ∧ rn_name <$> st_names s !! kc.2 = Some (Some kv.1) ∧
                    D kc.2 kv.2)
    (filter (λ kc, has_calls s kc.2 = true) childs) d ∧
  NoDup d.*1.

(** The description of a node, in the words of the spec: a node with a
    call of a primitive unit is described by the layer description of that
    call, its only one; any other node by the nested-scope node of the
    names of its inputs in the parent scope and of the mapping of its
    children, each described in the same way. *)
#[local] Unset Elimination Schemes.
Inductive described (ext : External) (s : Store) : NameId → pyval → Prop :=
| described_primitive node r call ce :
    st_names s !! node = Some r → rn_calls r = [call] →
    st_calls s !! call = Some ce → has_torch_forward ext (ce_module ce) = false →
    described ext s node (default PNone (ce_returnn_layer_dict ce))
| described_subnetwork node r inputs subnet_dict :
    st_names s !! node = Some r → dumped_as_subnetwork ext s r →
    Forall2 (input_known_as s r) (rn_inputs r) inputs →
    entries_of s (described ext s) (rn_childs_by_name r) subnet_dict →
    described ext s node (subnetwork_node inputs subnet_dict).
#[local] Set Elimination Schemes.

(** The nested mapping of the children of [self]. *)
Definition net_described (ext : External) (s : Store) (self : NameId)
    (d : list (string * pyval)) : Prop :=
  ∃ r, st_names s !! self = Some r ∧
       entries_of s (described ext s) (rn_childs_by_name r) d.

(** The context of every node is in the store. *)
Definition ctxs_valid (s : Store) : Prop :=
  ∀ n r c, st_names s !! n = Some r → rn_returnn_ctx r = Some c →
    is_Some (st_ctxs s !! c).

(** The tensor entries of the registry are in the store. *)
Definition registry_ok (s : Store) : Prop :=
  ∀ x t, assoc_get x (nm_tensors (st_naming s)) = Some t → is_Some (st_tensors s !! t).

(** The node [n] is in the store, and so is its context when it has one. *)
Definition node_ctx_valid (s : Store) (n : NameId) : Prop :=
  ∃ r, st_names s !! n = Some r ∧
    ∀ c, rn_returnn_ctx r = Some c → is_Some (st_ctxs s !! c).

(** The frame of the context of each node. *)
Definition ctx_frame : frame_spec :=
  {| FN := same rn_returnn_ctx; FC := any; FM := any; FT := any; FX := any; FG := any |}.

(** The store after the top of the call stack is popped. *)
Definition popped (s : Store) : Store :=
  with_naming (set_stack (removelast (call_stack s)) (st_naming s)) s.

(** What lines 195-215 of [register_returnn_subnet_output] ask of the
    store: the scope is a sub-network that knows the tensor under a name;
    the child of that name has exactly one call that the tensor is an
    output of, [call]; the tensor that the scope holds so far, if any,
    lists it; the scope has no child [output] yet; and the copy unit, the
    next unit of the store, is primitive. *)
Definition output_ready (ext : External) (s : Store) (self : NameId)
    (tensor : TensorId) (call : CallId) : Prop :=
  ∃ r name_ producer pr te,
    st_names s !! self = Some r ∧ rn_is_subnet r = true ∧
    nm_wrap_to_returnn_enabled (st_naming s) = true ∧
    known_as s self tensor name_ ∧
    dict_get name_ (rn_childs_by_name r) = Some producer ∧
    st_names s !! producer = Some pr ∧ st_tensors s !! tensor = Some te ∧
    remove_dups (filter (λ c, c ∈ rn_calls pr) (te_output_from_calls te)) = [call] ∧
    is_Some (st_calls s !! call) ∧
    match rn_tensor r with
    | Some old => ∃ te_old, st_tensors s !! old = Some te_old ∧
                            Some self ∈ te_names te_old
    | None => True
    end ∧
    dict_contains ReservedOutputName (rn_childs_by_name r) = false ∧
    has_torch_forward ext (length (st_modules s)) = false.

(** In [s1] the new call [copy_call] is on top of the call stack of [s]:
    it is the call of the new node [child], the child [output] of the
    scope; its input is the tensor, and its parent is [call]. *)
Definition copy_call_pushed (s s1 : Store) (self : NameId) (tensor : TensorId)
    (call : CallId) (child : NameId) (copy_call : CallId) : Prop :=
  st_names s !! child = None ∧ st_calls s !! copy_call = None ∧
  call_stack s1 = call_stack s ++ [copy_call] ∧
  (∃ cr, st_names s1 !! child = Some cr ∧ rn_name cr = Some ReservedOutputName ∧
         rn_parent cr = Some self ∧ rn_calls cr = [copy_call]) ∧
  (∃ ce, st_calls s1 !! copy_call = Some ce ∧ ce_namespace ce = Some child ∧
         ce_parent_call ce = Some call ∧ ce_inputs_flat ce = Some [Some tensor]).

(** * Properties *)

(** ** The calculus of outcomes *)

Lemma wp_ret {A} (a : A) s Q E : Q a s → wp (mret a) s Q E.
Proof. done. Qed.

Lemma wp_bind {A B} (m : M A) (f : A → M B) s Q E :
  wp m s (λ a s', wp (f a) s' Q E) E → wp (m ≫= f) s Q E.
Proof.
  unfold wp. change ((m ≫= f) s) with (M_bind f m s).
  unfold M_bind. by destruct (m s).
Qed.

Lemma wp_raise {A} e s (Q : A → Store → Prop) E : E e s → wp (raise e) s Q E.
Proof. done. Qed.

Lemma wp_stuck {A} s (Q : A → Store → Prop) E : wp stuck s Q E.
Proof. done. Qed.

Lemma wp_assert b s Q E :
  (b = true → Q () s) → (b = false → E AssertionError s) → wp (assert b) s Q E.
Proof. destruct b; cbn; auto. Qed.

Lemma wp_mono {A} (m : M A) s (Q Q' : A → Store → Prop) (E E' : exn → Store → Prop) :
  wp m s Q E → (∀ a s', Q a s' → Q' a s') → (∀ e s', E e s' → E' e s') →
  wp m s Q' E'.
Proof. unfold wp. destruct (m s); auto. Qed.

Lemma wp_ok {A} (m : M A) s Q E a s' : wp m s Q E → m s = Ok a s' → Q a s'.
Proof. unfold wp. intros H Heq. by rewrite Heq in H. Qed.

Lemma wp_raised {A} (m : M A) s Q E e s' : wp m s Q E → m s = Raise e s' → E e s'.
Proof. unfold wp. intros H Heq. by rewrite Heq in H. Qed.

Lemma wp_get_store s Q E : Q s s → wp get_store s Q E.
Proof. done. Qed.

Lemma wp_get_naming s Q E : Q (st_naming s) s → wp get_naming s Q E.
Proof. done. Qed.

Lemma wp_modify_naming f s Q E :
  Q () (with_naming (f (st_naming s)) s) → wp (modify_naming f) s Q E.
Proof. done. Qed.

Lemma wp_get_name n s Q E :
  (∀ r, st_names s !! n = Some r → Q r s) → wp (get_name n) s Q E.
Proof. unfold wp, get_name. destruct (st_names s !! n); auto. Qed.

Lemma wp_modify_name n f s Q E :
  (∀ r, st_names s !! n = Some r → Q () (with_names (<[n := f r]> (st_names s)) s)) →
  wp (modify_name n f) s Q E.
Proof. unfold wp, modify_name. destruct (st_names s !! n); auto. Qed.

Lemma wp_alloc_name r s Q E :
  Q (length (st_names s)) (with_names (st_names s ++ [r]) s) → wp (alloc_name r) s Q E.
Proof. done. Qed.

Lemma wp_get_call n s Q E :
  (∀ r, st_calls s !! n = Some r → Q r s) → wp (get_call n) s Q E.
Proof. unfold wp, get_call. destruct (st_calls s !! n); auto. Qed.

Lemma wp_modify_call n f s Q E :
  (∀ r, st_calls s !! n = Some r → Q () (with_calls (<[n := f r]> (st_calls s)) s)) →
  wp (modify_call n f) s Q E.
Proof. unfold wp, modify_call. destruct (st_calls s !! n); auto. Qed.

Lemma wp_alloc_call r s Q E :
  Q (length (st_calls s)) (with_calls (st_calls s ++ [r]) s) → wp (alloc_call r) s Q E.
Proof. done. Qed.

Lemma wp_get_module n s Q E :
  (∀ r, st_modules s !! n = Some r → Q r s) → wp (get_module n) s Q E.
Proof. unfold wp, get_module. destruct (st_modules s !! n); auto. Qed.

Lemma wp_modify_module n f s Q E :
  (∀ r, st_modules s !! n = Some r → Q () (with_modules (<[n := f r]> (st_modules s)) s)) →
  wp (modify_module n f) s Q E.
Proof. unfold wp, modify_module. destruct (st_modules s !! n); auto. Qed.

Lemma wp_alloc_module r s Q E :
  Q (length (st_modules s)) (with_modules (st_modules s ++ [r]) s) →
  wp (alloc_module r) s Q E.
Proof. done. Qed.

Lemma wp_get_tensor n s Q E :
  (∀ r, st_tensors s !! n = Some r → Q r s) → wp (get_tensor n) s Q E.
Proof. unfold wp, get_tensor. destruct (st_tensors s !! n); auto. Qed.

Lemma wp_modify_tensor n f s Q E :
  (∀ r, st_tensors s !! n = Some r → Q () (with_tensors (<[n := f r]> (st_tensors s)) s)) →
  wp (modify_tensor n f) s Q E.
Proof. unfold wp, modify_tensor. destruct (st_tensors s !! n); auto. Qed.

Lemma wp_alloc_tensor r s Q E :
  Q (length (st_tensors s)) (with_tensors (st_tensors s ++ [r]) s) →
  wp (alloc_tensor r) s Q E.
Proof. done. Qed.

Lemma wp_get_ctx n s Q E :
  (∀ r, st_ctxs s !! n = Some r → Q r s) → wp (get_ctx n) s Q E.
Proof. unfold wp, get_ctx. destruct (st_ctxs s !! n); auto. Qed.

Lemma wp_modify_ctx n f s Q E :
  (∀ r, st_ctxs s !! n = Some r → Q () (with_ctxs (<[n := f r]> (st_ctxs s)) s)) →
  wp (modify_ctx n f) s Q E.
Proof. unfold wp, modify_ctx. destruct (st_ctxs s !! n); auto. Qed.

Lemma wp_alloc_ctx r s Q E :
  Q (length (st_ctxs s)) (with_ctxs (st_ctxs s ++ [r]) s) → wp (alloc_ctx r) s Q E.
Proof. done. Qed.

Lemma wp_lift_pres {A} (f : Store → pres A) s Q E :
  (∀ a, f s = Val a → Q a s) → (∀ e, f s = Exc e → E e s) → wp (lift_pres f) s Q E.
Proof. unfold wp, lift_pres. destruct (f s); auto. Qed.

Lemma wp_try_finally {A} (body : M A) fin s Q E :
  wp body s (λ a s', wp fin s' (λ _ s'', Q a s'') E)
            (λ e s', wp fin s' (λ _ s'', E e s'') E) →
  wp (try_finally body fin) s Q E.
Proof.
  unfold wp, try_finally. destruct (body s) as [a s'|e s'|]; [| |done].
  - by destruct (fin s').
  - by destruct (fin s').
Qed.

(** A loop keeps an invariant of the store. *)
Lemma wp_for_each {A} (I : Store → Prop) (l : list A) (f : A → M unit) s Q E :
  I s →
  (∀ x s, x ∈ l → I s → wp (f x) s (λ _ s', I s') E) →
  (∀ s', I s' → Q () s') →
  wp (for_each l f) s Q E.
Proof.
  revert s. induction l as [|x l IH]; intros s HI Hf HQ; cbn.
  - by apply wp_ret, HQ.
  - apply wp_bind. eapply wp_mono; [apply (Hf x s); [left|done]| |done].
    intros ? s' HI'. cbn in HI'. apply IH; [done| |done].
    intros y s1 Hy. apply Hf. by right.
Qed.

Lemma wp_map_M {A B} (I : Store → Prop) (l : list A) (f : A → M B) s Q E :
  I s →
  (∀ x s, x ∈ l → I s → wp (f x) s (λ _ s', I s') E) →
  (∀ ys s', I s' → length ys = length l → Q ys s') →
  wp (map_M f l) s Q E.
Proof.
  revert s Q. induction l as [|x l IH]; intros s Q HI Hf HQ; cbn.
  - by apply wp_ret, HQ.
  - apply wp_bind. eapply wp_mono; [apply (Hf x s); [left|done]| |done].
    intros y s' HI'. cbn in HI'. apply wp_bind. apply IH; [done| |].
    + intros z s1 Hz. apply Hf. by right.
    + intros ys s1 HI1 Hlen. apply wp_ret, HQ; [done|]. cbn. by rewrite Hlen.
Qed.

(** The same calculus for [twp]: an object that is read or written has to
    be in the store. *)
Lemma twp_wp {A} (m : M A) s Q E : twp m s Q E → wp m s Q E.
Proof. unfold twp, wp. by destruct (m s). Qed.

Lemma twp_intro {A} (m : M A) s Q E : wp m s Q E → m s ≠ Stuck → twp m s Q E.
Proof. unfold twp, wp. by destruct (m s). Qed.

Lemma twp_not_stuck {A} (m : M A) s Q E : twp m s Q E → m s ≠ Stuck.
Proof. unfold twp. by destruct (m s). Qed.

Lemma twp_ret {A} (a : A) s Q E : Q a s → twp (mret a) s Q E.
Proof. done. Qed.

Lemma twp_bind {A B} (m : M A) (f : A → M B) s Q E :
  twp m s (λ a s', twp (f a) s' Q E) E → twp (m ≫= f) s Q E.
Proof.
  unfold twp. change ((m ≫= f) s) with (M_bind f m s).
  unfold M_bind. by destruct (m s).
Qed.

Lemma twp_raise {A} e s (Q : A → Store → Prop) E : E e s → twp (raise e) s Q E.
Proof. done. Qed.

Lemma twp_assert b s Q E :
  (b = true → Q () s) → (b = false → E AssertionError s) → twp (assert b) s Q E.
Proof. destruct b; cbn; auto. Qed.

Lemma twp_mono {A} (m : M A) s (Q Q' : A → Store → Prop) (E E' : exn → Store → Prop) :
  twp m s Q E → (∀ a s', Q a s' → Q' a s') → (∀ e s', E e s' → E' e s') →
  twp m s Q' E'.
Proof. unfold twp. destruct (m s); auto. Qed.

Lemma twp_get_store s Q E : Q s s → twp get_store s Q E.
Proof. done. Qed.

Lemma twp_get_naming s Q E : Q (st_naming s) s → twp get_naming s Q E.
Proof. done. Qed.

Lemma twp_modify_naming f s Q E :
  Q () (with_naming (f (st_naming s)) s) → twp (modify_naming f) s Q E.
Proof. done. Qed.

Lemma twp_get_name n r s Q E :
  st_names s !! n = Some r → Q r s → twp (get_name n) s Q E.
Proof. unfold twp, get_name. by intros ->. Qed.

Lemma twp_modify_name n f r s Q E :
  st_names s !! n = Some r →
  Q () (with_names (<[n := f r]> (st_names s)) s) → twp (modify_name n f) s Q E.
Proof. unfold twp, modify_name. by intros ->. Qed.

Lemma twp_alloc_name r s Q E :
  Q (length (st_names s)) (with_names (st_names s ++ [r]) s) → twp (alloc_name r) s Q E.
Proof. done. Qed.

Lemma twp_get_call n r s Q E :
  st_calls s !! n = Some r → Q r s → twp (get_call n) s Q E.
Proof. unfold twp, get_call. by intros ->. Qed.

Lemma twp_modify_call n f r s Q E :
  st_calls s !! n = Some r →
  Q () (with_calls (<[n := f r]> (st_calls s)) s) → twp (modify_call n f) s Q E.
Proof. unfold twp, modify_call. by intros ->. Qed.

Lemma twp_alloc_call r s Q E :
  Q (length (st_calls s)) (with_calls (st_calls s ++ [r]) s) → twp (alloc_call r) s Q E.
Proof. done. Qed.

Lemma twp_get_module n r s Q E :
  st_modules s !! n = Some r → Q r s → twp (get_module n) s Q E.
Proof. unfold twp, get_module. by intros ->. Qed.

Lemma twp_modify_module n f r s Q E :
  st_modules s !! n = Some r →
  Q () (with_modules (<[n := f r]> (st_modules s)) s) → twp (modify_module n f) s Q E.
Proof. unfold twp, modify_module. by intros ->. Qed.

Lemma twp_alloc_module r s Q E :
  Q (length (st_modules s)) (with_modules (st_modules s ++ [r]) s) →
  twp (alloc_module r) s Q E.
Proof. done. Qed.

Lemma twp_get_tensor n r s Q E :
  st_tensors s !! n = Some r → Q r s → twp (get_tensor n) s Q E.
Proof. unfold twp, get_tensor. by intros ->. Qed.

Lemma twp_modify_tensor n f r s Q E :
  st_tensors s !! n = Some r →
  Q () (with_tensors (<[n := f r]> (st_tensors s)) s) → twp (modify_tensor n f) s Q E.
Proof. unfold twp, modify_tensor. by intros ->. Qed.

Lemma twp_alloc_tensor r s Q E :
  Q (length (st_tensors s)) (with_tensors (st_tensors s ++ [r]) s) →
  twp (alloc_tensor r) s Q E.
Proof. done. Qed.

Lemma twp_get_ctx n r s Q E :
  st_ctxs s !! n = Some r → Q r s → twp (get_ctx n) s Q E.
Proof. unfold twp, get_ctx. by intros ->. Qed.

Lemma twp_modify_ctx n f r s Q E :
  st_ctxs s !! n = Some r →
  Q () (with_ctxs (<[n := f r]> (st_ctxs s)) s) → twp (modify_ctx n f) s Q E.
Proof. unfold twp, modify_ctx. by intros ->. Qed.

Lemma twp_alloc_ctx r s Q E :
  Q (length (st_ctxs s)) (with_ctxs (st_ctxs s ++ [r]) s) → twp (alloc_ctx r) s Q E.
Proof. done. Qed.

(** ** Frames *)

Lemma list_rel_insert {X} (Q : relation X) `{!PreOrder Q} (l : list X) i x y :
  l !! i = Some x → Q x y → list_rel Q l (<[i := y]> l).
Proof.
  intros Hi HQ j z Hj. destruct (decide (i = j)) as [->|Hne].
  - exists y. split.
    + apply list_lookup_insert_eq. by eapply lookup_lt_Some.
    + by simplify_eq.
  - exists z. by rewrite list_lookup_insert_ne.
Qed.

Lemma list_rel_app {X} (Q : relation X) `{!PreOrder Q} (l k : list X) :
  list_rel Q l (l ++ k).
Proof. intros j z Hj. exists z. split; [by apply lookup_app_l_Some|done]. Qed.

#[global] Instance list_rel_preorder {X} (Q : relation X) `{!PreOrder Q} :
  PreOrder (list_rel Q).
Proof.
  split.
  - intros l i x Hx. by exists x.
  - intros l1 l2 l3 H12 H23 i x Hx.
    destruct (H12 i x Hx) as (y & Hy & Hxy).
    destruct (H23 i y Hy) as (z & Hz & Hyz).
    exists z. split; [done|by etrans].
Qed.

#[global] Instance same_preorder {X Y} (π : X → Y) : PreOrder (same π).
Proof. split; unfold same; [done|]. intros x y z H1 H2. congruence. Qed.

#[global] Instance any_preorder {X} : PreOrder (@any X).
Proof. by split. Qed.

Section Frames.

Context (F : frame_spec) `{!FrameOK F}.

#[global] Instance framed_preorder : PreOrder (framed F).
Proof.
  split.
  - intros s. by repeat split.
  - intros s1 s2 s3 (?&?&?&?&?&?) (?&?&?&?&?&?).
    repeat split; by etrans.
Qed.

Lemma wp_frame {A} (m : M A) s0 s Q E :
  frame F m → framed F s0 s →
  (∀ a s', framed F s0 s' → Q a s') → (∀ e s', framed F s0 s' → E e s') →
  wp m s Q E.
Proof. intros Hm Hs HQ HE. eapply wp_mono; [by apply Hm|done..]. Qed.

Lemma frame_ret {A} (a : A) : frame F (mret a).
Proof. by intros s0 s Hs. Qed.

Lemma frame_raise {A} e : frame F (@raise A e).
Proof. by intros s0 s Hs. Qed.

Lemma frame_stuck {A} : frame F (@stuck A).
Proof. by intros s0 s Hs. Qed.

Lemma frame_bind {A B} (m : M A) (f : A → M B) :
  frame F m → (∀ a, frame F (f a)) → frame F (m ≫= f).
Proof.
  intros Hm Hf s0 s Hs. apply wp_bind.
  eapply wp_mono; [by apply Hm| |done].
  intros a s' Hs'. by apply Hf.
Qed.

Lemma frame_assert b : frame F (assert b).
Proof. intros s0 s Hs. by destruct b. Qed.

Lemma frame_raise_if e : frame F (raise_if e).
Proof. intros s0 s Hs. by destruct e. Qed.

Lemma frame_attr_of {A} (o : option A) : frame F (attr_of o).
Proof. intros s0 s Hs. by destruct o. Qed.

Lemma frame_lookup_key {V} k (d : list (string * V)) : frame F (lookup_key k d).
Proof. intros s0 s Hs. unfold lookup_key. by destruct (dict_get k d). Qed.

Lemma frame_lift_pres {A} (f : Store → pres A) : frame F (lift_pres f).
Proof. intros s0 s Hs. by apply wp_lift_pres. Qed.

Lemma frame_get_store : frame F get_store.
Proof. by intros s0 s Hs. Qed.

Lemma frame_get_naming : frame F get_naming.
Proof. by intros s0 s Hs. Qed.

Lemma frame_get_name n : frame F (get_name n).
Proof. intros s0 s Hs. by apply wp_get_name. Qed.

Lemma frame_get_call n : frame F (get_call n).
Proof. intros s0 s Hs. by apply wp_get_call. Qed.

Lemma frame_get_module n : frame F (get_module n).
Proof. intros s0 s Hs. by apply wp_get_module. Qed.

Lemma frame_get_tensor n : frame F (get_tensor n).
Proof. intros s0 s Hs. by apply wp_get_tensor. Qed.

Lemma frame_get_ctx n : frame F (get_ctx n).
Proof. intros s0 s Hs. by apply wp_get_ctx. Qed.

Lemma frame_modify_naming f :
  (∀ nm, FG F nm (f nm)) → frame F (modify_naming f).
Proof.
  intros Hf s0 s Hs. apply wp_modify_naming. etrans; [done|].
  repeat split; cbn; try done; apply Hf.
Qed.

Lemma frame_modify_name n f :
  (∀ r, FN F r (f r)) → frame F (modify_name n f).
Proof.
  intros Hf s0 s Hs. apply wp_modify_name. intros r Hr. etrans; [done|].
  repeat split; cbn; try done. eapply list_rel_insert; [apply _|done|apply Hf].
Qed.

Lemma frame_modify_call n f :
  (∀ r, FC F r (f r)) → frame F (modify_call n f).
Proof.
  intros Hf s0 s Hs. apply wp_modify_call. intros r Hr. etrans; [done|].
  repeat split; cbn; try done. eapply list_rel_insert; [apply _|done|apply Hf].
Qed.

Lemma frame_modify_module n f :
  (∀ r, FM F r (f r)) → frame F (modify_module n f).
Proof.
  intros Hf s0 s Hs. apply wp_modify_module. intros r Hr. etrans; [done|].
  repeat split; cbn; try done. eapply list_rel_insert; [apply _|done|apply Hf].
Qed.

Lemma frame_modify_tensor n f :
  (∀ r, FT F r (f r)) → frame F (modify_tensor n f).
Proof.
  intros Hf s0 s Hs. apply wp_modify_tensor. intros r Hr. etrans; [done|].
  repeat split; cbn; try done. eapply list_rel_insert; [apply _|done|apply Hf].
Qed.

Lemma frame_modify_ctx n f :
  (∀ r, FX F r (f r)) → frame F (modify_ctx n f).
Proof.
  intros Hf s0 s Hs. apply wp_modify_ctx. intros r Hr. etrans; [done|].
  repeat split; cbn; try done. eapply list_rel_insert; [apply _|done|apply Hf].
Qed.

Lemma frame_alloc_name r : frame F (alloc_name r).
Proof.
  intros s0 s Hs. apply wp_alloc_name. etrans; [done|].
  repeat split; cbn; try done. apply list_rel_app, _.
Qed.

Lemma frame_alloc_call r : frame F (alloc_call r).
Proof.
  intros s0 s Hs. apply wp_alloc_call. etrans; [done|].
  repeat split; cbn; try done. apply list_rel_app, _.
Qed.

Lemma frame_alloc_module r : frame F (alloc_module r).
Proof.
  intros s0 s Hs. apply wp_alloc_module. etrans; [done|].
  repeat split; cbn; try done. apply list_rel_app, _.
Qed.

Lemma frame_alloc_tensor r : frame F (alloc_tensor r).
Proof.
  intros s0 s Hs. apply wp_alloc_tensor. etrans; [done|].
  repeat split; cbn; try done. apply list_rel_app, _.
Qed.

Lemma frame_alloc_ctx r : frame F (alloc_ctx r).
Proof.
  intros s0 s Hs. apply wp_alloc_ctx. etrans; [done|].
  repeat split; cbn; try done. apply list_rel_app, _.
Qed.

Lemma frame_for_each {A} (l : list A) (f : A → M unit) :
  (∀ x, frame F (f x)) → frame F (for_each l f).
Proof.
  intros Hf. induction l as [|x l IH]; cbn.
  - apply frame_ret.
  - apply frame_bind; [apply Hf|done].
Qed.

Lemma frame_map_M {A B} (l : list A) (f : A → M B) :
  (∀ x, frame F (f x)) → frame F (map_M f l).
Proof.
  intros Hf. induction l as [|x l IH]; cbn.
  - apply frame_ret.
  - apply frame_bind; [apply Hf|]. intros y.
    apply frame_bind; [done|]. intros ys. apply frame_ret.
Qed.

Lemma frame_try_finally {A} (body : M A) fin :
  frame F body → frame F fin → frame F (try_finally body fin).
Proof.
  intros Hb Hf s0 s Hs. apply wp_try_finally.
  eapply wp_mono; [by apply Hb|..]; intros ? s' Hs'; cbn; by apply Hf.
Qed.

End Frames.

(** The steps that show that a method stays within a frame. *)
Ltac frame_side :=
  lazymatch goal with
  | |- FrameOK _ => apply _
  | |- _ => intros ?; cbn; unfold any, same; done
  end.

Ltac frame_step :=
  lazymatch goal with
  | |- frame _ (mret _) => apply frame_ret
  | |- frame _ (_ ≫= _) => apply frame_bind; [|intros ?]
  | |- frame _ (raise _) => apply frame_raise
  | |- frame _ stuck => apply frame_stuck
  | |- frame _ (assert _) => apply frame_assert
  | |- frame _ (raise_if _) => apply frame_raise_if
  | |- frame _ (attr_of _) => apply frame_attr_of
  | |- frame _ (lookup_key _ _) => apply frame_lookup_key
  | |- frame _ (lift_pres _) => apply frame_lift_pres
  | |- frame _ get_store => apply frame_get_store
  | |- frame _ get_naming => apply frame_get_naming
  | |- frame _ (get_name _) => apply frame_get_name
  | |- frame _ (get_call _) => apply frame_get_call
  | |- frame _ (get_module _) => apply frame_get_module
  | |- frame _ (get_tensor _) => apply frame_get_tensor
  | |- frame _ (get_ctx _) => apply frame_get_ctx
  | |- frame _ (modify_naming _) => apply frame_modify_naming; frame_side
  | |- frame _ (modify_name _ _) => apply frame_modify_name; frame_side
  | |- frame _ (modify_call _ _) => apply frame_modify_call; frame_side
  | |- frame _ (modify_module _ _) => apply frame_modify_module; frame_side
  | |- frame _ (modify_tensor _ _) => apply frame_modify_tensor; frame_side
  | |- frame _ (modify_ctx _ _) => apply frame_modify_ctx; frame_side
  | |- frame _ (alloc_name _) => apply frame_alloc_name; frame_side
  | |- frame _ (alloc_call _) => apply frame_alloc_call; frame_side
  | |- frame _ (alloc_module _) => apply frame_alloc_module; frame_side
  | |- frame _ (alloc_tensor _) => apply frame_alloc_tensor; frame_side
  | |- frame _ (alloc_ctx _) => apply frame_alloc_ctx; frame_side
  | |- frame _ (for_each _ _) => apply frame_for_each; intros ?
  | |- frame _ (map_M _ _) => apply frame_map_M; intros ?
  | |- frame _ (try_finally _ _) => apply frame_try_finally
  | |- frame _ (if ?b then _ else _) => destruct b
  | |- frame _ (match ?x with _ => _ end) => destruct x
  | |- frame _ (let '(_, _) := ?x in _) => destruct x
  end.

Ltac frame_steps := repeat (frame_step; try done).

#[global] Instance stack_frame_ok : FrameOK stack_frame.
Proof. split; apply _. Qed.

Lemma frame_assign_tensor_stack self tensor :
  frame stack_frame (assign_tensor self tensor).
Proof. unfold assign_tensor. frame_steps. Qed.

(** ** Unique names *)

Lemma name_free_true childs name :
  name_free childs name = true ↔ ¬ (name ∈ childs.*1) ∧ ¬ (name ∈ ReservedNames).
Proof.
  unfold name_free, dict_contains, reserved.
  rewrite andb_true_iff, !negb_true_iff, !bool_decide_eq_false. done.
Qed.

Lemma name_free_false childs name :
  name_free childs name = false ↔ name ∈ (childs.*1 ++ ReservedNames)%list.
Proof.
  rewrite <-not_true_iff_false, name_free_true, elem_of_app.
  destruct (decide (name ∈ childs.*1)), (decide (name ∈ ReservedNames)); tauto.
Qed.

#[global] Instance candidate_inj suggested_name : Inj eq eq (candidate suggested_name).
Proof.
  intros i j Hij. unfold candidate in Hij.
  apply (inj (String.append _)) in Hij. apply (inj (String.append _)) in Hij.
  by apply (inj pretty) in Hij.
Qed.

Lemma unique_name_from_first n childs suggested i name :
  unique_name_from n childs suggested i = Some name →
  ∃ j, i ≤ j < i + n ∧ name = candidate suggested j ∧ name_free childs name = true ∧
       ∀ k, i ≤ k < j → name_free childs (candidate suggested k) = false.
Proof.
  revert i. induction n as [|n IH]; intros i; cbn; [done|].
  fold (candidate suggested i).
  destruct (name_free childs (candidate suggested i)) eqn:Hfree.
  - intros [= <-]. exists i. split_and!; [lia|lia|done|done|lia].
  - intros (j & Hj & -> & Hfree' & Hleast)%IH. exists j.
    split_and!; [lia|lia|done|done|].
    intros k Hk. destruct (decide (k = i)) as [->|]; [done|]. apply Hleast. lia.
Qed.

Lemma unique_name_from_none n childs suggested i :
  unique_name_from n childs suggested i = None →
  ∀ k, i ≤ k < i + n → name_free childs (candidate suggested k) = false.
Proof.
  revert i. induction n as [|n IH]; intros i; cbn; [lia|].
  fold (candidate suggested i).
  destruct (name_free childs (candidate suggested i)) eqn:Hfree; [done|].
  intros Hnone k Hk. destruct (decide (k = i)) as [->|]; [done|].
  apply (IH (S i)); [done|lia].
Qed.

(** The search of [_get_unique_name] ends: the names tried are pairwise
    different, and there are more of them than names that are taken. *)
Lemma unique_name_from_total childs suggested :
  is_Some (unique_name_from (S (length childs + length ReservedNames)) childs suggested 1).
Proof.
  destruct (unique_name_from _ childs suggested 1) eqn:Hsearch; [done|exfalso].
  pose proof (unique_name_from_none _ _ _ _ Hsearch) as Htaken.
  set (n := S (length childs + length ReservedNames)) in *.
  set (tried := candidate suggested <$> seq 1 n).
  assert (tried ⊆+ (childs.*1 ++ ReservedNames)%list) as Hsub.
  { apply NoDup_submseteq.
    - apply (NoDup_fmap_2 _), NoDup_seq.
    - intros name (k & -> & Hk%elem_of_seq)%list_elem_of_fmap.
      apply name_free_false, Htaken. lia. }
  apply submseteq_length in Hsub.
  unfold tried in Hsub.
  rewrite length_fmap, length_seq, length_app, length_fmap in Hsub.
  unfold n in Hsub. lia.
Qed.

Lemma unique_name_spec childs suggested :
  ∃ name, unique_name childs suggested = Some name ∧
    name_free childs name = true ∧
    (name_free childs suggested = true → name = suggested) ∧
    (name_free childs suggested = false →
     ∃ i : nat, (1 ≤ i)%nat ∧ name = candidate suggested i ∧
          ∀ k : nat, (1 ≤ k < i)%nat → name_free childs (candidate suggested k) = false).
Proof.
  unfold unique_name. destruct (name_free childs suggested) eqn:Hfree.
  - exists suggested. by split_and!.
  - destruct (unique_name_from_total childs suggested) as [name Hname].
    exists name. split; [done|].
    apply unique_name_from_first in Hname as (j & Hj & -> & Hfree' & Hleast).
    split_and!; [done|done|]. intros _. exists j. split_and!; [lia|done|done].
Qed.

(** ** Arenas *)

Lemma lookup_snoc_new {X} (l : list X) x : (l ++ [x]) !! length l = Some x.
Proof. by rewrite list_lookup_middle. Qed.

Lemma lookup_snoc_old {X} (l : list X) x i a :
  l !! i = Some a → (l ++ [x]) !! i = Some a.
Proof. apply lookup_app_l_Some. Qed.

Lemma insert_snoc_new {X} (l : list X) x y : <[length l := y]> (l ++ [x]) = l ++ [y].
Proof. rewrite insert_app_r_alt by lia. by rewrite Nat.sub_diag. Qed.

Lemma insert_snoc_old {X} (l : list X) x i y :
  i < length l → <[i := y]> (l ++ [x]) = <[i := y]> l ++ [x].
Proof. intros Hi. by rewrite insert_app_l. Qed.

(** One step of a method on an explicit store. *)
Ltac store_simpl :=
  unfold with_names, with_calls, with_modules, with_tensors, with_ctxs, with_naming;
  cbn [st_names st_calls st_modules st_tensors st_ctxs st_naming].

Ltac wp_step :=
  lazymatch goal with
  | |- wp (mret _) _ _ _ => apply wp_ret
  | |- wp (_ ≫= _) _ _ _ => apply wp_bind
  | |- wp (raise _) _ _ _ => apply wp_raise
  | |- wp stuck _ _ _ => apply wp_stuck
  | |- wp get_store _ _ _ => apply wp_get_store
  | |- wp get_naming _ _ _ => apply wp_get_naming
  | |- wp (modify_naming _) _ _ _ => apply wp_modify_naming
  | |- wp (alloc_name _) _ _ _ => apply wp_alloc_name
  | |- wp (alloc_call _) _ _ _ => apply wp_alloc_call
  | |- wp (alloc_module _) _ _ _ => apply wp_alloc_module
  | |- wp (alloc_tensor _) _ _ _ => apply wp_alloc_tensor
  | |- wp (alloc_ctx _) _ _ _ => apply wp_alloc_ctx
  | |- wp (attr_of _) _ _ _ => progress cbn [attr_of]
  | |- wp (raise_if _) _ _ _ => progress cbn [raise_if]
  end; store_simpl.

Ltac twp_step :=
  lazymatch goal with
  | |- twp (mret _) _ _ _ => apply twp_ret
  | |- twp (_ ≫= _) _ _ _ => apply twp_bind
  | |- twp (raise _) _ _ _ => apply twp_raise
  | |- twp get_store _ _ _ => apply twp_get_store
  | |- twp get_naming _ _ _ => apply twp_get_naming
  | |- twp (modify_naming _) _ _ _ => apply twp_modify_naming
  | |- twp (alloc_name _) _ _ _ => apply twp_alloc_name
  | |- twp (alloc_call _) _ _ _ => apply twp_alloc_call
  | |- twp (alloc_module _) _ _ _ => apply twp_alloc_module
  | |- twp (alloc_tensor _) _ _ _ => apply twp_alloc_tensor
  | |- twp (alloc_ctx _) _ _ _ => apply twp_alloc_ctx
  | |- twp (attr_of _) _ _ _ => progress cbn [attr_of]
  | |- twp (raise_if _) _ _ _ => progress cbn [raise_if]
  end; store_simpl.

Ltac wp_steps := repeat first [wp_step | twp_step].

(** A lookup in an arena that has grown by one object. *)
Ltac snoc_lookup H :=
  first
    [ rewrite lookup_snoc_new in H; injection H as <-
    | erewrite lookup_snoc_old in H by eassumption; injection H as <- ].

(** ** Construction of a child node *)

Section Init.

Context (ext : External).

(** [__init__] with a parent and without a call: the assertions on the
    name, then one new node, which the tensor, if any, lists as a name. *)
Lemma wp_RegisteredName_init_child frames p name tensor is_reserved is_subnet s
    (Q : NameId → Store → Prop) (E : exn → Store → Prop) :
  (name = "" ∨ (is_reserved = false ∧ name ∈ ReservedNames) → E AssertionError s) →
  (∀ pr, st_names s !! p = Some pr → name ≠ "" →
         (is_reserved = false → name ∉ ReservedNames) →
         let self := length (st_names s) in
         let names' :=
           st_names s ++ [child_record pr p name tensor is_reserved is_subnet] in
         match tensor with
         | None => Q self (with_names names' s)
         | Some t =>
             ∀ te, st_tensors s !! t = Some te →
                   Q self (with_tensors
                             (<[t := set_te_names (te_names te ++ [Some self]) te]>
                                (st_tensors s))
                             (with_names names' s))
         end) →
  wp (RegisteredName_init ext frames None (Some p) (Some name) None tensor
        is_reserved is_subnet) s Q E.
Proof.
  intros HE HQ. unfold RegisteredName_init.
  wp_steps. apply wp_assert; intros Hname.
  2:{ apply HE. left. unfold truthy in Hname.
      by apply negb_false_iff, bool_decide_eq_true in Hname. }
  wp_steps. apply wp_assert; [intros _|done].
  wp_steps. apply wp_get_name; intros pr Hpr. wp_steps.
  assert (name ≠ "") as Hne.
  { unfold truthy in Hname. by apply negb_true_iff, bool_decide_eq_false in Hname. }
  assert (wp (if is_reserved then mret ()
              else assert (negb (reserved name))) s
            (λ _ s', s' = s ∧ (is_reserved = false → name ∉ ReservedNames))
            (λ e s', s' = s ∧ e = AssertionError ∧ is_reserved = false ∧
                     name ∈ ReservedNames)) as Hres.
  { destruct is_reserved; [by apply wp_ret|].
    apply wp_assert; unfold reserved.
    - intros Hr%negb_true_iff%bool_decide_eq_false. done.
    - intros Hr%negb_false_iff%bool_decide_eq_true. done. }
  eapply wp_mono; [exact Hres| |]; cbn beta.
  2:{ intros e s' (-> & -> & ? & ?). apply HE. by right. }
  intros _ s' [-> Hreserved].
  specialize (HQ pr Hpr Hne Hreserved). cbn in HQ.
  wp_steps. apply wp_get_name; store_simpl; intros pr' Hpr'. snoc_lookup Hpr'.
  apply wp_modify_name; store_simpl; intros r Hr. snoc_lookup Hr.
  rewrite insert_snoc_new. wp_steps.
  destruct tensor as [t|].
  - unfold assign_tensor.
    wp_steps. apply wp_get_name; store_simpl; intros r Hr. snoc_lookup Hr.
    cbn [rn_tensor set_level]. wp_steps.
    apply wp_modify_name; store_simpl; intros r Hr. snoc_lookup Hr.
    rewrite insert_snoc_new.
    apply wp_modify_tensor; store_simpl; intros te Hte.
    wp_steps. specialize (HQ te Hte). unfold child_record in HQ.
    destruct (rn_wrap_to_returnn_enabled pr); by wp_steps.
  - wp_steps. unfold child_record in HQ.
    destruct (rn_wrap_to_returnn_enabled pr); by wp_steps.
Qed.

End Init.

(** ** Dictionaries *)

Lemma dict_set_fresh {V} k (v : V) d : k ∉ d.*1 → dict_set k v d = d ++ [(k, v)].
Proof.
  induction d as [|[k' v'] d IH]; cbn; [done|].
  intros Hk. apply not_elem_of_cons in Hk as [Hne Hk].
  rewrite decide_False by done. by rewrite IH.
Qed.

Lemma dict_set_keys {V} k (v : V) d :
  (dict_set k v d).*1 = if bool_decide (k ∈ d.*1) then d.*1 else d.*1 ++ [k].
Proof.
  induction d as [|[k' v'] d IH]; cbn; [done|].
  destruct (decide (k' = k)) as [->|Hne]; cbn.
  - rewrite bool_decide_eq_true_2; [done|left].
  - rewrite IH. destruct (decide (k ∈ d.*1)).
    + rewrite !bool_decide_eq_true_2; [done|by right|done].
    + rewrite !bool_decide_eq_false_2; [done| |done].
      intros [?|?]%elem_of_cons; congruence.
Qed.

Lemma dict_set_NoDup {V} k (v : V) d : NoDup d.*1 → NoDup (dict_set k v d).*1.
Proof.
  intros Hd. rewrite dict_set_keys. case_bool_decide; [done|].
  apply NoDup_app. split_and!; [done| |apply NoDup_singleton].
  intros x Hx ->%list_elem_of_singleton. done.
Qed.

Lemma dict_get_Some {V} k (v : V) d : dict_get k d = Some v → (k, v) ∈ d.
Proof.
  induction d as [|[k' v'] d IH]; cbn; [done|].
  destruct (decide (k' = k)) as [->|Hne].
  - intros [= ->]. left.
  - intros ?%IH. by right.
Qed.

Lemma dict_get_None {V} k (d : list (string * V)) : dict_get k d = None ↔ k ∉ d.*1.
Proof.
  induction d as [|[k' v'] d IH]; cbn.
  - split; [intros _ ?%elem_of_nil; done|done].
  - destruct (decide (k' = k)) as [->|Hne].
    + split; [done|]. intros []. left.
    + rewrite IH, not_elem_of_cons. split; [done|by intros [_ ?]].
Qed.

(** ** Registration of a sub-network *)

Section Register.

Context (ext : External).

Lemma wp_get_unique_name self suggested s (Q : string → Store → Prop) E :
  (∀ r name, st_names s !! self = Some r →
             unique_name (rn_childs_by_name r) suggested = Some name →
             name_free (rn_childs_by_name r) name = true → Q name s) →
  wp (_get_unique_name self suggested) s Q E.
Proof.
  intros HQ. unfold _get_unique_name. wp_steps.
  apply wp_get_name; intros r Hr.
  destruct (unique_name_spec (rn_childs_by_name r) suggested)
    as (name & Hname & Hfree & _).
  rewrite Hname. wp_steps. by eapply HQ.
Qed.

Lemma wp_register_sub_net frames self suggested s (Q : NameId → Store → Prop) E :
  (∀ r, st_names s !! self = Some r → E AssertionError s) →
  (∀ r name, st_names s !! self = Some r → rn_is_subnet r = true →
             unique_name (rn_childs_by_name r) suggested = Some name →
             name_free (rn_childs_by_name r) name = true → name ≠ "" →
             Q (length (st_names s))
               (with_child s self r name (child_record r self name None false true))) →
  wp (register_sub_net ext frames self suggested) s Q E.
Proof.
  intros HE HQ. unfold register_sub_net. wp_steps.
  apply wp_get_name; intros r Hr. wp_steps.
  apply wp_assert; intros Hsub; [|by eapply HE]. wp_steps.
  apply wp_get_unique_name; intros r' name Hr' Hname Hfree. simplify_eq. wp_steps.
  apply wp_RegisteredName_init_child; [intros _; by eapply HE|].
  intros pr Hpr Hne Hres. simplify_eq. cbn zeta. wp_steps.
  apply wp_modify_name; store_simpl; intros r' Hr'. snoc_lookup Hr'. wp_steps.
  apply name_free_true in Hfree as Hfree'. destruct Hfree' as [Hfresh _].
  rewrite dict_set_fresh by done. by apply HQ.
Qed.

End Register.

Section UniqueNames.

Context (ext : External).

Lemma with_child_lookup s self r name child_rec :
  st_names s !! self = Some r →
  st_names (with_child s self r name child_rec) !! self =
    Some (set_childs_by_name (rn_childs_by_name r ++ [(name, length (st_names s))]) r).
Proof.
  intros Hr. unfold with_child. store_simpl.
  apply list_lookup_insert_eq. rewrite length_app. apply lookup_lt_Some in Hr. lia.
Qed.

Lemma register_sub_nets_names frames self suggestions : ∀ s r,
  st_names s !! self = Some r →
  wp (map_M (register_sub_net ext frames self) suggestions) s
    (λ childs s', ∃ names r',
       length names = length suggestions ∧ length childs = length suggestions ∧
       st_names s' !! self = Some r' ∧
       rn_childs_by_name r' = rn_childs_by_name r ++ zip names childs ∧
       NoDup names ∧
       Forall (λ n, ¬ (n ∈ ReservedNames) ∧ ¬ (n ∈ (rn_childs_by_name r).*1)) names)
    (λ _ _, True).
Proof.
  induction suggestions as [|suggested suggestions IH]; intros s r Hr; cbn [map_M].
  - wp_steps. exists [], r. rewrite app_nil_r. split_and!; try done; constructor.
  - wp_steps. apply wp_register_sub_net; [done|].
    intros r0 name Hr0 Hsub Hname Hfree Hne. simplify_eq. wp_steps.
    eapply wp_mono; [eapply IH, with_child_lookup, Hr| |done].
    cbn beta. intros childs s' (names & r' & Hlen & Hlen' & Hr' & Hchilds & Hnd & Hall).
    wp_steps. cbn [rn_childs_by_name set_childs_by_name] in *.
    apply name_free_true in Hfree as [Hfresh Hres].
    exists (name :: names), r'. cbn [length zip zip_with].
    split_and!; [by f_equal|by f_equal|done| | |].
    + by rewrite Hchilds, <-app_assoc.
    + constructor; [|done]. intros Hin.
      rewrite Forall_forall in Hall. destruct (Hall _ Hin) as [_ Hnot].
      apply Hnot. rewrite fmap_app. apply elem_of_app. right. cbn. left.
    + constructor; [done|]. eapply Forall_impl; [exact Hall|].
      cbn beta. intros n [? Hn]. split; [done|]. intros Hin. apply Hn.
      rewrite fmap_app. apply elem_of_app. by left.
Qed.

(** C6.  [_get_unique_name] always returns: the suggested name when it is
    neither the name of a child nor reserved, and else the first of
    [suggested_1], [suggested_2], ... that is neither.  The names given to
    the children by repeated [register_sub_net] calls at one scope (each is
    [_get_unique_name] followed by the registration of the name) are
    pairwise different, not reserved and not the name of an older child,
    and the older entries of [childs_by_name] are all kept. *)
Theorem get_unique_name_allocates frames (s : Store) (self : NameId) (r : RegisteredName) :
  st_names s !! self = Some r →
  (∀ suggested, ∃ name,
     _get_unique_name self suggested s = Ok name s ∧
     name_free (rn_childs_by_name r) name = true ∧
     (name_free (rn_childs_by_name r) suggested = true → name = suggested) ∧
     (name_free (rn_childs_by_name r) suggested = false →
      ∃ i : nat, 1 ≤ i ∧ name = candidate suggested i ∧
        ∀ k : nat, 1 ≤ k < i →
          name_free (rn_childs_by_name r) (candidate suggested k) = false)) ∧
  (∀ suggestions childs s',
     map_M (register_sub_net ext frames self) suggestions s = Ok childs s' →
     ∃ names r',
       length names = length suggestions ∧ length childs = length suggestions ∧
       st_names s' !! self = Some r' ∧
       rn_childs_by_name r' = rn_childs_by_name r ++ zip names childs ∧
       NoDup names ∧
       Forall (λ n, ¬ (n ∈ ReservedNames) ∧ ¬ (n ∈ (rn_childs_by_name r).*1)) names).
Proof.
  intros Hr. split.
  - intros suggested.
    destruct (unique_name_spec (rn_childs_by_name r) suggested)
      as (name & Hname & Hfree & Hsame & Hfirst).
    exists name. split_and!; try done.
    unfold _get_unique_name.
    change ((get_name self ≫= ?f) s) with (M_bind f (get_name self) s).
    unfold M_bind, get_name. rewrite Hr. by rewrite Hname.
  - intros suggestions childs s' Hrun.
    by apply (wp_ok _ _ _ _ _ _ (register_sub_nets_names frames self suggestions s r Hr) Hrun).
Qed.

End UniqueNames.

(** ** Binding a call to a node *)

Ltac binding_side :=
  lazymatch goal with
  | |- FrameOK _ => apply _
  | |- _ =>
      intros ?;
      first [ apply mf_ctx | apply mf_modules | apply mf_me_names
            | apply bf_calls | apply bf_namespace
            | cbn; unfold any, same; done ]
  end.

Ltac binding_step :=
  lazymatch goal with
  | |- frame _ (modify_name _ _) => apply frame_modify_name; binding_side
  | |- frame _ (modify_call _ _) => apply frame_modify_call; binding_side
  | |- frame _ (modify_module _ _) => apply frame_modify_module; binding_side
  | |- _ => frame_step
  end.

Section AssignModule.

Context (ext : External) (F : frame_spec) `{!ModuleFrame F}.

Lemma frame_maybe_create_returnn_ctx frames self :
  frame F (maybe_create_returnn_ctx frames self).
Proof.
  revert self. induction frames as [|frames IH]; intros self; cbn [maybe_create_returnn_ctx].
  - apply frame_raise.
  - unfold ReturnnContext_new. repeat (binding_step; try done).
Qed.

Lemma frame_assign_module frames self module :
  frame F (assign_module ext frames self module).
Proof.
  unfold assign_module.
  repeat (binding_step; try done); apply frame_maybe_create_returnn_ctx.
Qed.

(** [assign_call], from the assignment of the unit on: either the call is
    bound already and nothing happens, or the unit is assigned, the kinds
    of the node and of the unit agree, the call is not bound yet, and the
    call and the node are linked. *)
Lemma wp_assign_call frames self call s (Q : () → Store → Prop) E :
  (∀ r, st_names s !! self = Some r → call ∈ rn_calls r → Q () s) →
  (∀ r ce s2 r2 ce2,
     st_names s !! self = Some r → call ∉ rn_calls r →
     st_calls s !! call = Some ce → framed F s s2 →
     st_names s2 !! self = Some r2 → st_calls s2 !! call = Some ce2 →
     (if rn_is_subnet r2 then has_torch_forward ext (ce_module ce) = true
      else rn_calls r2 = [] ∧ has_torch_forward ext (ce_module ce) = false) →
     ce_namespace ce2 = None →
     Q () (with_names (<[self := set_calls (rn_calls r2 ++ [call]) r2]> (st_names s2))
             (with_calls (<[call := set_namespace (Some self) ce2]> (st_calls s2)) s2))) →
  (∀ e s2, framed F s s2 → E e s2) →
  wp (assign_call ext frames self call) s Q E.
Proof.
  intros Hbound HQ HE. unfold assign_call. wp_steps.
  apply wp_get_name; intros r Hr. case_bool_decide as Hin.
  { wp_steps. by eapply Hbound. }
  wp_steps. apply wp_get_call; intros ce Hce. wp_steps.
  eapply wp_frame; [apply frame_assign_module|reflexivity| |exact HE].
  intros _ s2 Hs2. wp_steps. apply wp_get_name; intros r2 Hr2. wp_steps.
  assert (wp (if rn_is_subnet r2 then assert (has_torch_forward ext (ce_module ce))
              else (assert (bool_decide (rn_calls r2 = []));;
                    assert (negb (has_torch_forward ext (ce_module ce))))) s2
            (λ _ s', s' = s2 ∧
               if rn_is_subnet r2 then has_torch_forward ext (ce_module ce) = true
               else rn_calls r2 = [] ∧ has_torch_forward ext (ce_module ce) = false)
            (λ _ s', s' = s2)) as Hkind.
  { destruct (rn_is_subnet r2).
    - by apply wp_assert.
    - wp_steps. apply wp_assert; [intros Hc%bool_decide_eq_true|done]. wp_steps.
      apply wp_assert; [intros Hf%negb_true_iff|done]. done. }
  eapply wp_mono; [exact Hkind| |]; cbn beta.
  2:{ intros e s' ->. by apply HE. }
  intros _ s' [-> Hk]. wp_steps. apply wp_get_call; intros ce2 Hce2. wp_steps.
  apply wp_assert; [|intros _; by apply HE].
  intros Hns%negb_true_iff%bool_decide_eq_false. wp_steps.
  apply wp_modify_call; store_simpl; intros ce2' Hce2'. simplify_eq. wp_steps.
  apply wp_modify_name; store_simpl; intros r2' Hr2'. simplify_eq.
  eapply HQ; try done. destruct (ce_namespace ce2); [|done]. by destruct Hns.
Qed.

End AssignModule.

Section Binding.

Context (ext : External) (F : frame_spec) `{!BindingFrame F}.

Lemma frame_assign_call frames self call :
  frame F (assign_call ext frames self call).
Proof.
  unfold assign_call.
  repeat (first [apply frame_assign_module; apply _ | binding_step]; try done).
Qed.

End Binding.

#[global] Instance childs_frame_ok : FrameOK childs_frame.
Proof. split; apply _. Qed.

#[global] Instance childs_frame_module : ModuleFrame childs_frame.
Proof. split; try apply _; by intros. Qed.

#[global] Instance childs_frame_binding : BindingFrame childs_frame.
Proof. split; try apply _; by intros. Qed.

#[global] Instance stack_frame_module : ModuleFrame stack_frame.
Proof. split; try apply _; by intros. Qed.

#[global] Instance stack_frame_binding : BindingFrame stack_frame.
Proof. split; try apply _; by intros. Qed.

#[global] Instance unit_frame_ok : FrameOK unit_frame.
Proof. split; apply _. Qed.

#[global] Instance unit_frame_module : ModuleFrame unit_frame.
Proof. split; try apply _; by intros. Qed.

(** ** Registration of a call *)

Section RegisterSubCall.

Context (ext : External).

Lemma with_child_lookup_child s self r name child_rec :
  st_names s !! self = Some r →
  st_names (with_child s self r name child_rec) !! length (st_names s) = Some child_rec.
Proof.
  intros Hr. unfold with_child. store_simpl.
  apply lookup_lt_Some in Hr as Hlt.
  rewrite list_lookup_insert_ne by lia. apply lookup_snoc_new.
Qed.

Lemma wp_register_sub_call frames self call s r ce name :
  st_names s !! self = Some r → st_calls s !! call = Some ce →
  unique_name (rn_childs_by_name r) (get_canonical_name ext s (ce_module ce) self)
    = Some name →
  wp (register_sub_call ext frames self call) s
    (λ child s', ∃ cr,
       child = length (st_names s) ∧ child_added s s' self name ∧
       st_names s' !! child = Some cr ∧ rn_calls cr = [call] ∧
       rn_name cr = Some name ∧ rn_parent cr = Some self ∧
       rn_is_subnet cr = has_torch_forward ext (ce_module ce))
    (λ e s', (e = AssertionError ∧ s' = s ∧ (rn_is_subnet r = false ∨ name = "")) ∨
             child_added s s' self name).
Proof.
  intros Hr Hce Hname. unfold register_sub_call. wp_steps.
  apply wp_get_name; intros r' Hr'. simplify_eq. wp_steps.
  apply wp_assert; intros Hsub; [|left; by auto]. wp_steps.
  apply wp_get_call; intros ce' Hce'. simplify_eq. wp_steps.
  apply wp_get_unique_name; intros r' name' Hr' Hname' Hfree. simplify_eq. wp_steps.
  apply name_free_true in Hfree as Hfree'. destruct Hfree' as [Hfresh Hnres].
  apply wp_RegisteredName_init_child.
  { intros [->|[_ ?]]; [left; by auto|done]. }
  intros pr Hpr Hne Hres. simplify_eq. cbn zeta. wp_steps.
  apply wp_modify_name; store_simpl; intros r' Hr'. snoc_lookup Hr'. wp_steps.
  rewrite dict_set_fresh by done.
  set (child_rec := child_record r self name None false _).
  change {| st_names := _; st_calls := _; st_modules := _; st_tensors := _;
            st_ctxs := _; st_naming := _ |}
    with (with_child s self r name child_rec).
  pose proof (with_child_lookup s self r name child_rec Hr) as Hself1.
  pose proof (with_child_lookup_child s self r name child_rec Hr) as Hchild1.
  set (s1 := with_child s self r name child_rec) in *.
  assert (∀ s2, framed unit_frame s1 s2 → ∃ r2 cr2,
            st_names s2 !! self = Some r2 ∧
            rn_childs_by_name r2 = rn_childs_by_name r ++ [(name, length (st_names s))] ∧
            st_names s2 !! length (st_names s) = Some cr2 ∧
            rn_calls cr2 = [] ∧ rn_name cr2 = Some name ∧ rn_parent cr2 = Some self ∧
            rn_is_subnet cr2 = has_torch_forward ext (ce_module ce)) as Hframe.
  { intros s2 (Hn & _). destruct (Hn _ _ Hself1) as (r2 & Hr2 & Hsame).
    destruct (Hn _ _ Hchild1) as (cr2 & Hcr2 & Hsame').
    exists r2, cr2. cbn in Hsame, Hsame'. unfold same in Hsame, Hsame'.
    cbn in Hsame, Hsame'. by simplify_eq. }
  apply (wp_assign_call ext unit_frame).
  - intros cr Hcr Hin. simplify_eq. unfold child_rec in Hin. cbn in Hin.
    by apply elem_of_nil in Hin.
  - intros cr ce1 s2 cr2 ce2 Hcr _ Hce1 Hs2 Hcr2 Hce2 _ _. wp_steps.
    destruct (Hframe s2 Hs2) as (r2 & cr2' & Hr2 & Hchilds & Hcr2' & Hcalls & ? & ? & ?).
    simplify_eq. apply lookup_lt_Some in Hr as Hlt.
    exists (set_calls (rn_calls cr2 ++ [call]) cr2).
    apply lookup_lt_Some in Hcr2 as Hlt2.
    split_and!; try done.
    + exists r, r2. store_simpl. split_and!; try done.
      * rewrite list_lookup_insert_ne by lia. done.
      * rewrite list_lookup_insert_eq by done. done.
    + by rewrite list_lookup_insert_eq.
    + cbn. by rewrite Hcalls.
  - intros e s2 Hs2. right.
    destruct (Hframe s2 Hs2) as (r2 & cr2' & Hr2 & Hchilds & Hcr2' & _).
    by exists r, r2.
Qed.

End RegisterSubCall.

(** ** Serialization *)

Section Dump.

Context (ext : External).

Lemma map_pres_length {A B} (f : A → pres B) l ys :
  map_pres f l = Val ys → length ys = length l.
Proof.
  revert ys. induction l as [|x l IH]; intros ys; cbn.
  - by intros [= <-].
  - destruct (f x) as [y| |]; cbn; [|done..].
    destruct (map_pres f l) as [ys'| |]; cbn; [|done..].
    intros [= <-]. cbn. f_equal. by apply IH.
Qed.

Lemma map_pres_lookup {A B} (f : A → pres B) l ys :
  map_pres f l = Val ys → Forall2 (λ x y, f x = Val y) l ys.
Proof.
  revert ys. induction l as [|x l IH]; intros ys; cbn.
  - intros [= <-]. constructor.
  - destruct (f x) as [y| |] eqn:Hx; cbn; [|done..].
    destruct (map_pres f l) as [ys'| |]; cbn; [|done..].
    intros [= <-]. constructor; [done|]. by apply IH.
Qed.

(** The loop of [dump_as_returnn_net_dict] appends one entry for each
    child that has a call, in the order of the children. *)
Lemma net_dict_loop_entries dump s items : ∀ net_dict d,
  NoDup items.*1 → (∀ k, k ∈ items.*1 → k ∉ net_dict.*1) →
  net_dict_loop dump s items net_dict = Val d →
  ∃ entries, d = net_dict ++ entries ∧
    Forall2 (λ kc kv, kv.1 = kc.1 ∧ dump kc.2 = Val kv.2)
      (filter (λ kc, has_calls s kc.2 = true) items) entries.
Proof.
  induction items as [|[k c] items IH]; intros net_dict d Hnd Hfresh; cbn.
  - intros [= <-]. exists []. rewrite app_nil_r. split; [done|constructor].
  - cbn in Hnd. apply NoDup_cons in Hnd as [Hk Hnd].
    destruct (st_names s !! c) as [cr|] eqn:Hc; [|done].
    destruct (decide (has_calls s c = true)) as [Hh|Hh];
      unfold has_calls in Hh; rewrite Hc in Hh;
      destruct (rn_calls cr) as [|call calls] eqn:Hcalls; cbn in Hh; try done.
    + destruct (dump c) as [v| |] eqn:Hdump; cbn; [|done..].
      rewrite dict_set_fresh by (apply Hfresh; left).
      intros Hloop. apply IH in Hloop as (entries & -> & Hentries); [|done|].
      * exists ((k, v) :: entries). rewrite <-app_assoc. split; [done|].
        by constructor.
      * intros k' Hk'. rewrite fmap_app. cbn. intros [?|Hin]%elem_of_app.
        -- eapply Hfresh; [by right|done].
        -- apply list_elem_of_singleton in Hin as ->. done.
    + apply IH; [done|]. intros k' Hk'. apply Hfresh. by right.
Qed.

(** C3 (amended).  For a node whose first call is of a primitive unit,
    [dump_as_returnn_layer_dict] returns the [returnn_layer_dict] of the
    call as it is, when the call is the only one of the node; when the
    description has not been set, that is [None], and nothing is raised. *)
Theorem dump_primitive_verbatim frames (s : Store) (self : NameId)
    (r : RegisteredName) (call : CallId) (ce : CallEntry) :
  st_names s !! self = Some r → rn_calls r = [call] →
  st_calls s !! call = Some ce → has_torch_forward ext (ce_module ce) = false →
  dump_as_returnn_layer_dict ext (S frames) s self =
    Val (match ce_returnn_layer_dict ce with
         | Some layer_dict => layer_dict
         | None => PNone
         end).
Proof.
  intros Hr Hcalls Hce Hprim. cbn [dump_as_returnn_layer_dict].
  rewrite Hr, Hcalls, Hce, Hprim. cbn. by destruct (ce_returnn_layer_dict ce).
Qed.


End Dump.

(** ** Outputs of a call *)

#[global] Instance outputs_frame_ok : FrameOK outputs_frame.
Proof. split; apply _. Qed.

Lemma frame_tensor_entry F `{!FrameOK F} x :
  (∀ nm v, FG F nm (set_nm_tensors v nm)) → frame F (tensor_entry x).
Proof.
  intros HG. unfold tensor_entry. frame_steps.
Qed.

(** When the outputs are recorded, [set_outputs] leaves them in the call
    entry. *)
Lemma wp_set_outputs_recorded self outputs s :
  nm_wrap_to_returnn_enabled (st_naming s) = true →
  wp (set_outputs self outputs) s
    (λ _ s', ∃ ce' entry_outputs,
       st_calls s' !! self = Some ce' ∧ ce_outputs ce' = Some entry_outputs)
    (λ _ _, True).
Proof.
  intros Hwrap. unfold set_outputs. wp_steps.
  apply wp_get_call; intros ce Hce. wp_steps.
  apply wp_assert; [intros _|done]. wp_steps. rewrite Hwrap. wp_steps.
  eapply (wp_frame outputs_frame); [|reflexivity| |done].
  { destruct (nm_keep_orig_module_io_tensors (st_naming s)); frame_steps. }
  intros _ s1 Hs1. wp_steps.
  eapply (wp_frame outputs_frame); [|reflexivity| |done].
  { apply frame_map_M. intros x. apply frame_tensor_entry; [apply _|done]. }
  intros entry_outputs s2 Hs2. wp_steps.
  apply wp_modify_call; store_simpl; intros ce2 Hce2. wp_steps.
  set (s3 := {| st_names := _ |}).
  assert (st_calls s3 !! self = Some (set_outputs_field (Some entry_outputs) ce2)) as Hce3.
  { unfold s3. cbn. apply list_lookup_insert_eq. by eapply lookup_lt_Some. }
  eapply (wp_frame outputs_frame); [|reflexivity| |done].
  { frame_steps. }
  intros _ s4 Hs4. destruct Hs4 as (_ & Hc & _).
  destruct (Hc _ _ Hce3) as (ce4 & Hce4 & Hsame). cbn in Hsame. unfold same in Hsame.
  assert (∀ s5, framed outputs_frame s4 s5 → ∃ ce' entry_outputs,
            st_calls s5 !! self = Some ce' ∧ ce_outputs ce' = Some entry_outputs) as Hend.
  { intros s5 (_ & Hc5 & _). destruct (Hc5 _ _ Hce4) as (ce5 & Hce5 & Hsame5).
    cbn in Hsame5. unfold same in Hsame5. exists ce5, entry_outputs.
    split; [done|]. by rewrite Hsame5, Hsame. }
  eapply (wp_frame outputs_frame); [|reflexivity| |done].
  { frame_steps. }
  intros _ s5 Hs5. by apply Hend.
Qed.

(** C8 (amended).  When the session has graph materialization enabled
    ([wrap_to_returnn_enabled]) and [set_outputs] has returned once for a
    call, every further [set_outputs] on that call fails its assertion and
    changes nothing.  (The outputs are recorded under that flag only.) *)
Theorem set_outputs_only_once (s s1 : Store) (self : CallId)
    (outputs outputs' : outputs_arg) :
  nm_wrap_to_returnn_enabled (st_naming s) = true →
  set_outputs self outputs s = Ok () s1 →
  set_outputs self outputs' s1 = Raise AssertionError s1.
Proof.
  intros Hwrap Hfirst.
  destruct (wp_ok _ _ _ _ _ _ (wp_set_outputs_recorded self outputs s Hwrap) Hfirst)
    as (ce' & entry_outputs & Hce' & Hout).
  unfold set_outputs.
  change ((get_call self ≫= ?f) s1) with (M_bind f (get_call self) s1).
  unfold M_bind, get_call. rewrite Hce'.
  change ((assert ?b ≫= ?f) s1) with (M_bind f (assert b) s1).
  unfold M_bind. by rewrite Hout.
Qed.

(** ** Input slots *)

Section RegisterInput.

Context (ext : External).

Lemma slot_name_nonempty idx : slot_name idx ≠ "".
Proof. unfold slot_name. by case_bool_decide. Qed.

#[global] Instance slot_name_inj : Inj eq eq slot_name.
Proof.
  intros i j. unfold slot_name, ReservedInputName.
  repeat case_bool_decide; intros Hij; try done; [|lia].
  do 2 apply (inj (String.append _)) in Hij. by apply (inj pretty) in Hij.
Qed.

(** The test of line 182 compares a tensor entry with namespace nodes: it
    never finds it. *)
Lemma tensor_not_in_inputs tensor (inputs : list NameId) :
  py_in (ObjTensor tensor) (ObjName <$> inputs) = false.
Proof.
  unfold py_in. apply bool_decide_eq_false.
  by intros (n & ? & _)%list_elem_of_fmap.
Qed.

Lemma twp_RegisteredName_init_child frames p pr name tensor is_reserved is_subnet s
    (Q : NameId → Store → Prop) (E : exn → Store → Prop) :
  st_names s !! p = Some pr →
  (name = "" ∨ (is_reserved = false ∧ name ∈ ReservedNames) → E AssertionError s) →
  (name ≠ "" → (is_reserved = false → name ∉ ReservedNames) →
   let self := length (st_names s) in
   let names' := st_names s ++ [child_record pr p name tensor is_reserved is_subnet] in
   match tensor with
   | None => Q self (with_names names' s)
   | Some t =>
       ∃ te, st_tensors s !! t = Some te ∧
             Q self (with_tensors
                       (<[t := set_te_names (te_names te ++ [Some self]) te]>
                          (st_tensors s))
                       (with_names names' s))
   end) →
  twp (RegisteredName_init ext frames None (Some p) (Some name) None tensor
         is_reserved is_subnet) s Q E.
Proof.
  intros Hpr HE HQ. unfold RegisteredName_init. cbn zeta in HQ.
  wp_steps. apply twp_assert; intros Hname.
  2:{ apply HE. left. unfold truthy in Hname.
      by apply negb_false_iff, bool_decide_eq_true in Hname. }
  assert (name ≠ "") as Hne.
  { unfold truthy in Hname. by apply negb_true_iff, bool_decide_eq_false in Hname. }
  wp_steps. apply twp_assert; [intros _|done].
  wp_steps. eapply twp_get_name; [done|]. wp_steps.
  assert (twp (if is_reserved then mret ()
               else assert (negb (reserved name))) s
            (λ _ s', s' = s ∧ (is_reserved = false → name ∉ ReservedNames))
            (λ e s', s' = s ∧ e = AssertionError ∧ is_reserved = false ∧
                     name ∈ ReservedNames)) as Hreserved.
  { destruct is_reserved; [by apply twp_ret|].
    apply twp_assert; unfold reserved.
    - intros Hr%negb_true_iff%bool_decide_eq_false. done.
    - intros Hr%negb_false_iff%bool_decide_eq_true. done. }
  eapply twp_mono; [exact Hreserved| |]; cbn beta.
  2:{ intros e s' (-> & -> & ? & ?). apply HE. by right. }
  intros _ s' [-> Hres]. specialize (HQ Hne Hres). wp_steps.
  eapply twp_get_name; [by apply lookup_snoc_old|]. store_simpl.
  eapply twp_modify_name; [by apply lookup_snoc_new|]. store_simpl.
  rewrite insert_snoc_new. wp_steps. unfold child_record in HQ.
  destruct tensor as [t|].
  - destruct HQ as (te & Hte & HQ). unfold assign_tensor. wp_steps.
    eapply twp_get_name; [by apply lookup_snoc_new|]. store_simpl.
    cbn [rn_tensor set_level]. wp_steps.
    eapply twp_modify_name; [by apply lookup_snoc_new|]. store_simpl.
    rewrite insert_snoc_new.
    eapply twp_modify_tensor; [done|]. store_simpl. wp_steps.
    destruct (rn_wrap_to_returnn_enabled pr); by wp_steps.
  - wp_steps. destruct (rn_wrap_to_returnn_enabled pr); by wp_steps.
Qed.

(** [register_input] on a scope that is a sub-network, whose next slot
    name is free: the slot is made, and the context, if the scope is
    wrapped to RETURNN, is told; without a context that fails. *)
Lemma twp_register_input frames self tensor s r te
    (Q : NameId → Store → Prop) (E : exn → Store → Prop) :
  st_names s !! self = Some r → st_tensors s !! tensor = Some te →
  rn_is_subnet r = true →
  slot_name (length (rn_inputs r)) ∉ (rn_childs_by_name r).*1 →
  (let idx := length (rn_inputs r) in
   let slot := length (st_names s) in
   let s1 := with_slot s self r tensor te in
   if rn_wrap_to_returnn_enabled r then
     match rn_returnn_ctx r with
     | Some ctx =>
         ∃ c, st_ctxs s !! ctx = Some c ∧
              Q slot (with_ctxs
                        (<[ctx := set_ctx_inputs (ctx_inputs c ++ [(tensor, slot_key idx)]) c]>
                           (st_ctxs s)) s1)
     | None => E AttributeError s1
     end
   else Q slot s1) →
  twp (register_input ext frames self tensor) s Q E.
Proof.
  intros Hr Hte Hsub Hfree HQ. unfold register_input. cbn zeta in HQ.
  apply lookup_lt_Some in Hr as Hlt.
  wp_steps. eapply twp_get_name; [done|]. wp_steps.
  apply twp_assert; [intros _|congruence]. wp_steps.
  rewrite tensor_not_in_inputs. apply twp_assert; [intros _|done]. wp_steps.
  fold (slot_name (length (rn_inputs r))). fold (slot_key (length (rn_inputs r))).
  apply twp_assert.
  2:{ intros Hin%negb_false_iff%bool_decide_eq_true. done. }
  intros _. wp_steps.
  apply (twp_RegisteredName_init_child _ _ r); [done| |].
  { intros [Hempty|[? _]]; [|done]. by apply slot_name_nonempty in Hempty. }
  intros _ _. cbn zeta. exists te. split; [done|]. wp_steps.
  eapply twp_modify_name; [by apply lookup_snoc_old|]. store_simpl. wp_steps.
  eapply twp_modify_name.
  { apply list_lookup_insert_eq. rewrite length_app. lia. }
  store_simpl. rewrite list_insert_insert_eq. wp_steps.
  rewrite dict_set_fresh by done. cbn [rn_inputs set_childs_by_name].
  unfold with_slot in HQ. revert HQ. store_simpl. intros HQ.
  destruct (rn_wrap_to_returnn_enabled r); [|by wp_steps].
  wp_steps. eapply twp_get_name.
  { apply list_lookup_insert_eq. rewrite length_app. lia. }
  wp_steps. cbn [rn_returnn_ctx set_inputs set_childs_by_name].
  destruct (rn_returnn_ctx r) as [ctx|]; cbn [attr_of]; [|by wp_steps].
  destruct HQ as (c & Hc & HQ). wp_steps. unfold define_input.
  eapply twp_modify_ctx; [done|]. store_simpl. by wp_steps.
Qed.

End RegisterInput.

Section RegisterInputs.

Context (ext : External).

Lemma twp_returns {A} (m : M A) s Q :
  twp m s Q (λ _ _, False) → ∃ a s', m s = Ok a s' ∧ Q a s'.
Proof. unfold twp. destruct (m s) as [a s'| |]; [|done..]. by exists a, s'. Qed.

Lemma twp_register_inputs frames self tensors : ∀ s r,
  st_names s !! self = Some r → rn_is_subnet r = true →
  (rn_wrap_to_returnn_enabled r = true →
   ∃ ctx, rn_returnn_ctx r = Some ctx ∧ is_Some (st_ctxs s !! ctx)) →
  Forall (λ t, is_Some (st_tensors s !! t)) tensors →
  (∀ i, i < length tensors →
        slot_name (length (rn_inputs r) + i) ∉ (rn_childs_by_name r).*1) →
  twp (map_M (register_input ext frames self) tensors) s
    (λ slots s', slots_registered s self r tensors slots s') (λ _ _, False).
Proof.
  induction tensors as [|t tensors IH]; intros s r Hr Hsub Hctx Hvalid Hfree;
    cbn [map_M].
  - wp_steps. unfold slots_registered. cbn. split_and!; try done.
    + exists r. by rewrite !app_nil_r.
    + destruct (rn_wrap_to_returnn_enabled r); [|done].
      destruct Hctx as (ctx & Hctx & [c Hc]); [done|].
      exists ctx, c, c. by rewrite app_nil_r.
  - apply Forall_cons in Hvalid as [[te Hte] Hvalid].
    apply lookup_lt_Some in Hr as Hlt.
    set (k := length (rn_inputs r)) in *.
    set (slot := length (st_names s)).
    set (r1 := set_inputs (rn_inputs r ++ [slot])
                 (set_childs_by_name (rn_childs_by_name r ++ [(slot_name k, slot)]) r)).
    set (child := child_record r self (slot_name k) (Some t) true false).
    (* the store after the first call *)
    assert (∀ s1,
      st_names s1 = <[self := r1]> (st_names s ++ [child]) →
      st_tensors s1 = <[t := set_te_names (te_names te ++ [Some slot]) te]> (st_tensors s) →
      (if rn_wrap_to_returnn_enabled r then
         ∃ ctx c, rn_returnn_ctx r = Some ctx ∧ st_ctxs s !! ctx = Some c ∧
           st_ctxs s1 = <[ctx := set_ctx_inputs (ctx_inputs c ++ [(t, slot_key k)]) c]>
                          (st_ctxs s)
       else st_ctxs s1 = st_ctxs s) →
      twp (map_M (register_input ext frames self) tensors ≫= λ ys, mret (slot :: ys)) s1
        (λ slots s', slots_registered s self r (t :: tensors) slots s') (λ _ _, False))
      as Hrest.
    { intros s1 Hnames Htensors Hctxs.
      assert (st_names s1 !! self = Some r1) as Hr1.
      { rewrite Hnames. apply list_lookup_insert_eq. rewrite length_app. lia. }
      assert (length (st_names s1) = S slot) as Hlen1.
      { rewrite Hnames, length_insert, length_app. cbn. unfold slot. lia. }
      assert (st_names s1 !! slot = Some child) as Hchild1.
      { rewrite Hnames, list_lookup_insert_ne by (unfold slot; lia).
        apply lookup_snoc_new. }
      assert (∀ m, m < slot → m ≠ self → st_names s1 !! m = st_names s !! m) as Hold1.
      { intros m Hm Hne. rewrite Hnames, list_lookup_insert_ne by done.
        by apply lookup_app_l. }
      wp_steps. eapply twp_mono; [apply (IH s1 r1)| |done]; try done.
      - intros Hwrap. cbn in Hwrap. rewrite Hwrap in Hctxs.
        destruct Hctxs as (ctx & c & Hrctx & Hc & ->). exists ctx. split; [done|].
        rewrite list_lookup_insert_eq by (by eapply lookup_lt_Some). done.
      - rewrite Htensors. eapply Forall_impl; [exact Hvalid|]. cbn beta.
        intros t' [te' Hte']. destruct (decide (t = t')) as [->|Hne].
        + rewrite list_lookup_insert_eq by (by eapply lookup_lt_Some). done.
        + rewrite list_lookup_insert_ne by done. done.
      - intros i Hi. cbn [r1 rn_inputs rn_childs_by_name set_inputs set_childs_by_name].
        rewrite length_app, fmap_app. cbn [length fmap list_fmap fst].
        intros [Hin|Hin%list_elem_of_singleton]%elem_of_app.
        + eapply (Hfree (S i)); [cbn; lia|].
          by replace (k + S i) with (k + 1 + i) by lia.
        + apply (inj slot_name) in Hin. unfold k in Hin. lia.
      - cbn beta. intros slots s' (Hslots & (r' & Hr' & Hin' & Hch') & Hrec & Hold & Hc').
        wp_steps. unfold slots_registered. cbn zeta.
        cbn [r1 rn_inputs rn_childs_by_name set_inputs set_childs_by_name
             rn_wrap_to_returnn_enabled rn_returnn_ctx] in *.
        rewrite length_app in *. cbn [length] in *. fold k in Hin', Hch', Hrec, Hc' |- *.
        rewrite Hlen1 in *.
        split_and!.
        + rewrite Hslots. done.
        + exists r'. split_and!; [done| |].
          * rewrite Hin', <-app_assoc. done.
          * rewrite Hch', <-app_assoc. cbn. rewrite Hslots.
            by replace (k + 1) with (S k) by lia.
        + intros [|i] t' Hi; cbn in Hi.
          * injection Hi as <-. exists child. rewrite !Nat.add_0_r.
            split_and!; try done.
            rewrite Hold; [done|lia|unfold slot; lia].
          * destruct (Hrec i t' Hi) as (sr & Hsr & ? & ? & ? & ? & ?).
            exists sr. split_and!; try done.
            -- by replace (length (st_names s) + S i) with (S slot + i)
                 by (unfold slot; lia).
            -- by replace (k + S i) with (k + 1 + i) by lia.
        + intros m Hm Hne. rewrite Hold by lia. apply Hold1; [done|done].
        + destruct (rn_wrap_to_returnn_enabled r).
          * destruct Hctxs as (ctx & c & Hrctx & Hc & Hctxs).
            destruct Hc' as (ctx' & c1 & c' & Hrctx' & Hc1 & Hcs' & Hinp).
            simplify_eq. exists ctx, c, c'. split_and!; try done.
            rewrite Hctxs, list_lookup_insert_eq in Hc1 by (by eapply lookup_lt_Some).
            injection Hc1 as <-. rewrite Hinp. cbn. rewrite <-app_assoc. cbn.
            by replace (k + 1) with (S k) by lia.
          * by rewrite Hc', Hctxs. }
    wp_steps. eapply twp_register_input; try done.
    { specialize (Hfree 0). rewrite Nat.add_0_r in Hfree. apply Hfree. cbn. lia. }
    cbn zeta. fold k slot.
    destruct (rn_wrap_to_returnn_enabled r) eqn:Hwrap.
    + destruct Hctx as (ctx & Hrctx & [c Hc]); [done|]. rewrite Hrctx.
      exists c. split; [done|]. apply Hrest; try done.
      by exists ctx, c.
    + by apply Hrest.
Qed.

(** C7 (amended).  On a scope that is a sub-network, successive calls of
    [register_input] for distinct tensors of the registry, while the slot
    names are free, return, and make the new reserved children [data],
    [data:1], [data:2], ... in the order of the calls, the name being the
    base name at slot index 0 and [data:index] from index 1 on.  When the
    scope is wrapped to RETURNN ([wrap_to_returnn_enabled]) and has a
    context, the context is told each slot, with the index as data key from
    index 1 on and without data key at index 0; when it is not wrapped, no
    context is told.  (The proof does not use that the tensors are
    distinct; C10 is about a tensor that is registered twice.) *)
Theorem register_input_slots frames (s : Store) (self : NameId) (r : RegisteredName)
    (tensors : list TensorId) :
  st_names s !! self = Some r → rn_is_subnet r = true →
  (rn_wrap_to_returnn_enabled r = true →
   ∃ ctx, rn_returnn_ctx r = Some ctx ∧ is_Some (st_ctxs s !! ctx)) →
  Forall (λ t, is_Some (st_tensors s !! t)) tensors →
  (∀ i, i < length tensors →
        slot_name (length (rn_inputs r) + i) ∉ (rn_childs_by_name r).*1) →
  ∃ slots s',
    map_M (register_input ext frames self) tensors s = Ok slots s' ∧
    slots_registered s self r tensors slots s'.
Proof.
  intros Hr Hsub Hctx Hvalid Hfree.
  by apply twp_returns, twp_register_inputs.
Qed.

End RegisterInputs.

(** ** A second call of a primitive unit *)

Section Reuse.

Context (ext : External).

Lemma nothing_bound_refl s : nothing_bound s s.
Proof.
  split; [reflexivity|]. intros i c Hi Hc. apply lookup_lt_Some in Hc. lia.
Qed.

Lemma nothing_bound_set_ctx s0 s n r v :
  nothing_bound s0 s → st_names s !! n = Some r →
  nothing_bound s0 (with_names (<[n := set_returnn_ctx v r]> (st_names s)) s).
Proof.
  intros [Hf Hnew] Hr. split; [|done].
  etrans; [done|]. repeat split; cbn; try done.
  eapply list_rel_insert; [apply _|done|done].
Qed.

Lemma nothing_bound_new_ctx s0 s c :
  nothing_bound s0 s → ctx_layers c = [] →
  nothing_bound s0 (with_ctxs (st_ctxs s ++ [c]) s).
Proof.
  intros [Hf Hnew] Hc. split.
  - etrans; [done|]. repeat split; cbn; try done. apply list_rel_app, _.
  - intros i c' Hi. cbn. intros Hc'.
    apply lookup_app_Some in Hc' as [Hc'|[_ Hc']]; [by eapply Hnew|].
    apply list_lookup_singleton_Some in Hc' as [_ <-]. done.
Qed.

Lemma wp_maybe_create_returnn_ctx frames : ∀ self s0 s,
  nothing_bound s0 s →
  wp (maybe_create_returnn_ctx frames self) s
    (λ _ s', nothing_bound s0 s') (λ _ s', nothing_bound s0 s').
Proof.
  induction frames as [|frames IH]; intros self s0 s Hs; cbn [maybe_create_returnn_ctx].
  - by wp_steps.
  - wp_steps. apply wp_get_name; intros r Hr. wp_steps.
    apply wp_assert; [intros _|done]. wp_steps.
    apply wp_assert; [intros _|done]. wp_steps.
    destruct (rn_returnn_ctx r); [by wp_steps|]. wp_steps.
    assert (∀ parent_ctx s1, nothing_bound s0 s1 →
              wp (ReturnnContext_new parent_ctx (rn_name r)
                  ≫= λ c, modify_name self (set_returnn_ctx (Some c))) s1
                (λ _ s', nothing_bound s0 s') (λ _ s', nothing_bound s0 s')) as Hnew.
    { intros parent_ctx s1 Hs1. unfold ReturnnContext_new. wp_steps.
      apply wp_modify_name; store_simpl; intros r1 Hr1.
      apply (nothing_bound_set_ctx s0 (with_ctxs (st_ctxs s1 ++ [_]) s1)); [|done].
      by apply nothing_bound_new_ctx. }
    destruct (rn_parent r) as [p|]; [|apply wp_bind, wp_ret; by apply Hnew].
    wp_steps. apply wp_get_name; intros pr Hpr. wp_steps.
    eapply wp_mono with (Q := λ _ s', nothing_bound s0 s')
                        (E := λ _ s', nothing_bound s0 s'); [|cbn beta|done].
    { destruct (rn_returnn_ctx pr); [by wp_steps|by apply IH]. }
    intros _ s1 Hs1. wp_steps. apply wp_get_name; intros pr1 Hpr1. wp_steps.
    apply wp_assert; [intros _|done]. apply wp_ret. by apply Hnew.
Qed.

(** The inputs of a call are read without a change of the store. *)
Lemma wp_read_inputs (flat : list (option TensorId)) s Q E :
  (∀ inputs_flat, Q inputs_flat s) →
  wp (map_M (λ x : option TensorId,
               match x with
               | Some t => te ← get_tensor t; mret (Some (te_tensor te))
               | None => mret None
               end) flat) s Q E.
Proof.
  intros HQ. apply (wp_map_M (λ s', s' = s)); [done| |].
  - intros [t|] s' _ ->; wp_steps; [|done].
    apply wp_get_tensor; intros te Hte. by wp_steps.
  - intros ys s' -> _. apply HQ.
Qed.

Lemma wp_apply_call_reuse frames self s ce me :
  st_calls s !! self = Some ce → st_modules s !! ce_module ce = Some me →
  has_torch_forward ext (ce_module ce) = false → 2 ≤ length (me_calls me) →
  wp (apply_call ext frames self) s (λ _ _, False) (λ _ s', nothing_bound s s').
Proof.
  intros Hce Hme Hprim Hcalls.
  destruct frames as [|frames]; cbn [apply_call]; [wp_steps; apply nothing_bound_refl|].
  unfold apply_call_body. wp_steps.
  apply wp_get_call; intros ce' Hce'. simplify_eq. cbn zeta. wp_steps.
  destruct (ce_namespace ce) as [namespace|]; [|wp_steps; apply nothing_bound_refl].
  wp_steps.
  destruct (ce_inputs_flat ce) as [flat|]; [|wp_steps; apply nothing_bound_refl].
  wp_steps. apply wp_read_inputs; intros inputs_flat. wp_steps.
  destruct (pack_sequence_as ext _ _ inputs_flat) as [[inputs_args inputs_kwargs]|];
    [|wp_steps; apply nothing_bound_refl].
  wp_steps. rewrite Hprim. wp_steps.
  apply wp_assert; [intros _|intros _; apply nothing_bound_refl]. wp_steps.
  apply wp_get_name; intros ns Hns. wp_steps.
  destruct (rn_parent ns) as [parent_namespace|]; [|wp_steps; apply nothing_bound_refl].
  wp_steps.
  eapply wp_mono; [apply wp_maybe_create_returnn_ctx, nothing_bound_refl| |done].
  cbn beta. intros _ s1 Hs1. wp_steps.
  destruct (create_returnn_layer_dict ext s1 _ _ _) as [layer_dict|e]; [|by wp_steps].
  wp_steps. apply wp_get_name; intros ns1 Hns1. cbn zeta. wp_steps.
  apply wp_get_name; intros pr Hpr. wp_steps.
  destruct (rn_returnn_ctx pr) as [returnn_net|]; [|by wp_steps].
  wp_steps. apply wp_get_ctx; intros net Hnet. wp_steps.
  apply wp_assert; [intros _|done]. wp_steps.
  apply wp_get_module; intros me1 Hme1. wp_steps.
  pose proof Hs1 as [(_ & _ & Hm & _) _].
  destruct (Hm _ _ Hme) as (me1' & Hme1' & Hsame). simplify_eq.
  cbn in Hsame. unfold same in Hsame. rewrite Hsame.
  rewrite bool_decide_eq_true_2 by done. by wp_steps.
Qed.

Lemma twp_read_inputs (flat : list (option TensorId)) inputs_flat s Q E :
  read_inputs s flat = Some inputs_flat → Q inputs_flat s →
  twp (map_M (λ x : option TensorId,
                match x with
                | Some t => te ← get_tensor t; mret (Some (te_tensor te))
                | None => mret None
                end) flat) s Q E.
Proof.
  unfold read_inputs. revert inputs_flat Q.
  induction flat as [|x flat IH]; intros inputs_flat Q; cbn [map_M].
  - intros [= <-] HQ. by wp_steps.
  - cbn [mapM]. intros Hread HQ.
    apply bind_Some in Hread as (y & Hy & Hread).
    apply bind_Some in Hread as (ys & Hys & [= <-]).
    wp_steps.
    assert (twp match x with
                | Some t => te ← get_tensor t; mret (Some (te_tensor te))
                | None => mret None
                end s (λ y' s', y' = y ∧ s' = s) E) as Hx.
    { destruct x as [t|]; [|injection Hy as <-; by wp_steps].
      destruct (st_tensors s !! t) as [te|] eqn:Hte; [|done].
      injection Hy as <-. wp_steps. eapply twp_get_tensor; [done|]. by wp_steps. }
    eapply twp_mono; [exact Hx| |done]. cbn beta. intros ? s' [-> ->]. wp_steps.
    apply (IH ys); [done|]. by wp_steps.
Qed.

Lemma twp_apply_call_reuse frames self s s1 ce me :
  st_calls s !! self = Some ce → st_modules s !! ce_module ce = Some me →
  has_torch_forward ext (ce_module ce) = false → 2 ≤ length (me_calls me) →
  reaches_reuse_check ext frames s self s1 →
  twp (apply_call ext (S frames) self) s (λ _ _, False)
    (λ e s', e = NotImplementedError ∧ s' = s1).
Proof.
  intros Hce Hme Hprim Hcalls.
  intros (ce' & namespace & flat & inputs_flat & inputs_args & inputs_kwargs & ns &
          parent_namespace & layer_dict & ns1 & pr & returnn_net & net &
          Hce' & Hns & Hflat & Hread & Hpack & Hover & Hnsr & Hparent & Hctx &
          Hdict & Hns1 & Hpr & Hnet & Hc & Hfresh).
  simplify_eq.
  pose proof (wp_ok _ _ _ _ _ _
                (wp_maybe_create_returnn_ctx frames parent_namespace s s
                   (nothing_bound_refl s)) Hctx) as [(_ & _ & Hm & _) _].
  destruct (Hm _ _ Hme) as (me1 & Hme1 & Hsame). cbn in Hsame. unfold same in Hsame.
  cbn [apply_call]. unfold apply_call_body. wp_steps.
  eapply twp_get_call; [done|]. cbn zeta. rewrite Hns, Hflat. wp_steps.
  eapply twp_read_inputs; [done|]. rewrite Hpack, Hprim. wp_steps.
  apply twp_assert; [intros _|congruence]. wp_steps.
  eapply twp_get_name; [done|]. rewrite Hparent. wp_steps.
  unfold twp at 1. rewrite Hctx. wp_steps. rewrite Hdict. wp_steps.
  eapply twp_get_name; [done|]. cbn zeta. wp_steps.
  eapply twp_get_name; [done|]. rewrite Hnet. wp_steps.
  eapply twp_get_ctx; [done|]. wp_steps.
  apply twp_assert.
  2:{ intros Hin%negb_false_iff. destruct (rn_name ns1); [congruence|done]. }
  intros _. wp_steps. eapply twp_get_module; [done|]. wp_steps.
  rewrite Hsame, bool_decide_eq_true_2 by done. by wp_steps.
Qed.

(** C2.  Let [self] be a call of a primitive unit (one without a torch
    forward) against which there are two calls or more.  Then [apply_call]
    never returns for [self]; whatever it raises, it has bound nothing and
    constructed no layer, so that every call entry, the binding of the
    first call among them, is as it was; and when it gets to the test of
    reuse, it raises [NotImplementedError] there, before the construction
    of the layer. *)
Theorem apply_call_reuse_rejected frames (s : Store) (self : CallId)
    (ce : CallEntry) (me : ModuleEntry) :
  st_calls s !! self = Some ce → st_modules s !! ce_module ce = Some me →
  has_torch_forward ext (ce_module ce) = false → 2 ≤ length (me_calls me) →
  (∀ res s', apply_call ext (S frames) self s ≠ Ok res s') ∧
  (∀ e s', apply_call ext (S frames) self s = Raise e s' →
           nothing_bound s s' ∧
           ∀ call ce1, st_calls s !! call = Some ce1 → st_calls s' !! call = Some ce1) ∧
  (∀ s1, reaches_reuse_check ext frames s self s1 →
         apply_call ext (S frames) self s = Raise NotImplementedError s1).
Proof.
  intros Hce Hme Hprim Hcalls.
  pose proof (wp_apply_call_reuse (S frames) self s ce me Hce Hme Hprim Hcalls) as Hwp.
  split_and!.
  - intros res s' Hrun. by apply (wp_ok _ _ _ _ _ _ Hwp Hrun).
  - intros e s' Hrun. pose proof (wp_raised _ _ _ _ _ _ Hwp Hrun) as Hnb.
    split; [done|]. intros call ce1 Hce1.
    destruct Hnb as [(_ & Hc & _) _]. destruct (Hc _ _ Hce1) as (ce1' & ? & Heq).
    cbn in Heq. by subst.
  - intros s1 Hreach.
    pose proof (twp_apply_call_reuse frames self s s1 ce me Hce Hme Hprim Hcalls Hreach)
      as Htwp.
    unfold twp in Htwp. destruct (apply_call ext (S frames) self s); [done| |done].
    by destruct Htwp as [-> ->].
Qed.

End Reuse.

(** ** The call stack *)

#[global] Instance link_frame_ok : FrameOK link_frame.
Proof. split; apply _. Qed.

#[global] Instance stack_frame_pop_ok : FrameOK stack_frame_pop.
Proof. split; apply _. Qed.

Section Stack.

Context (ext : External).

Lemma frame_set_outputs_stack self outputs :
  frame stack_frame (set_outputs self outputs).
Proof.
  unfold set_outputs.
  repeat (first [apply frame_tensor_entry; [apply _|done] | frame_step]; try done).
Qed.

(** A call of a primitive unit is applied without a change of the call
    stack. *)
Lemma wp_apply_call_primitive_stack frames self s0 s ce :
  framed stack_frame s0 s →
  st_calls s !! self = Some ce → has_torch_forward ext (ce_module ce) = false →
  wp (apply_call ext frames self) s
    (λ _ s', framed stack_frame s0 s') (λ _ s', framed stack_frame s0 s').
Proof.
  intros Hs Hce Hprim.
  destruct frames as [|frames]; cbn [apply_call]; [by wp_steps|].
  unfold apply_call_body. wp_steps.
  apply wp_get_call; intros ce' Hce'. simplify_eq. cbn zeta. rewrite Hprim.
  eapply wp_frame; [|exact Hs|done..].
  unfold set_returnn_layer.
  repeat (first [ apply frame_tensor_entry; [apply _|done]
                | apply (frame_maybe_create_returnn_ctx stack_frame)
                | apply frame_assign_tensor_stack
                | apply frame_set_outputs_stack
                | frame_step ]; try done).
Qed.

Lemma framed_stack s s' :
  framed stack_frame s s' → call_stack s' = call_stack s.
Proof. by intros (_ & _ & _ & _ & _ & ?). Qed.

Lemma framed_unit_stack s s' :
  framed unit_frame s s' → call_stack s' = call_stack s.
Proof. intros (_ & _ & _ & _ & _ & Hg). cbn in Hg. unfold call_stack. by rewrite Hg. Qed.

Lemma framed_link_stack s s' :
  framed link_frame s s' → call_stack s' = call_stack s.
Proof. intros (_ & _ & _ & _ & _ & Hg). cbn in Hg. unfold call_stack. by rewrite Hg. Qed.

Lemma wp_pop_call_checked call s stack Q E :
  call_stack s = stack ++ [call] →
  (∀ s', call_stack s' = stack → framed stack_frame_pop s s' → Q () s') →
  wp (pop_call_checked call) s Q E.
Proof.
  intros Hstack HQ. unfold pop_call_checked. wp_steps.
  unfold call_stack in Hstack. rewrite Hstack, last_snoc. wp_steps.
  rewrite bool_decide_eq_true_2 by done. apply wp_assert; [intros _|done]. wp_steps.
  apply HQ.
  - unfold call_stack. cbn. by rewrite Hstack, removelast_last.
  - repeat split; cbn; first [reflexivity|done].
Qed.

Lemma wp_register_returnn_subnet_output frames self tensor s :
  wp (register_returnn_subnet_output ext frames self tensor) s
    (λ _ s', call_stack s' = call_stack s) (λ _ s', call_stack s' = call_stack s).
Proof.
  unfold register_returnn_subnet_output, register_returnn_subnet_output_with.
  wp_steps. apply wp_get_name; intros r Hr. wp_steps.
  apply wp_assert; [intros Hsub|done]. wp_steps.
  apply wp_assert; [intros Hwrap|done]. wp_steps.
  apply wp_lift_pres; [intros name_ Hname_|done]. wp_steps.
  apply wp_get_tensor; intros te Hte. wp_steps.
  unfold lookup_key. destruct (dict_get name_ _) as [producer|]; [|by wp_steps].
  wp_steps. apply wp_get_name; intros pr Hpr. cbn zeta. wp_steps.
  destruct (remove_dups _) as [|call [|]]; try by wp_steps. wp_steps.
  eapply (wp_frame stack_frame);
    [apply frame_assign_tensor_stack|reflexivity| |intros e s' Hs'; by apply framed_stack].
  intros _ s2 Hs2%framed_stack. wp_steps.
  apply wp_get_name; intros r2 Hr2. wp_steps.
  apply wp_assert; [intros _|done]. wp_steps.
  apply wp_RegisteredName_init_child; [done|].
  intros pr2 Hpr2 _ _. cbn zeta. wp_steps.
  apply wp_modify_name; store_simpl; intros r3 Hr3. wp_steps.
  unfold CallEntry_init. wp_steps.
  apply wp_modify_module; store_simpl; intros me Hme. wp_steps.
  set (child := length (st_names s2)).
  set (copy_mod := length (st_modules s2)).
  set (copy_call := length (st_calls s2)).
  set (child_rec := child_record pr2 self ReservedOutputName None true false).
  set (s3 := {| st_names := _ |}).
  assert (call_stack s3 = call_stack s) as Hs3 by done.
  assert (st_names s3 !! child = Some child_rec) as Hchild3.
  { unfold s3. cbn. apply lookup_lt_Some in Hpr2 as Hlt.
    rewrite list_lookup_insert_ne by (unfold child; lia). apply lookup_snoc_new. }
  assert (∃ ce3, st_calls s3 !! copy_call = Some ce3 ∧ ce_module ce3 = copy_mod ∧
                 ce_namespace ce3 = None) as (ce3 & Hce3 & Hmod3 & Hns3).
  { eexists. split; [apply lookup_snoc_new|done]. }
  clearbody s3.
  assert (∀ s4, framed link_frame s3 s4 →
            call_stack s4 = call_stack s ∧ st_names s4 !! child = Some child_rec ∧
            ∃ ce4, st_calls s4 !! copy_call = Some ce4 ∧ ce_module ce4 = copy_mod ∧
                   ce_namespace ce4 = None) as Hlink.
  { intros s4 Hs4. split_and!.
    - by rewrite (framed_link_stack _ _ Hs4).
    - destruct Hs4 as (Hn & _). destruct (Hn _ _ Hchild3) as (? & ? & Heq).
      cbn in Heq. by subst.
    - destruct Hs4 as (_ & Hc & _). destruct (Hc _ _ Hce3) as (ce4 & ? & Heq).
      cbn in Heq. unfold same in Heq. exists ce4. split; [done|].
      injection Heq as -> ->. done. }
  eapply (wp_frame link_frame); [frame_steps|reflexivity| |intros e s' Hs'; by apply Hlink].
  intros _ s4 Hs4. wp_steps.
  eapply (wp_frame link_frame); [frame_steps|exact Hs4| |intros e s' Hs'; by apply Hlink].
  clear s4 Hs4. intros _ s4 Hs4. wp_steps.
  eapply (wp_frame link_frame); [frame_steps|exact Hs4| |intros e s' Hs'; by apply Hlink].
  clear s4 Hs4. intros _ s4 Hs4. wp_steps.
  destruct (Hlink s4 Hs4) as (Hstack4 & Hchild4 & ce4 & Hce4 & Hmod4 & Hns4).
  clear Hlink Hs4 Hchild3 Hce3 ce3 Hmod3 Hns3 Hs3 s3.
  apply (wp_assign_call ext unit_frame).
  - intros cr Hcr Hin. simplify_eq. by apply elem_of_nil in Hin.
  - intros cr ce s5 cr5 ce5 Hcr _ Hce Hs5 Hcr5 Hce5 Hkind _. simplify_eq.
    assert (has_torch_forward ext (ce_module ce4) = false) as Hprim.
    { destruct Hs5 as (Hn & _). destruct (Hn _ _ Hchild4) as (cr5' & ? & Heq).
      simplify_eq. cbn in Heq. unfold same in Heq. injection Heq as _ _ _ _ _ His _ _ _ _.
      cbn in His. rewrite His in Hkind. by destruct Hkind. }
    assert (ce5 = ce4) as ->.
    { destruct Hs5 as (_ & Hc & _). destruct (Hc _ _ Hce4) as (ce5' & ? & Heq).
      cbn in Heq. by simplify_eq. }
    apply framed_unit_stack in Hs5 as Hstack5.
    wp_steps. unfold push_call. wp_steps.
    set (s7 := {| st_names := _ |}).
    assert (call_stack s7 = call_stack s ++ [copy_call]) as Hstack7.
    { unfold s7, call_stack. cbn. unfold call_stack in *. by rewrite Hstack5, Hstack4. }
    assert (st_calls s7 !! copy_call = Some (set_namespace (Some child) ce4)) as Hce7.
    { unfold s7. cbn. apply list_lookup_insert_eq. by eapply lookup_lt_Some. }
    clearbody s7.
    assert (∀ s9, call_stack s9 = call_stack s →
              wp (get_name self ≫= λ r0, attr_of (rn_returnn_ctx r0) ≫= λ ctx,
                  get_call copy_call ≫= λ ce, define_output ctx (ce_returnn_layer ce) ≫= λ _,
                  attr_of (ce_returnn_layer ce) ≫= λ layer,
                  modify_tensor tensor (set_te_returnn_data (Some layer)) ≫= λ _,
                  mret child) s9
                (λ _ s', call_stack s' = call_stack s)
                (λ _ s', call_stack s' = call_stack s)) as Hrest.
    { intros s9 Hs9. eapply (wp_frame stack_frame); [|reflexivity|..].
      - unfold define_output. frame_steps.
      - intros _ s' Hs'. by rewrite (framed_stack _ _ Hs').
      - intros _ s' Hs'. by rewrite (framed_stack _ _ Hs'). }
    apply wp_try_finally.
    eapply wp_mono;
      [apply (wp_apply_call_primitive_stack frames copy_call s7 s7 _ (reflexivity _) Hce7);
       exact Hprim|..]; cbn beta.
    + intros res s8 Hs8%framed_stack.
      eapply wp_pop_call_checked; [by rewrite Hs8|].
      intros s9 Hs9 _. by apply Hrest.
    + intros e s8 Hs8%framed_stack.
      eapply wp_pop_call_checked; [by rewrite Hs8|].
      by intros s9 Hs9 _.
  - intros e s5 Hs5%framed_unit_stack. by rewrite Hs5.
Qed.

End Stack.

(** ** References that are in the store *)

Section Safety.

Context (ext : External).

Lemma parents_ok_lookup s n r p :
  parents_ok s → st_names s !! n = Some r → rn_parent r = Some p →
  is_Some (st_names s !! p).
Proof.
  intros Hok Hr Hp. unfold parents_ok in Hok. rewrite Forall_lookup in Hok.
  specialize (Hok n r Hr). rewrite Hp in Hok. by apply lookup_lt_is_Some.
Qed.

Lemma parents_ok_insert s n r r' :
  parents_ok s → st_names s !! n = Some r → rn_parent r' = rn_parent r →
  ∀ s', st_names s' = <[n := r']> (st_names s) → parents_ok s'.
Proof.
  intros Hok Hr Hp s' Hs'. unfold parents_ok in *. rewrite Hs', length_insert.
  apply Forall_insert; [done|]. rewrite Hp.
  rewrite Forall_lookup in Hok. apply (Hok n r Hr).
Qed.

Lemma twp_frame F `{!FrameOK F} {A} (m : M A) s0 s Q E :
  frame F m → m s ≠ Stuck → framed F s0 s →
  (∀ a s', framed F s0 s' → Q a s') → (∀ e s', framed F s0 s' → E e s') →
  twp m s Q E.
Proof.
  intros Hm Hsafe Hs HQ HE. apply twp_intro; [|done]. by eapply wp_frame.
Qed.

Lemma twp_safe {A} (m : M A) s :
  m s ≠ Stuck → twp m s (λ _ _, True) (λ _ _, True).
Proof. unfold twp. by destruct (m s). Qed.

Lemma framed_unit_valid s s' n :
  framed unit_frame s s' → is_Some (st_names s !! n) → is_Some (st_names s' !! n).
Proof. intros (Hn & _) [r Hr]. destruct (Hn _ _ Hr) as (r' & -> & _). done. Qed.

Lemma maybe_create_returnn_ctx_safe frames : ∀ self s,
  parents_ok s → is_Some (st_names s !! self) →
  maybe_create_returnn_ctx frames self s ≠ Stuck.
Proof.
  induction frames as [|frames IH]; intros self s Hok [r Hr]; [done|].
  apply (twp_not_stuck _ _ (λ _ _, True) (λ _ _, True)).
  cbn [maybe_create_returnn_ctx]. wp_steps.
  eapply twp_get_name; [done|]. wp_steps.
  apply twp_assert; [intros _|done]. wp_steps.
  apply twp_assert; [intros _|done]. wp_steps.
  destruct (rn_returnn_ctx r); [by wp_steps|]. wp_steps.
  assert (∀ parent_ctx s1, is_Some (st_names s1 !! self) →
            twp (ReturnnContext_new parent_ctx (rn_name r)
                 ≫= λ c, modify_name self (set_returnn_ctx (Some c))) s1
              (λ _ _, True) (λ _ _, True)) as Hnew.
  { intros parent_ctx s1 [r1 Hr1]. unfold ReturnnContext_new. wp_steps.
    by eapply twp_modify_name. }
  destruct (rn_parent r) as [p|] eqn:Hp; [|apply twp_bind, twp_ret; by apply Hnew].
  destruct (parents_ok_lookup s self r p Hok Hr Hp) as [pr Hpr].
  wp_steps. eapply twp_get_name; [done|]. wp_steps.
  assert (twp match rn_returnn_ctx pr with
              | Some _ => mret ()
              | None => maybe_create_returnn_ctx frames p
              end s (λ _ s1, framed unit_frame s s1) (λ _ _, True)) as Hrec.
  { destruct (rn_returnn_ctx pr); [by wp_steps|].
    eapply (twp_frame unit_frame); [|by apply IH|reflexivity|done..].
    apply frame_maybe_create_returnn_ctx, _. }
  eapply twp_mono; [exact Hrec| |done]. cbn beta. intros _ s1 Hs1.
  destruct (framed_unit_valid s s1 p Hs1) as [pr1 Hpr1]; [done|].
  wp_steps. eapply twp_get_name; [done|]. wp_steps.
  apply twp_assert; [intros _|done]. apply twp_ret, Hnew.
  by eapply framed_unit_valid.
Qed.

Lemma assign_module_safe frames self module s :
  parents_ok s → is_Some (st_names s !! self) → is_Some (st_modules s !! module) →
  assign_module ext frames self module s ≠ Stuck.
Proof.
  intros Hok [r Hr] [me Hme].
  apply (twp_not_stuck _ _ (λ _ _, True) (λ _ _, True)).
  unfold assign_module. wp_steps. eapply twp_get_name; [done|].
  case_bool_decide; [by wp_steps|]. wp_steps.
  eapply twp_mono with (Q := λ _ s', s' = s) (E := λ _ _, True); [|cbn beta|done].
  { destruct (rn_is_subnet r); [by apply twp_assert|].
    wp_steps. apply twp_assert; [intros _|done]. wp_steps. by apply twp_assert. }
  intros _ ? ->. wp_steps.
  eapply twp_modify_name; [done|]. store_simpl. wp_steps.
  eapply twp_modify_module; [done|]. store_simpl. wp_steps.
  match goal with |- twp _ ?st _ _ => set (s2 := st) end.
  eapply twp_mono with (Q := λ _ s', s' = s2) (E := λ _ _, True); [|cbn beta|done].
  { destruct (rn_is_reserved r); [by apply twp_assert|by wp_steps]. }
  intros _ ? ->. subst s2.
  destruct (rn_wrap_to_returnn_enabled r); [|by wp_steps]. wp_steps.
  eapply twp_get_name.
  { store_simpl. apply list_lookup_insert_eq. by eapply lookup_lt_Some. }
  destruct (_ && _); [|by wp_steps]. wp_steps.
  apply twp_assert; [intros _|done].
  apply twp_safe, maybe_create_returnn_ctx_safe.
  - by eapply (parents_ok_insert s self r (set_modules (rn_modules r ++ [module]) r)).
  - store_simpl. rewrite list_lookup_insert_eq by (by eapply lookup_lt_Some). done.
Qed.

Lemma assign_call_safe frames self call ce s :
  parents_ok s → is_Some (st_names s !! self) → st_calls s !! call = Some ce →
  is_Some (st_modules s !! ce_module ce) →
  assign_call ext frames self call s ≠ Stuck.
Proof.
  intros Hok [r Hr] Hce Hme.
  apply (twp_not_stuck _ _ (λ _ _, True) (λ _ _, True)).
  unfold assign_call. wp_steps. eapply twp_get_name; [done|].
  case_bool_decide; [by wp_steps|]. wp_steps.
  eapply twp_get_call; [done|]. wp_steps.
  eapply (twp_frame unit_frame);
    [apply frame_assign_module, _|by apply assign_module_safe|reflexivity| |done].
  intros _ s2 Hs2.
  destruct (framed_unit_valid s s2 self Hs2) as [r2 Hr2]; [done|].
  assert (st_calls s2 !! call = Some ce) as Hce2.
  { destruct Hs2 as (_ & Hc & _). destruct (Hc _ _ Hce) as (ce2 & ? & Heq).
    cbn in Heq. by subst. }
  wp_steps. eapply twp_get_name; [done|]. wp_steps.
  eapply twp_mono with (Q := λ _ s', s' = s2) (E := λ _ _, True); [|cbn beta|done].
  { destruct (rn_is_subnet r2); [by apply twp_assert|].
    wp_steps. apply twp_assert; [intros _|done]. wp_steps. by apply twp_assert. }
  intros _ ? ->. wp_steps. eapply twp_get_call; [done|]. wp_steps.
  apply twp_assert; [intros _|done]. wp_steps.
  eapply twp_modify_call; [done|]. store_simpl. wp_steps.
  by eapply twp_modify_name.
Qed.

Lemma register_sub_call_safe frames self call r ce s :
  parents_ok s → st_names s !! self = Some r → st_calls s !! call = Some ce →
  is_Some (st_modules s !! ce_module ce) →
  register_sub_call ext frames self call s ≠ Stuck.
Proof.
  intros Hok Hr Hce Hme.
  apply (twp_not_stuck _ _ (λ _ _, True) (λ _ _, True)).
  unfold register_sub_call. wp_steps. eapply twp_get_name; [done|]. wp_steps.
  apply twp_assert; [intros _|done]. wp_steps.
  eapply twp_get_call; [done|]. wp_steps.
  unfold _get_unique_name. wp_steps. eapply twp_get_name; [done|].
  destruct (unique_name_spec (rn_childs_by_name r)
              (get_canonical_name ext s (ce_module ce) self))
    as (name & -> & _). wp_steps.
  eapply twp_RegisteredName_init_child; [done..|].
  intros _ _. cbn zeta. wp_steps.
  eapply twp_modify_name; [by apply lookup_snoc_old|]. store_simpl. wp_steps.
  apply lookup_lt_Some in Hr as Hlt.
  apply twp_safe. eapply assign_call_safe; store_simpl; [| |done..].
  - unfold parents_ok. store_simpl. rewrite length_insert, length_app. cbn [length].
    apply Forall_insert.
    + apply Forall_app. split.
      * eapply Forall_impl; [exact Hok|]. cbn beta. intros r'.
        destruct (rn_parent r'); [lia|done].
      * repeat constructor. cbn. lia.
    + cbn. pose proof Hok as Hok'. unfold parents_ok in Hok'.
      rewrite Forall_lookup in Hok'. specialize (Hok' self r Hr).
      destruct (rn_parent r); [lia|done].
  - rewrite list_lookup_insert_ne by lia. rewrite lookup_snoc_new. done.
Qed.

End Safety.

Section RegisterSubCallClaim.

Context (ext : External).

(** C1 (amended).  [register_sub_call] has no merge case: on a scope that
    is a sub-network it allocates a name with [_get_unique_name] (the
    preferred name of the unit, or the first free [preferred_i] when that
    one is taken or reserved) and, unless that name is empty, adds one new
    child under it, whatever is bound to the nodes that exist.  When it
    returns, the child is bound to the call; when [assign_call] raises,
    the child stays in the scope.  The call returns or raises when the
    parents of the nodes and the unit of the call are in the store. *)
Theorem register_sub_call_creates_child frames (s : Store) (self : NameId)
    (call : CallId) (r : RegisteredName) (ce : CallEntry) :
  st_names s !! self = Some r → st_calls s !! call = Some ce →
  rn_is_subnet r = true →
  ∃ name,
    unique_name (rn_childs_by_name r) (get_canonical_name ext s (ce_module ce) self)
      = Some name ∧
    name_free (rn_childs_by_name r) name = true ∧
    match register_sub_call ext frames self call s with
    | Ok child s' =>
        child = length (st_names s) ∧ child_added s s' self name ∧
        ∃ cr, st_names s' !! child = Some cr ∧ rn_calls cr = [call] ∧
              rn_name cr = Some name ∧ rn_parent cr = Some self
    | Raise e s' => (name = "" ∧ s' = s) ∨ child_added s s' self name
    | Stuck => ¬ (parents_ok s ∧ is_Some (st_modules s !! ce_module ce))
    end.
Proof.
  intros Hr Hce Hsub.
  destruct (unique_name_spec (rn_childs_by_name r)
              (get_canonical_name ext s (ce_module ce) self))
    as (name & Hname & Hfree & _).
  exists name. split_and!; [done..|].
  pose proof (wp_register_sub_call ext frames self call s r ce name Hr Hce Hname) as Hwp.
  unfold wp in Hwp.
  destruct (register_sub_call ext frames self call s) as [child s'|e s'|] eqn:Hrun.
  - destruct Hwp as (cr & ? & ? & ? & ? & ? & ? & ?). split_and!; [done..|]. by exists cr.
  - destruct Hwp as [(_ & -> & [?|?])|?]; [congruence|by left|by right].
  - intros [Hok Hme].
    by apply (register_sub_call_safe ext frames self call r ce s Hok Hr Hce Hme).
Qed.

End RegisterSubCallClaim.

(** ** The example session *)

(** C1, witness: the second call of [add] in [net] gets the new child
    [add_1]. *)
Lemma register_sub_call_creates_child_witness :
  ∃ name,
    unique_name [("data", 4); ("data:1", 5); ("add", 6)] "add" = Some name ∧
    name_free [("data", 4); ("data:1", 5); ("add", 6)] name = true ∧
    match register_sub_call demo_ext 8 3 2 second_call_store with
    | Ok child s' =>
        child = 7 ∧ child_added second_call_store s' 3 name ∧
        ∃ cr, st_names s' !! child = Some cr ∧ rn_calls cr = [2] ∧
              rn_name cr = Some name ∧ rn_parent cr = Some 3
    | Raise e s' => (name = "" ∧ s' = second_call_store) ∨
                    child_added second_call_store s' 3 name
    | Stuck => ¬ (parents_ok second_call_store ∧
                  is_Some (st_modules second_call_store !! 1))
    end.
Proof.
  exact (register_sub_call_creates_child demo_ext 8 second_call_store 3 2 _ _
           eq_refl eq_refl eq_refl).
Defined.

(** C1, counterexample: the scope [net] has a bound call, its child [add]
    has a bound call of the unit 1, [add] is the preferred name of the
    unit, and [register_sub_call] for the second call of the unit makes a
    new child all the same. *)
Lemma register_sub_call_merge_counterexample :
  rn_calls <$> st_names second_call_store !! 3 = Some [0] ∧
  rn_calls <$> st_names second_call_store !! 6 = Some [1] ∧
  ce_module <$> st_calls second_call_store !! 1 = Some 1 ∧
  ce_module <$> st_calls second_call_store !! 2 = Some 1 ∧
  get_canonical_name demo_ext second_call_store 1 3 = "add" ∧
  rn_childs_by_name <$> st_names second_call_store !! 3 =
    Some [("data", 4); ("data:1", 5); ("add", 6)] ∧
  register_sub_call demo_ext 8 3 2 second_call_store = Ok 7 reuse_store ∧
  rn_childs_by_name <$> st_names reuse_store !! 3 =
    Some [("data", 4); ("data:1", 5); ("add", 6); ("add_1", 7)].
Proof. by vm_compute. Qed.

(** C2, witness: the second call of the unit 1 is rejected. *)
Lemma apply_call_reuse_rejected_witness :
  apply_call demo_ext 9 2 reuse_store = Raise NotImplementedError reuse_store.
Proof.
  eapply (apply_call_reuse_rejected demo_ext 8 reuse_store 2); [done..|cbn; lia|].
  unfold reaches_reuse_check. do 13 eexists. by split_and!.
Defined.

(** C3, witness: the dump of the node [add], once its call is applied. *)
Lemma dump_primitive_verbatim_witness :
  dump_as_returnn_layer_dict demo_ext 1 applied_store 6 =
    Val (PDict [("class", PStr "combine"); ("kind", PStr "add");
                ("from", PList [PStr "data"; PStr "data:1"])]).
Proof.
  exact (dump_primitive_verbatim demo_ext 0 applied_store 6 _ 1 _
           eq_refl eq_refl eq_refl eq_refl).
Defined.

(** C3, counterexample: before the call of [add] is applied it has no
    description, and the dump of the node returns [None]. *)
Lemma dump_unmaterialized_counterexample :
  rn_calls <$> st_names net_store !! 6 = Some [1] ∧
  has_torch_forward demo_ext 1 = false ∧
  ce_returnn_layer_dict <$> st_calls net_store !! 1 = Some None ∧
  dump_as_returnn_layer_dict demo_ext 8 net_store 6 = Val PNone.
Proof. by vm_compute. Qed.

(** C6, witness: four names are allocated in [net], which has the
    children [data], [data:1] and [add]: they are [add_1], [data_1],
    [add_2] and [x]. *)
Lemma get_unique_name_allocates_witness :
  ∃ names r',
    length names = 4 ∧ length [7; 8; 9; 10] = 4 ∧
    st_names named_store !! 3 = Some r' ∧
    rn_childs_by_name r' =
      [("data", 4); ("data:1", 5); ("add", 6)] ++ zip names [7; 8; 9; 10] ∧
    NoDup names ∧
    Forall (λ n, ¬ (n ∈ ReservedNames) ∧
                 ¬ (n ∈ [("data", 4); ("data:1", 5); ("add", 6)].*1)) names.
Proof.
  destruct (get_unique_name_allocates demo_ext 8 applied_store 3 _ eq_refl) as [_ H].
  apply (H ["add"; "data"; "add"; "x"] [7; 8; 9; 10] named_store).
  by vm_compute.
Defined.

(** C7, witness: the two tensors become the inputs [data] and [data:1] of
    the root. *)
Lemma register_input_slots_witness :
  ∃ slots s',
    map_M (register_input demo_ext 8 0) [0; 1] session_store = Ok slots s' ∧
    ∃ r, st_names session_store !! 0 = Some r ∧
         slots_registered session_store 0 r [0; 1] slots s'.
Proof.
  destruct (register_input_slots demo_ext 8 session_store 0 _ [0; 1] eq_refl eq_refl)
    as (slots & s' & Hrun & Hslots).
  - intros _. eexists. split; [reflexivity|]. by eexists.
  - repeat constructor; by eexists.
  - intros i Hi. cbn. apply not_elem_of_nil.
  - exists slots, s'. split; [done|]. eexists. by split.
Defined.

(** C7, counterexample: without graph materialization the slot is made,
    the scope has no context, and no context is told. *)
Lemma register_input_unwrapped_counterexample :
  ∃ s', register_input demo_ext 8 0 0 plain_store = Ok 1 s' ∧
    rn_name <$> st_names s' !! 1 = Some (Some "data") ∧
    rn_inputs <$> st_names s' !! 0 = Some [1] ∧
    rn_returnn_ctx <$> st_names s' !! 0 = Some None ∧
    st_ctxs s' = [].
Proof. eexists. by vm_compute. Qed.

(** C8, witness: with graph materialization the second [set_outputs]
    fails. *)
Lemma set_outputs_only_once_witness :
  set_outputs 0 (OutSeq [100]) session_store = Ok () outputs_store ∧
  set_outputs 0 (OutSeq [101]) outputs_store = Raise AssertionError outputs_store.
Proof.
  assert (set_outputs 0 (OutSeq [100]) session_store = Ok () outputs_store) as Hfirst
    by (by vm_compute).
  split; [done|].
  by apply (set_outputs_only_once session_store outputs_store 0 (OutSeq [100])).
Defined.

(** C8, counterexample: without graph materialization [set_outputs]
    returns the second time as well. *)
Lemma set_outputs_twice_counterexample :
  nm_wrap_to_returnn_enabled (st_naming plain_store) = false ∧
  ∃ s1 s2, set_outputs 0 (OutSeq [100]) plain_store = Ok () s1 ∧
           set_outputs 0 (OutSeq [101]) s1 = Ok () s2.
Proof. split; [done|]. do 2 eexists. by vm_compute. Qed.

(** C9 on the example: the call 0 is running; the output of [net] is
    registered with an engine that constructs the copy layer, and with one
    that refuses it. *)
Example register_returnn_subnet_output_returns :
  ∃ s', register_returnn_subnet_output demo_ext 8 3 2 running_store = Ok 7 s' ∧
        call_stack running_store = [0] ∧ call_stack s' = [0].
Proof. eexists. by vm_compute. Qed.

Example register_returnn_subnet_output_raises :
  ∃ s', register_returnn_subnet_output failing_ext 8 3 2 running_store
          = Raise ExternalError s' ∧
        call_stack running_store = [0] ∧ call_stack s' = [0].
Proof. eexists. by vm_compute. Qed.

(** C10: the same tensor is registered twice as an input of the root; the
    second call returns as well, and the slots [data] and [data:1] both
    hold the tensor. *)
Theorem register_input_same_tensor_twice :
  ∃ s', map_M (register_input demo_ext 8 0) [0; 0] session_store = Ok [1; 2] s' ∧
    rn_inputs <$> st_names s' !! 0 = Some [1; 2] ∧
    rn_name <$> st_names s' !! 1 = Some (Some "data") ∧
    rn_name <$> st_names s' !! 2 = Some (Some "data:1") ∧
    rn_tensor <$> st_names s' !! 1 = Some (Some 0) ∧
    rn_tensor <$> st_names s' !! 2 = Some (Some 0).
Proof. eexists. by vm_compute. Qed.

(** * Further properties of the two modules *)

(** ** Absolute names *)

Lemma string_app_assoc (a b c : string) : (a +:+ b) +:+ c = a +:+ (b +:+ c).
Proof.
  induction a as [|x a IH]; [done|].
  change (String x ((a +:+ b) +:+ c) = String x (a +:+ (b +:+ c))). by rewrite IH.
Qed.

Lemma str_join_snoc sep l x :
  l ≠ [] → str_join sep (l ++ [x]) = str_join sep l +:+ (sep +:+ x).
Proof.
  induction l as [|y l IH]; [done|]. intros _.
  destruct l as [|z l]; [done|].
  change (str_join sep ((y :: z :: l) ++ [x]))
    with (y +:+ (sep +:+ str_join sep ((z :: l) ++ [x]))).
  rewrite IH by done.
  change (str_join sep (y :: z :: l)) with (y +:+ (sep +:+ str_join sep (z :: l))).
  by rewrite !string_app_assoc.
Qed.

Lemma absolute_name_loop_acc n s : ∀ name_ acc0 l,
  absolute_name_loop n s name_ acc0 = Some (Val l) →
  ∃ l0, l = l0 ++ acc0 ∧
    ∀ acc, absolute_name_loop n s name_ acc = Some (Val (l0 ++ acc)).
Proof.
  induction n as [|n IH]; intros name_ acc0 l; cbn; [done|].
  destruct (st_names s !! name_) as [r|]; [|done].
  destruct (rn_parent r) as [p|].
  - intros (l0 & -> & Hl0)%IH. exists (l0 ++ [rn_name r]).
    rewrite <-app_assoc. split; [done|]. intros acc.
    rewrite <-app_assoc. apply Hl0.
  - intros [= <-]. by exists [].
Qed.

Lemma absolute_name_loop_root n s name_ r l :
  st_names s !! name_ = Some r →
  absolute_name_loop n s name_ [] = Some (Val l) →
  match rn_parent r with
  | None => l = []
  | Some _ => l ≠ []
  end.
Proof.
  intros Hr. destruct n as [|n]; cbn; [done|]. rewrite Hr.
  destruct (rn_parent r) as [p|]; [|by intros [= <-]].
  intros (l0 & -> & _)%absolute_name_loop_acc. by destruct l0.
Qed.

(** X1.  The absolute name of a node with a parent is built from that
    of the parent: it is the name of the node when the parent is the root,
    and the absolute name of the parent, a slash and the name of the node
    otherwise (the root itself gives no component). *)
Theorem get_absolute_name_child n (s : Store) (self p : NameId)
    (r pr : RegisteredName) (name path : string) :
  st_names s !! self = Some r → rn_parent r = Some p → rn_name r = Some name →
  st_names s !! p = Some pr →
  get_absolute_name n s p = Some (Val path) →
  get_absolute_name (S n) s self =
    Some (Val (match rn_parent pr with
               | None => name
               | Some _ => path +:+ ("/" +:+ name)
               end)).
Proof.
  intros Hr Hp Hname Hpr. unfold get_absolute_name. cbn [absolute_name_loop].
  rewrite Hr, Hp, Hname.
  destruct (absolute_name_loop n s p []) as [[l| |]|] eqn:Hloop; cbn; try done.
  pose proof (absolute_name_loop_root _ _ _ _ _ Hpr Hloop) as Hroot.
  destruct (absolute_name_loop_acc _ _ _ _ _ Hloop) as (l0 & Hl0 & Hacc).
  rewrite app_nil_r in Hl0. subst l0. rewrite Hacc. cbn.
  destruct (rn_parent pr) as [q|].
  - destruct l as [|x l]; [done|]. unfold join_names at 1.
    destruct (mapM id (x :: l)) as [strs|] eqn:Hstrs; [|done].
    intros [= <-]. unfold join_names.
    change ((x :: l) ++ [Some name]) with (x :: (l ++ [Some name])).
    change (x :: (l ++ [Some name])) with ((x :: l) ++ [Some name]).
    assert (mapM id ((x :: l) ++ [Some name]) = Some (strs ++ [name])) as ->.
    { apply mapM_Some. apply Forall2_app; [by apply mapM_Some|]. by constructor. }
    cbn [app]. rewrite <-str_join_snoc; [done|].
    apply mapM_Some in Hstrs. by inversion Hstrs.
  - subst l. by intros _.
Qed.

Lemma absolute_name_loop_named s : ∀ name_ acc,
  named_tree s → name_ < length (st_names s) → Forall is_Some acc →
  ∃ l, Forall is_Some l ∧
    ∀ n, name_ < n → absolute_name_loop n s name_ acc = Some (Val l).
Proof.
  intros name_. induction (lt_wf name_) as [name_ _ IH].
  intros acc Htree Hlt Hacc.
  destruct (lookup_lt_is_Some_2 _ _ Hlt) as [r Hr].
  pose proof (Htree _ _ Hr) as Hnode.
  destruct (rn_parent r) as [p|] eqn:Hparent.
  - destruct Hnode as [Hp Hname].
    destruct (IH p Hp (rn_name r :: acc)) as (l & Hl & Hloop); [done|lia|by constructor|].
    exists l. split; [done|]. intros [|n] Hn; [lia|]. cbn. rewrite Hr, Hparent.
    apply Hloop. lia.
  - exists acc. split; [done|]. intros [|n] Hn; [lia|]. cbn. by rewrite Hr, Hparent.
Qed.

(** X2.  In a store where every node with a parent is younger than the
    parent and has a name, the loop of [get_absolute_name] ends for every
    node and the method returns a path, without exception. *)
Theorem get_absolute_name_returns (s : Store) (self : NameId) :
  named_tree s → self < length (st_names s) →
  ∃ path, ∀ n, self < n → get_absolute_name n s self = Some (Val path).
Proof.
  intros Htree Hlt. unfold get_absolute_name.
  destruct (absolute_name_loop_named s self [] Htree Hlt) as (l & Hl & Hloop);
    [constructor|].
  assert (∃ path, join_names l = Val path) as [path Hpath].
  { unfold join_names. destruct l as [|x l]; [by exists ""|].
    destruct (mapM_is_Some_2 id (x :: l)) as [strs ->]; [|by eexists].
    eapply Forall_impl; [exact Hl|]. done. }
  exists path. intros n Hn. rewrite Hloop by done. cbn. by rewrite Hpath.
Qed.

(** ** The child of a unit *)

Lemma find_name_for_module_loop_first s module items :
  match find_name_for_module_loop s module items with
  | Val (Some name) =>
      ∃ i child cr, items !! i = Some (name, child) ∧
        st_names s !! child = Some cr ∧ module ∈ rn_modules cr ∧
        ∀ j kc cr', j < i → items !! j = Some kc →
          st_names s !! kc.2 = Some cr' → module ∉ rn_modules cr'
  | Val None =>
      ∀ kc, kc ∈ items → ∃ cr, st_names s !! kc.2 = Some cr ∧ module ∉ rn_modules cr
  | Exc _ => False
  | Dangling => ∃ kc, kc ∈ items ∧ st_names s !! kc.2 = None
  end.
Proof.
  induction items as [|[name child] items IH]; cbn.
  - by intros kc ?%elem_of_nil.
  - destruct (st_names s !! child) as [cr|] eqn:Hcr.
    2:{ exists (name, child). split; [left|done]. }
    case_bool_decide as Hin.
    { exists 0, child, cr. split_and!; try done. intros j kc cr' Hj. lia. }
    destruct (find_name_for_module_loop s module items) as [[name'|]| |].
    + destruct IH as (i & child' & cr' & Hi & Hcr' & Hin' & Hfirst).
      exists (S i), child', cr'. split_and!; try done.
      intros [|j] kc cr'' Hj Hkc Hcr''; cbn in Hkc.
      * injection Hkc as <-. cbn in Hcr''. by simplify_eq.
      * eapply Hfirst; [|done..]. lia.
    + intros kc [->|Hkc]%elem_of_cons; [by exists cr|by apply IH].
    + done.
    + destruct IH as (kc & Hkc & Hnone). exists kc. split; [by right|done].
Qed.

(** X3.  On a sub-network [find_name_for_module] never raises: it
    returns the key of the first child, in the order of [childs_by_name],
    that has the unit among its modules, and [None] exactly when no child
    has it. *)
Theorem find_name_for_module_first (s : Store) (self : NameId) (r : RegisteredName)
    (module : ModId) :
  st_names s !! self = Some r → rn_is_subnet r = true →
  match find_name_for_module s self module with
  | Val (Some name) =>
      ∃ i child cr, rn_childs_by_name r !! i = Some (name, child) ∧
        st_names s !! child = Some cr ∧ module ∈ rn_modules cr ∧
        ∀ j kc cr', j < i → rn_childs_by_name r !! j = Some kc →
          st_names s !! kc.2 = Some cr' → module ∉ rn_modules cr'
  | Val None =>
      ∀ kc, kc ∈ rn_childs_by_name r →
        ∃ cr, st_names s !! kc.2 = Some cr ∧ module ∉ rn_modules cr
  | Exc _ => False
  | Dangling => ∃ kc, kc ∈ rn_childs_by_name r ∧ st_names s !! kc.2 = None
  end.
Proof.
  intros Hr Hsub. unfold find_name_for_module. rewrite Hr, Hsub.
  apply find_name_for_module_loop_first.
Qed.

(** ** The root of a call *)

Lemma get_root_call_spec n s : ∀ entry root,
  get_root_call n s entry = Some (Val root) →
  (∃ ce, st_calls s !! root = Some ce ∧ ce_parent_call ce = None) ∧
  ∀ m, 0 < m → get_root_call m s root = Some (Val root).
Proof.
  induction n as [|n IH]; intros entry root; cbn; [done|].
  destruct (st_calls s !! entry) as [ce|] eqn:Hce; [|done].
  destruct (ce_parent_call ce) as [p|] eqn:Hp; [by apply IH|].
  intros [= <-]. split; [by exists ce|].
  intros [|m] Hm; [lia|]. cbn. by rewrite Hce, Hp.
Qed.

(** X4.  When parent calls are older than their children,
    [get_root_call] returns for every call of the store; the result is an
    ancestor of the call (or the call itself), has no parent call, and is
    its own root. *)
Theorem get_root_call_chain (s : Store) (entry : CallId) :
  (∀ c p, parent_call_of s c p → p < c) → entry < length (st_calls s) →
  ∃ root, (∀ n, entry < n → get_root_call n s entry = Some (Val root)) ∧
    rtc (parent_call_of s) entry root ∧
    (∃ ce, st_calls s !! root = Some ce ∧ ce_parent_call ce = None) ∧
    ∀ n, 0 < n → get_root_call n s root = Some (Val root).
Proof.
  intros Holder. induction (lt_wf entry) as [entry _ IH]. intros Hlt.
  destruct (lookup_lt_is_Some_2 _ _ Hlt) as [ce Hce].
  destruct (ce_parent_call ce) as [p|] eqn:Hp.
  - assert (parent_call_of s entry p) as Hlink by (by exists ce).
    pose proof (Holder _ _ Hlink) as Hlt'.
    destruct (IH p Hlt') as (root & Hroot & Hchain & Hnone & Hidem); [lia|].
    exists root. split_and!; try done.
    + intros [|n] Hn; [lia|]. cbn. rewrite Hce, Hp. apply Hroot. lia.
    + by eapply rtc_l.
  - exists entry. split_and!.
    + intros [|n] Hn; [lia|]. cbn. by rewrite Hce, Hp.
    + done.
    + by exists ce.
    + intros [|n] Hn; [lia|]. cbn. by rewrite Hce, Hp.
Qed.

(** ** Creation of contexts *)

Lemma set_returnn_ctx_id r : set_returnn_ctx (rn_returnn_ctx r) r = r.
Proof. by destruct r. Qed.

#[global] Instance ctx_only_preorder : PreOrder ctx_only.
Proof.
  split.
  - intros s. split_and!; try done; [|by exists []; rewrite app_nil_r].
    apply Forall2_same_length_lookup. split; [done|].
    intros i r r' Hr Hr'. simplify_eq. by rewrite set_returnn_ctx_id.
  - intros s1 s2 s3 (Hn & Hc & Hm & Ht & [new Hx] & Hg) (Hn' & Hc' & Hm' & Ht' & [new' Hx'] & Hg').
    split_and!; try congruence.
    + eapply Forall2_trans; [|done..]. cbn. intros r1 r2 r3 -> ->. done.
    + exists (new ++ new'). rewrite Hx', Hx. by rewrite app_assoc.
Qed.

Lemma ctx_only_lookup s s' n r :
  ctx_only s s' → st_names s !! n = Some r →
  ∃ r', st_names s' !! n = Some r' ∧ r' = set_returnn_ctx (rn_returnn_ctx r') r.
Proof.
  intros (Hn & _) Hr. by destruct (Forall2_lookup_l _ _ _ _ _ Hn Hr) as (r' & ? & ?); eauto.
Qed.

Lemma ctx_only_lookup_inv s s' n r' :
  ctx_only s s' → st_names s' !! n = Some r' →
  ∃ r, st_names s !! n = Some r ∧ r' = set_returnn_ctx (rn_returnn_ctx r') r.
Proof.
  intros (Hn & _) Hr. by destruct (Forall2_lookup_r _ _ _ _ _ Hn Hr) as (r & ? & ?); eauto.
Qed.

Lemma ctx_only_set_ctx s n r v :
  st_names s !! n = Some r →
  ctx_only s (with_names (<[n := set_returnn_ctx v r]> (st_names s)) s).
Proof.
  intros Hr. split_and!; try done; [|by exists []; rewrite app_nil_r].
  cbn. apply Forall2_same_length_lookup. split; [by rewrite length_insert|].
  intros i r1 r2 Hr1 Hr2. destruct (decide (i = n)) as [->|Hne].
  - rewrite list_lookup_insert_eq in Hr2 by (by eapply lookup_lt_Some). by simplify_eq.
  - rewrite list_lookup_insert_ne in Hr2 by done. simplify_eq. by rewrite set_returnn_ctx_id.
Qed.

Lemma ctx_only_new_ctx s c : ctx_only s (with_ctxs (st_ctxs s ++ [c]) s).
Proof.
  split_and!; try done; [|by exists [c]].
  cbn. apply Forall2_same_length_lookup. split; [done|].
  intros i r1 r2 Hr1 Hr2. simplify_eq. by rewrite set_returnn_ctx_id.
Qed.

Section CtxOnly.
Context (ext : External).

Lemma wp_maybe_create_ctx_only frames : ∀ self s,
  wp (maybe_create_returnn_ctx frames self) s
    (λ _ s', ctx_only s s' ∧
       ∃ r', st_names s' !! self = Some r' ∧ is_Some (rn_returnn_ctx r'))
    (λ _ s', s' = s).
Proof.
  induction frames as [|frames IH]; intros self s; cbn [maybe_create_returnn_ctx].
  - by wp_steps.
  - wp_steps. apply wp_get_name; intros r Hr. wp_steps.
    apply wp_assert; [intros _|done]. wp_steps.
    apply wp_assert; [intros _|done]. wp_steps.
    destruct (rn_returnn_ctx r) eqn:Hctx.
    { wp_steps. split; [reflexivity|]. exists r. by rewrite Hctx. }
    wp_steps.
    assert (∀ parent_ctx s1, ctx_only s s1 →
              wp (ReturnnContext_new parent_ctx (rn_name r)
                  ≫= λ c, modify_name self (set_returnn_ctx (Some c))) s1
                (λ _ s', ctx_only s s' ∧
                   ∃ r', st_names s' !! self = Some r' ∧ is_Some (rn_returnn_ctx r'))
                (λ _ s', s' = s)) as Hnew.
    { intros parent_ctx s1 Hs1. unfold ReturnnContext_new. wp_steps.
      apply wp_modify_name; store_simpl; intros r1 Hr1. split.
      - etrans; [done|]. etrans; [apply ctx_only_new_ctx|].
        by apply (ctx_only_set_ctx (with_ctxs (st_ctxs s1 ++ [_]) s1)).
      - eexists. split; [apply list_lookup_insert_eq; by eapply lookup_lt_Some|done]. }
    destruct (rn_parent r) as [p|].
    2:{ apply wp_bind, wp_ret. by apply Hnew. }
    wp_steps. apply wp_get_name; intros pr Hpr. wp_steps.
    eapply wp_mono with
      (Q := λ _ s', ctx_only s s' ∧
              ∃ pr', st_names s' !! p = Some pr' ∧ is_Some (rn_returnn_ctx pr'))
      (E := λ _ s', s' = s); [|cbn beta|done].
    { destruct (rn_returnn_ctx pr) eqn:Hpctx; [|by apply IH].
      wp_steps. split; [reflexivity|]. exists pr. by rewrite Hpctx. }
    intros _ s1 (Hs1 & pr1 & Hpr1 & Hpctx1). wp_steps.
    apply wp_get_name; intros pr1' Hpr1'. simplify_eq. wp_steps.
    apply wp_assert; [intros _|]. 2:{ by rewrite bool_decide_eq_true_2. }
    apply wp_ret. by apply Hnew.
Qed.
End CtxOnly.

Lemma parents_older_ok s : parents_older s → parents_ok s.
Proof.
  intros Holder. unfold parents_ok. apply Forall_lookup. intros n r Hr.
  destruct (rn_parent r) as [p|] eqn:Hp; [|done].
  pose proof (Holder _ _ _ Hr Hp). apply lookup_lt_Some in Hr. lia.
Qed.

Section CtxTree.
Context (ext : External).

Lemma wp_maybe_create_ctx_tree frames : ∀ self s,
  parents_older s → ctx_tree_ok s →
  wp (maybe_create_returnn_ctx frames self) s
    (λ _ s', ctx_only s s' ∧ ctx_tree_ok s' ∧
       (∀ n, self < n → st_names s' !! n = st_names s !! n) ∧
       ∃ r', st_names s' !! self = Some r' ∧ is_Some (rn_returnn_ctx r'))
    (λ _ s', s' = s).
Proof.
  induction frames as [|frames IH]; intros self s Holder Htree;
    cbn [maybe_create_returnn_ctx].
  - by wp_steps.
  - wp_steps. apply wp_get_name; intros r Hr. wp_steps.
    apply wp_assert; [intros _|done]. wp_steps.
    apply wp_assert; [intros _|done]. wp_steps.
    destruct (rn_returnn_ctx r) eqn:Hctx.
    { wp_steps. split_and!; [reflexivity|done|done|]. exists r. by rewrite Hctx. }
    wp_steps.
    (* the creation of the context of [self], after that of its ancestors *)
    assert (∀ parent_ctx s1,
              ctx_only s s1 → ctx_tree_ok s1 → st_names s1 !! self = Some r →
              (∀ n, self < n → st_names s1 !! n = st_names s !! n) →
              match rn_parent r with
              | Some p => ∃ pr1, st_names s1 !! p = Some pr1 ∧
                                 rn_returnn_ctx pr1 = parent_ctx ∧ is_Some parent_ctx
              | None => parent_ctx = None
              end →
              wp (ReturnnContext_new parent_ctx (rn_name r)
                  ≫= λ c, modify_name self (set_returnn_ctx (Some c))) s1
                (λ _ s', ctx_only s s' ∧ ctx_tree_ok s' ∧
                   (∀ n, self < n → st_names s' !! n = st_names s !! n) ∧
                   ∃ r', st_names s' !! self = Some r' ∧ is_Some (rn_returnn_ctx r'))
                (λ _ s', s' = s)) as Hnew.
    { intros parent_ctx s1 Hs1 Htree1 Hr1 Habove Hparent.
      unfold ReturnnContext_new. wp_steps.
      apply wp_modify_name; store_simpl; intros r1 Hr1'. simplify_eq.
      apply lookup_lt_Some in Hr1 as Hlt1.
      split_and!.
      - etrans; [done|]. etrans; [apply ctx_only_new_ctx|].
        by apply (ctx_only_set_ctx (with_ctxs (st_ctxs s1 ++ [_]) s1)).
      - intros n rn cn Hrn Hcn. cbn in Hrn. cbn [st_ctxs].
        destruct (decide (n = self)) as [->|Hne].
        + rewrite list_lookup_insert_eq in Hrn by done. injection Hrn as <-.
          cbn in Hcn. injection Hcn as <-. rewrite lookup_snoc_new.
          eexists. split; [done|]. cbn. split; [done|].
          destruct (rn_parent r) as [p|] eqn:Hp; [|done].
          destruct Hparent as (pr1 & Hpr1 & <- & [pc Hpc]).
          exists pr1, pc. split_and!; [|done|by rewrite Hpc]. cbn [st_names].
          rewrite list_lookup_insert_ne; [done|].
          pose proof (Holder _ _ _ Hr Hp). lia.
        + rewrite list_lookup_insert_ne in Hrn by done.
          destruct (Htree1 _ _ _ Hrn Hcn) as (cx & Hcx & Hname & Hpar).
          exists cx. split_and!; [by apply lookup_snoc_old|done|].
          destruct (rn_parent rn) as [p'|]; [|done].
          destruct Hpar as (pr' & pc' & Hpr' & Hpc' & Hcp).
          exists pr', pc'. split_and!; [|done..]. cbn [st_names].
          rewrite list_lookup_insert_ne; [done|]. intros <-. simplify_eq.
      - intros n Hn. cbn. rewrite list_lookup_insert_ne by lia. by apply Habove.
      - eexists. split; [apply list_lookup_insert_eq; by eapply lookup_lt_Some|done]. }
    destruct (rn_parent r) as [p|] eqn:Hp.
    2:{ apply wp_bind, wp_ret. by apply Hnew. }
    pose proof (Holder _ _ _ Hr Hp) as Hlt.
    wp_steps. apply wp_get_name; intros pr Hpr. wp_steps.
    eapply wp_mono with
      (Q := λ _ s', ctx_only s s' ∧ ctx_tree_ok s' ∧
              (∀ n, p < n → st_names s' !! n = st_names s !! n) ∧
              ∃ pr', st_names s' !! p = Some pr' ∧ is_Some (rn_returnn_ctx pr'))
      (E := λ _ s', s' = s); [|cbn beta|done].
    { destruct (rn_returnn_ctx pr) eqn:Hpctx; [|by apply IH].
      wp_steps. split_and!; [reflexivity|done|done|]. exists pr. by rewrite Hpctx. }
    intros _ s1 (Hs1 & Htree1 & Habove & pr1 & Hpr1 & Hpctx1). wp_steps.
    apply wp_get_name; intros pr1' Hpr1'. simplify_eq. wp_steps.
    apply wp_assert; [intros _|]. 2:{ by rewrite bool_decide_eq_true_2. }
    apply wp_ret. apply Hnew; try done.
    + by rewrite Habove.
    + intros n Hn. apply Habove. lia.
    + by exists pr1.
Qed.

(** X5.  In a store where parents are older than their children and
    the contexts mirror the tree, [maybe_create_returnn_ctx] on a node of
    the store creates contexts and changes nothing else, keeps the contexts
    mirroring the tree, and leaves the node with a context; when it raises
    (the assertion on a primitive node), the store is unchanged. *)
Theorem maybe_create_returnn_ctx_tree frames (s : Store) (self : NameId) :
  parents_older s → ctx_tree_ok s → self < length (st_names s) →
  match maybe_create_returnn_ctx frames self s with
  | Ok _ s' =>
      ctx_only s s' ∧ ctx_tree_ok s' ∧
      ∃ r', st_names s' !! self = Some r' ∧ is_Some (rn_returnn_ctx r')
  | Raise _ s' => s' = s
  | Stuck => False
  end.
Proof.
  intros Holder Htree Hlt.
  pose proof (wp_maybe_create_ctx_tree frames self s Holder Htree) as Hwp.
  pose proof (maybe_create_returnn_ctx_safe frames self s (parents_older_ok s Holder)
                (lookup_lt_is_Some_2 _ _ Hlt)) as Hsafe.
  unfold wp in Hwp. destruct (maybe_create_returnn_ctx frames self s); [|done|done].
  destruct Hwp as (? & ? & _ & ?). done.
Qed.
End CtxTree.

(** ** The effect of a binding *)

Section Assigned.
Context (ext : External).

Lemma wp_assign_module_assigned frames self m s :
  wp (assign_module ext frames self m) s
    (λ _ s', (s' = s ∧ ∃ r, st_names s !! self = Some r ∧ m ∈ rn_modules r) ∨
             module_assigned ext self m s s')
    (λ _ s', s' = s ∨ module_assigned ext self m s s').
Proof.
  unfold assign_module. wp_steps. apply wp_get_name; intros r Hr.
  case_bool_decide as Hin; [wp_steps; left; by eauto|]. wp_steps.
  eapply wp_mono with
    (Q := λ _ s', s' = s ∧ has_torch_forward ext m = rn_is_subnet r ∧
                  (rn_is_subnet r = false → rn_modules r = []))
    (E := λ _ s', s' = s); [|cbn beta|by left].
  { destruct (rn_is_subnet r).
    - apply wp_assert; [done|done].
    - wp_steps. apply wp_assert; [intros Hm%bool_decide_eq_true|done]. wp_steps.
      apply wp_assert; [intros Hf%negb_true_iff|done]. done. }
  intros _ ? (-> & Hkind & Hprim). wp_steps.
  apply wp_modify_name; store_simpl; intros r' Hr'. simplify_eq. wp_steps.
  apply wp_modify_module; store_simpl; intros me Hme. wp_steps.
  change {| st_names := _; st_calls := _; st_modules := _; st_tensors := _;
            st_ctxs := _; st_naming := _ |} with (with_module s self r m me).
  set (s1 := with_module s self r m me).
  assert (∀ s2, ctx_only s1 s2 → module_assigned ext self m s s2) as Hdone.
  { intros s2 Hs2. by exists r, me. }
  eapply wp_mono with (Q := λ _ s', s' = s1) (E := λ _ s', s' = s1); [|cbn beta|].
  { destruct (rn_is_reserved r); [by apply wp_assert|by wp_steps]. }
  2:{ intros _ ? ->. right. by apply Hdone. }
  intros _ ? ->.
  destruct (rn_wrap_to_returnn_enabled r); [|wp_steps; right; by apply Hdone].
  wp_steps. apply wp_get_name; intros r1 Hr1.
  destruct (_ && _); [|wp_steps; right; by apply Hdone]. wp_steps.
  apply wp_assert; [intros _|intros _; right; by apply Hdone].
  eapply wp_mono; [apply wp_maybe_create_ctx_only|..]; cbn beta.
  - intros _ s2 [Hs2 _]. right. by apply Hdone.
  - intros _ ? ->. right. by apply Hdone.
Qed.

Lemma module_assigned_calls self m s s' :
  module_assigned ext self m s s' → st_calls s' = st_calls s.
Proof. intros (r & me & _ & _ & _ & _ & _ & (_ & Hc & _)). by rewrite Hc. Qed.

Lemma module_assigned_lookup self m s s' :
  module_assigned ext self m s s' →
  ∃ r r', st_names s !! self = Some r ∧ st_names s' !! self = Some r' ∧
    r' = set_returnn_ctx (rn_returnn_ctx r') (set_modules (rn_modules r ++ [m]) r).
Proof.
  intros (r & me & Hr & _ & _ & _ & _ & Hs'). exists r.
  assert (st_names (with_module s self r m me) !! self =
            Some (set_modules (rn_modules r ++ [m]) r)) as H1.
  { cbn. apply list_lookup_insert_eq. by eapply lookup_lt_Some. }
  destruct (ctx_only_lookup _ _ _ _ Hs' H1) as (r' & Hr' & Heq). by exists r'.
Qed.

Lemma wp_assign_call_bound frames self call s :
  wp (assign_call ext frames self call) s
    (λ _ s', (s' = s ∧ ∃ r, st_names s !! self = Some r ∧ call ∈ rn_calls r) ∨
             call_bound ext self call s s')
    (λ _ s', s' = s ∨
             ∃ ce, st_calls s !! call = Some ce ∧
                   module_assigned ext self (ce_module ce) s s').
Proof.
  unfold assign_call. wp_steps. apply wp_get_name; intros r Hr.
  case_bool_decide as Hin; [wp_steps; left; by eauto|]. wp_steps.
  apply wp_get_call; intros ce Hce. wp_steps.
  eapply wp_mono; [apply wp_assign_module_assigned| |]; cbn beta.
  2:{ intros _ s1 [->|Hs1]; [by left|right; by exists ce]. }
  intros _ s1 Hs1.
  assert (s1 = s ∨ module_assigned ext self (ce_module ce) s s1) as Hs1'.
  { destruct Hs1 as [[-> _]|?]; [by left|by right]. }
  assert (st_calls s1 = st_calls s) as Hcalls1.
  { destruct Hs1' as [->|?]; [done|by eapply module_assigned_calls]. }
  assert (∃ r1, st_names s1 !! self = Some r1 ∧ rn_calls r1 = rn_calls r ∧
                rn_is_subnet r1 = rn_is_subnet r ∧ ce_module ce ∈ rn_modules r1)
    as (r1 & Hr1 & Hcalls & Hsub & Hmod).
  { destruct Hs1 as [[-> (r0 & ? & ?)]|Hs1]; [exists r; by simplify_eq|].
    destruct (module_assigned_lookup _ _ _ _ Hs1) as (r0 & r1 & ? & Hr1 & Heq).
    simplify_eq. exists r1. split; [done|]. rewrite Heq. cbn. split_and!; try done.
    apply elem_of_app. right. left. }
  assert (s1 = s ∨ ∃ ce, st_calls s !! call = Some ce ∧
            module_assigned ext self (ce_module ce) s s1) as HE.
  { destruct Hs1' as [->|?]; [by left|right; by exists ce]. }
  wp_steps. apply wp_get_name; intros r1' Hr1'. simplify_eq. wp_steps.
  eapply wp_mono with
    (Q := λ _ s', s' = s1 ∧ has_torch_forward ext (ce_module ce) = rn_is_subnet r1 ∧
                  (rn_is_subnet r1 = false → rn_calls r1 = []))
    (E := λ _ s', s' = s1); [|cbn beta|].
  { destruct (rn_is_subnet r1).
    - apply wp_assert; [done|done].
    - wp_steps. apply wp_assert; [intros Hm%bool_decide_eq_true|done]. wp_steps.
      apply wp_assert; [intros Hf%negb_true_iff|done]. done. }
  2:{ by intros e ? ->. }
  intros _ ? (-> & Hkind & Hprim). wp_steps.
  apply wp_get_call; intros ce1 Hce1. rewrite Hcalls1 in Hce1. simplify_eq. wp_steps.
  apply wp_assert; [|done].
  intros Hns%negb_true_iff%bool_decide_eq_false. wp_steps.
  apply wp_modify_call; store_simpl; intros ce1 Hce1. rewrite Hcalls1 in Hce1.
  simplify_eq. wp_steps.
  apply wp_modify_name; store_simpl; intros r1' Hr1'. simplify_eq.
  right. exists ce, s1, r1. split_and!; try done.
  - destruct (ce_namespace ce); [|done]. by destruct Hns.
  - by rewrite Hcalls.
Qed.

End Assigned.

Section Kinds.
Context (ext : External).

Lemma assign_call_bound_already frames self call s r :
  st_names s !! self = Some r → call ∈ rn_calls r →
  assign_call ext frames self call s = Ok () s.
Proof.
  intros Hr Hin. unfold assign_call.
  change ((get_name self ≫= ?f) s) with (M_bind f (get_name self) s).
  unfold M_bind, get_name. rewrite Hr. by rewrite bool_decide_eq_true_2.
Qed.

(** X6.  [assign_call] is idempotent: once it has returned, the same
    call on the same node returns again and changes nothing. *)
Theorem assign_call_idempotent frames frames' (s s1 : Store) (self : NameId)
    (call : CallId) :
  assign_call ext frames self call s = Ok () s1 →
  assign_call ext frames' self call s1 = Ok () s1.
Proof.
  intros Hrun.
  destruct (wp_ok _ _ _ _ _ _ (wp_assign_call_bound ext frames self call s) Hrun)
    as [[-> (r & Hr & Hin)]|(ce & s0 & r1 & Hce & _ & _ & Hr1 & _ & _ & _ & _ & ->)].
  - by eapply assign_call_bound_already.
  - eapply assign_call_bound_already.
    + cbn. apply list_lookup_insert_eq. by eapply lookup_lt_Some.
    + cbn. apply elem_of_app. right. left.
Qed.

(** X7.  A primitive node that has a unit and a call takes no other
    call: [assign_call] with another call of the store fails its assertion
    and changes nothing. *)
Theorem assign_call_primitive_taken frames (s : Store) (self : NameId) (call : CallId)
    (r : RegisteredName) :
  st_names s !! self = Some r → rn_is_subnet r = false →
  rn_calls r ≠ [] → rn_modules r ≠ [] → call ∉ rn_calls r →
  is_Some (st_calls s !! call) →
  assign_call ext frames self call s = Raise AssertionError s.
Proof.
  intros Hr Hsub Hcalls Hmods Hin [ce Hce].
  assert (twp (assign_call ext frames self call) s (λ _ _, False)
            (λ e s', e = AssertionError ∧ s' = s)) as Htwp.
  { unfold assign_call. wp_steps. eapply twp_get_name; [done|].
    rewrite bool_decide_eq_false_2 by done. wp_steps.
    eapply twp_get_call; [done|]. wp_steps.
    unfold assign_module. wp_steps. eapply twp_get_name; [done|].
    rewrite Hsub. case_bool_decide.
    - wp_steps. eapply twp_get_name; [done|]. rewrite Hsub. wp_steps.
      apply twp_assert; [intros Hc%bool_decide_eq_true; done|done].
    - wp_steps. apply twp_assert; [intros Hc%bool_decide_eq_true; done|done]. }
  unfold twp in Htwp. destruct (assign_call ext frames self call s); [done| |done].
  by destruct Htwp as [-> ->].
Qed.

(** X8.  A call that has a namespace is never bound to another node:
    when the node does not hold the call already, [assign_call] raises, and
    neither the calls nor the list of calls of the node have changed. *)
Theorem assign_call_never_rebinds frames (s : Store) (self : NameId) (call : CallId)
    (r : RegisteredName) (ce : CallEntry) :
  parents_ok s → st_names s !! self = Some r → call ∉ rn_calls r →
  st_calls s !! call = Some ce → is_Some (ce_namespace ce) →
  is_Some (st_modules s !! ce_module ce) →
  ∃ e s', assign_call ext frames self call s = Raise e s' ∧
    st_calls s' = st_calls s ∧
    ∃ r', st_names s' !! self = Some r' ∧ rn_calls r' = rn_calls r.
Proof.
  intros Hok Hr Hin Hce [ns Hns] Hme.
  pose proof (wp_assign_call_bound ext frames self call s) as Hwp.
  pose proof (assign_call_safe ext frames self call ce s Hok
                (mk_is_Some _ _ Hr) Hce Hme) as Hsafe.
  unfold wp in Hwp.
  destruct (assign_call ext frames self call s) as [u s'|e s'|]; [exfalso| |done].
  - destruct Hwp as [[-> (r0 & ? & ?)]|(ce0 & ? & ? & ? & ? & _)];
      simplify_eq; congruence.
  - exists e, s'. split; [done|].
    destruct Hwp as [->|(ce0 & ? & Hs')]; [by eauto|]. simplify_eq.
    split; [by eapply module_assigned_calls|].
    destruct (module_assigned_lookup _ _ _ _ _ Hs') as (r0 & r' & ? & Hr' & Heq).
    simplify_eq. exists r'. split; [done|]. by rewrite Heq.
Qed.

Lemma kinds_ok_ctx_only s s' : ctx_only s s' → kinds_ok ext s → kinds_ok ext s'.
Proof.
  intros Hs' Hk n r' Hr'.
  destruct (ctx_only_lookup_inv _ _ _ _ Hs' Hr') as (r & Hr & Heq).
  destruct Hs' as (_ & Hc & _). rewrite Hc, Heq. cbn. by apply Hk.
Qed.

Lemma kinds_ok_with_module s self r m me :
  kinds_ok ext s → st_names s !! self = Some r →
  has_torch_forward ext m = rn_is_subnet r →
  (rn_is_subnet r = false → rn_modules r = []) →
  kinds_ok ext (with_module s self r m me).
Proof.
  intros Hk Hr Hkind Hprim n rn Hrn. cbn in Hrn. cbn [with_module st_calls with_modules with_names].
  destruct (decide (n = self)) as [->|Hne].
  - rewrite list_lookup_insert_eq in Hrn by (by eapply lookup_lt_Some).
    injection Hrn as <-. cbn. destruct (Hk _ _ Hr) as (Hm & Hc & Hp). split_and!.
    + intros m' [?| ->%list_elem_of_singleton]%elem_of_app; [by apply Hm|done].
    + intros c Hin. destruct (Hc c Hin) as (ce & ? & ? & ?). exists ce.
      split_and!; try done. apply elem_of_app. by left.
    + intros Hsub. rewrite (Hprim Hsub). split; [done|]. by apply Hp.
  - rewrite list_lookup_insert_ne in Hrn by done. by apply Hk.
Qed.

Lemma kinds_ok_with_call s self r call ce :
  kinds_ok ext s → st_names s !! self = Some r → st_calls s !! call = Some ce →
  ce_namespace ce = None → call ∉ rn_calls r → ce_module ce ∈ rn_modules r →
  (rn_is_subnet r = false → rn_calls r = []) →
  kinds_ok ext (with_call s self r call ce).
Proof.
  intros Hk Hr Hce Hns Hin Hmod Hprim n rn Hrn. cbn in Hrn.
  cbn [with_call st_calls with_calls with_names].
  assert (∀ n' r' c, st_names s !! n' = Some r' → c ∈ rn_calls r' → c ≠ call) as Hother.
  { intros n' r' c Hr' Hc ->. destruct (Hk _ _ Hr') as (_ & Hcs & _).
    destruct (Hcs _ Hc) as (ce' & ? & ? & _). by simplify_eq. }
  destruct (decide (n = self)) as [->|Hne].
  - rewrite list_lookup_insert_eq in Hrn by (by eapply lookup_lt_Some).
    injection Hrn as <-. cbn. destruct (Hk _ _ Hr) as (Hm & Hc & Hp). split_and!.
    + done.
    + intros c [Hc'| ->%list_elem_of_singleton]%elem_of_app.
      * rewrite list_lookup_insert_ne by (intros <-; done). by apply Hc.
      * rewrite list_lookup_insert_eq by (by eapply lookup_lt_Some).
        eexists. by split_and!.
    + intros Hsub. rewrite (Hprim Hsub). split; [by apply Hp|done].
  - rewrite list_lookup_insert_ne in Hrn by done.
    destruct (Hk _ _ Hrn) as (Hm & Hc & Hp). split_and!; try done.
    intros c Hc'. rewrite list_lookup_insert_ne; [by apply Hc|].
    intros <-. by eapply Hother.
Qed.

Lemma kinds_ok_module_assigned self m s s' :
  module_assigned ext self m s s' → kinds_ok ext s → kinds_ok ext s'.
Proof.
  intros (r & me & Hr & Hme & _ & Hkind & Hprim & Hs') Hk.
  eapply kinds_ok_ctx_only; [done|]. by apply kinds_ok_with_module.
Qed.

(** X9.  [assign_call] keeps the bindings consistent (the units of a
    node are of its kind, its calls point back to it and are calls of its
    units, a primitive node has one unit and one call at most), whether it
    returns or raises; when it returns, the call is bound to the node.
    (Nothing is said of a run that meets a reference outside the store.) *)
Theorem assign_call_keeps_kinds frames (s : Store) (self : NameId) (call : CallId) :
  kinds_ok ext s →
  match assign_call ext frames self call s with
  | Ok _ s' => kinds_ok ext s' ∧
      ∃ r' ce', st_names s' !! self = Some r' ∧ call ∈ rn_calls r' ∧
                st_calls s' !! call = Some ce' ∧ ce_namespace ce' = Some self
  | Raise _ s' => kinds_ok ext s'
  | Stuck => True
  end.
Proof.
  intros Hk. pose proof (wp_assign_call_bound ext frames self call s) as Hwp.
  unfold wp in Hwp. destruct (assign_call ext frames self call s) as [u s'|e s'|];
    [|destruct Hwp as [->|(ce & _ & Hs')]; [done|by eapply kinds_ok_module_assigned]
     |done].
  destruct Hwp as [[-> (r & Hr & Hin)]|
                   (ce & s1 & r1 & Hce & Hns & Hs1 & Hr1 & Hin & Hmod & Hkind & Hprim & ->)].
  - split; [done|]. destruct (Hk _ _ Hr) as (_ & Hc & _).
    destruct (Hc _ Hin) as (ce & ? & ? & _). by exists r, ce.
  - assert (kinds_ok ext s1 ∧ st_calls s1 = st_calls s) as [Hk1 Hcalls1].
    { destruct Hs1 as [->|Hs1]; [done|].
      split; [by eapply kinds_ok_module_assigned|by eapply module_assigned_calls]. }
    split.
    + apply kinds_ok_with_call; try done. by rewrite Hcalls1.
    + eexists _, _. cbn. split_and!.
      * apply list_lookup_insert_eq. by eapply lookup_lt_Some.
      * cbn. apply elem_of_app. right. left.
      * apply list_lookup_insert_eq. rewrite Hcalls1. by eapply lookup_lt_Some.
      * done.
Qed.
End Kinds.

(** ** The tensor of a node *)

Lemma list_remove_first_elem `{EqDecision A} (x : A) (l : list A) :
  x ∈ l → ∃ l', list_remove_first x l = Some l' ∧
    ∀ y, y ≠ x → y ∈ l → y ∈ l'.
Proof.
  induction l as [|z l IH]; [by intros ?%elem_of_nil|].
  intros Hin. cbn. destruct (decide (z = x)) as [->|Hne].
  - exists l. split; [done|]. intros y Hy [->|?]%elem_of_cons; done.
  - apply elem_of_cons in Hin as [->|Hin]; [done|].
    destruct (IH Hin) as (l' & -> & Hl'). exists (z :: l'). split; [done|].
    intros y Hy [->|?]%elem_of_cons; [left|right; by apply Hl'].
Qed.

(** X10.  [assign_tensor] always returns on a node and a tensor of the
    store; it keeps the invariant that the tensor of a node lists the node
    among its names, the tensor is then the tensor of the node, and the
    node is the last name of the tensor. *)
Theorem assign_tensor_links (s : Store) (self : NameId) (tensor : TensorId) :
  tensor_links_ok s → self < length (st_names s) → tensor < length (st_tensors s) →
  ∃ s', assign_tensor self tensor s = Ok () s' ∧ tensor_links_ok s' ∧
    ∃ r' te', st_names s' !! self = Some r' ∧ rn_tensor r' = Some tensor ∧
              st_tensors s' !! tensor = Some te' ∧ last (te_names te') = Some (Some self).
Proof.
  intros Hlinks Hself Htensor.
  destruct (lookup_lt_is_Some_2 _ _ Hself) as [r Hr].
  cut (twp (assign_tensor self tensor) s
         (λ _ s', tensor_links_ok s' ∧
            ∃ r' te', st_names s' !! self = Some r' ∧ rn_tensor r' = Some tensor ∧
              st_tensors s' !! tensor = Some te' ∧
              last (te_names te') = Some (Some self))
         (λ _ _, False)).
  { intros ([] & s' & Hrun & Hs')%twp_returns. by exists s'. }
  unfold assign_tensor. wp_steps. eapply twp_get_name; [done|]. apply twp_bind.
  (* the store after the old tensor has lost the name *)
  eapply twp_mono with
    (Q := λ _ s1, st_names s1 = st_names s ∧ length (st_tensors s1) = length (st_tensors s) ∧
            ∀ n rn t, n ≠ self → st_names s !! n = Some rn → rn_tensor rn = Some t →
              ∃ te, st_tensors s1 !! t = Some te ∧ Some n ∈ te_names te)
    (E := λ _ _, False); [|cbn beta|done].
  { destruct (rn_tensor r) as [old|] eqn:Hold.
    - destruct (Hlinks _ _ _ Hr Hold) as (te & Hte & Hin).
      wp_steps. eapply twp_get_tensor; [done|].
      destruct (list_remove_first_elem _ _ Hin) as (l & -> & Hl).
      eapply twp_modify_tensor; [done|]. store_simpl.
      split_and!; [done|by rewrite length_insert|].
      intros n rn t Hne Hrn Ht. destruct (Hlinks _ _ _ Hrn Ht) as (te' & Hte' & Hin').
      destruct (decide (t = old)) as [->|Hneq].
      + simplify_eq. rewrite list_lookup_insert_eq by (by eapply lookup_lt_Some).
        eexists. split; [done|]. cbn. apply Hl; [|done]. congruence.
      + rewrite list_lookup_insert_ne by done. by exists te'.
    - wp_steps. split_and!; [done..|]. intros n rn t _ Hrn Ht. by eapply Hlinks. }
  intros _ s1 (Hnames & Hlen & Hothers). wp_steps.
  eapply twp_modify_name; [by rewrite Hnames|]. store_simpl. wp_steps.
  destruct (lookup_lt_is_Some_2 (st_tensors s1) tensor) as [te Hte]; [lia|].
  eapply twp_modify_tensor; [done|]. store_simpl.
  split.
  - intros n rn t Hrn Ht. cbn in Hrn. cbn [st_tensors]. rewrite Hnames in Hrn.
    destruct (decide (n = self)) as [->|Hne].
    + rewrite list_lookup_insert_eq in Hrn by done. injection Hrn as <-.
      cbn in Ht. injection Ht as <-.
      rewrite list_lookup_insert_eq by (by eapply lookup_lt_Some).
      eexists. split; [done|]. cbn. apply elem_of_app. right. left.
    + rewrite list_lookup_insert_ne in Hrn by done.
      destruct (Hothers _ _ _ Hne Hrn Ht) as (te' & Hte' & Hin').
      destruct (decide (t = tensor)) as [->|Hneq].
      * simplify_eq. rewrite list_lookup_insert_eq by (by eapply lookup_lt_Some).
        eexists. split; [done|]. cbn. apply elem_of_app. by left.
      * rewrite list_lookup_insert_ne by done. by exists te'.
  - eexists _, _. cbn. rewrite Hnames. split_and!.
    + by apply list_lookup_insert_eq.
    + done.
    + apply list_lookup_insert_eq. by eapply lookup_lt_Some.
    + cbn. by rewrite last_snoc.
Qed.

(** ** The names of a tensor *)

Lemma name_for_tensor_loop_sound s self childs names name :
  name_for_tensor_loop s self childs names = Val name →
  ∃ i n nr, names !! i = Some (Some n) ∧ st_names s !! n = Some nr ∧
    rn_parent nr = Some self ∧ rn_name nr = Some name ∧
    dict_get name childs = Some n ∧
    ∀ j, j < i → ∃ n' nr', names !! j = Some (Some n') ∧
      st_names s !! n' = Some nr' ∧ rn_parent nr' ≠ Some self.
Proof.
  induction names as [|[n|] names IH]; cbn; [done| |done].
  destruct (st_names s !! n) as [nr|] eqn:Hnr; [|done].
  case_bool_decide as Hparent.
  - destruct (rn_name nr) as [k|] eqn:Hk; cbn; [|done].
    destruct (dict_get k childs) as [c|] eqn:Hc; [|done].
    case_bool_decide as Heq; [|done]. intros [= <-]. subst c.
    exists 0, n, nr. split_and!; try done. intros j Hj. lia.
  - intros (i & n' & nr' & Hi & ? & ? & ? & ? & Hfirst)%IH.
    exists (S i), n', nr'. split_and!; try done.
    intros [|j] Hj; [by exists n, nr|]. apply Hfirst. lia.
Qed.

(** X11.  When [name_for_tensor] returns a name, the scope is a
    sub-network, the name is the key of a child of the scope, that child is
    a name of the tensor, and every earlier name of the tensor has another
    parent. *)
Theorem name_for_tensor_sound (s : Store) (self : NameId) (tensor : TensorId)
    (name : string) :
  name_for_tensor s self tensor = Val name →
  ∃ r te i n nr,
    st_names s !! self = Some r ∧ rn_is_subnet r = true ∧
    st_tensors s !! tensor = Some te ∧ te_names te !! i = Some (Some n) ∧
    st_names s !! n = Some nr ∧ rn_parent nr = Some self ∧ rn_name nr = Some name ∧
    dict_get name (rn_childs_by_name r) = Some n ∧
    ∀ j, j < i → ∃ n' nr', te_names te !! j = Some (Some n') ∧
      st_names s !! n' = Some nr' ∧ rn_parent nr' ≠ Some self.
Proof.
  unfold name_for_tensor.
  destruct (st_names s !! self) as [r|] eqn:Hr; [|done].
  destruct (st_tensors s !! tensor) as [te|] eqn:Hte; [|done].
  destruct (rn_is_subnet r) eqn:Hsub; [|done].
  intros (i & n & nr & ? & ? & ? & ? & ? & ?)%name_for_tensor_loop_sound.
  exists r, te, i, n, nr. by split_and!.
Qed.

Lemma name_for_tensor_loop_skip s self childs names names' :
  Forall (λ on, ∃ n nr, on = Some n ∧ st_names s !! n = Some nr ∧
                        rn_parent nr ≠ Some self) names →
  name_for_tensor_loop s self childs (names ++ names') =
    name_for_tensor_loop s self childs names'.
Proof.
  induction 1 as [|on names (n & nr & -> & Hnr & Hp) _ IH]; [done|].
  cbn. rewrite Hnr. by rewrite bool_decide_eq_false_2.
Qed.

Lemma dict_get_snoc_fresh {V} k (v : V) d :
  k ∉ d.*1 → dict_get k (d ++ [(k, v)]) = Some v.
Proof.
  induction d as [|[k' v'] d IH]; cbn.
  - intros _. by rewrite decide_True.
  - intros [Hne Hk]%not_elem_of_cons. rewrite decide_False by done. by apply IH.
Qed.

Section InputNames.
Context (ext : External).

(** X12.  After [register_input] has registered a tensor whose earlier
    names belong to other scopes, [name_for_tensor] of the scope finds the
    tensor under the name of the new slot. *)
Theorem register_input_name_for_tensor frames (s : Store) (self : NameId)
    (tensor : TensorId) (r : RegisteredName) (te : TensorEntry) :
  st_names s !! self = Some r → st_tensors s !! tensor = Some te →
  rn_is_subnet r = true →
  slot_name (length (rn_inputs r)) ∉ (rn_childs_by_name r).*1 →
  (rn_wrap_to_returnn_enabled r = true →
   ∃ ctx, rn_returnn_ctx r = Some ctx ∧ is_Some (st_ctxs s !! ctx)) →
  Forall (λ on, ∃ n nr, on = Some n ∧ st_names s !! n = Some nr ∧
                        rn_parent nr ≠ Some self) (te_names te) →
  ∃ slot s', register_input ext frames self tensor s = Ok slot s' ∧
    name_for_tensor s' self tensor = Val (slot_name (length (rn_inputs r))).
Proof.
  intros Hr Hte Hsub Hfree Hctx Hnames. apply twp_returns.
  apply lookup_lt_Some in Hr as Hlt.
  set (s1 := with_slot s self r tensor te).
  assert (∀ s', st_names s' = st_names s1 → st_tensors s' = st_tensors s1 →
            name_for_tensor s' self tensor = Val (slot_name (length (rn_inputs r))))
    as Hfound.
  { intros s' Hn Ht. unfold name_for_tensor. rewrite Hn, Ht. unfold s1, with_slot.
    store_simpl.
    rewrite list_lookup_insert_eq by (rewrite length_app; lia).
    rewrite list_lookup_insert_eq by (by eapply lookup_lt_Some).
    cbn [rn_is_subnet set_inputs set_childs_by_name]. rewrite Hsub.
    cbn [te_names set_te_names rn_childs_by_name set_inputs set_childs_by_name].
    assert (∀ n, n < length (st_names s) →
              rn_parent <$> st_names s' !! n = rn_parent <$> st_names s !! n) as Hold.
    { intros n Hn'. rewrite Hn. unfold s1, with_slot. store_simpl.
      destruct (decide (n = self)) as [->|Hne].
      - rewrite list_lookup_insert_eq by (rewrite length_app; lia). by rewrite Hr.
      - rewrite list_lookup_insert_ne by done. by rewrite lookup_app_l. }
    rewrite name_for_tensor_loop_skip.
    2:{ eapply Forall_impl; [exact Hnames|]. cbn beta.
        intros on (n & nr & -> & Hnr & Hp). apply lookup_lt_Some in Hnr as Hn'.
        specialize (Hold n Hn'). rewrite Hnr in Hold. cbn in Hold.
        destruct (st_names s' !! n) as [nr'|] eqn:Hnr'; [|done].
        injection Hold as Hold. exists n, nr'. rewrite Hold. done. }
    cbn [name_for_tensor_loop]. rewrite Hn. unfold s1, with_slot. store_simpl.
    rewrite list_lookup_insert_ne by lia. rewrite lookup_snoc_new.
    cbn [child_record rn_parent rn_name]. rewrite bool_decide_eq_true_2 by done.
    cbn. rewrite dict_get_snoc_fresh by done. by rewrite bool_decide_eq_true_2. }
  eapply twp_register_input; try done. cbn zeta. fold s1.
  destruct (rn_wrap_to_returnn_enabled r).
  - destruct Hctx as (ctx & -> & [c Hc]); [done|]. exists c. split; [done|].
    by apply Hfound.
  - by apply Hfound.
Qed.
End InputNames.

(** ** The tree of the nodes *)

#[global] Instance same_tree_preorder : PreOrder same_tree.
Proof.
  split.
  - intros s. apply Forall2_same_length_lookup. split; [done|].
    intros i r r' Hr Hr'. by simplify_eq.
  - intros s1 s2 s3 H12 H23. eapply Forall2_trans; [|done..]. cbn.
    intros r1 r2 r3 (?&?&?&?&?) (?&?&?&?&?). split_and!; congruence.
Qed.

Lemma same_tree_insert s n r r' :
  st_names s !! n = Some r →
  rn_childs_by_name r' = rn_childs_by_name r → rn_parent r' = rn_parent r →
  rn_name r' = rn_name r → rn_is_subnet r' = rn_is_subnet r →
  rn_inputs r' = rn_inputs r →
  ∀ s', st_names s' = <[n := r']> (st_names s) → same_tree s s'.
Proof.
  intros Hr ? ? ? ? ? s' Hs'. unfold same_tree. rewrite Hs'.
  apply Forall2_same_length_lookup. split; [by rewrite length_insert|].
  intros i r1 r2 Hr1 Hr2. destruct (decide (i = n)) as [->|Hne].
  - rewrite list_lookup_insert_eq in Hr2 by (by eapply lookup_lt_Some). by simplify_eq.
  - rewrite list_lookup_insert_ne in Hr2 by done. by simplify_eq.
Qed.

Lemma ctx_only_same_tree s s' : ctx_only s s' → same_tree s s'.
Proof.
  intros (Hn & _). eapply Forall2_impl; [exact Hn|]. cbn. by intros r r' ->.
Qed.

Lemma tree_ok_same_tree s s' : tree_ok s → same_tree s s' → tree_ok s'.
Proof.
  intros Hok Hs' n r' Hr'.
  destruct (Forall2_lookup_r _ _ _ _ _ Hs' Hr') as (r & Hr & Hc & Hp & Hn & Hsub & Hi).
  rewrite Hc, Hp, Hn, Hsub, Hi. destruct (Hok _ _ Hr) as (H1 & H2 & H3 & H4 & H5).
  split_and!; try done.
  intros k c Hkc. destruct (H4 _ _ Hkc) as (cr & Hcr & Hk & Hpar).
  destruct (Forall2_lookup_l _ _ _ _ _ Hs' Hcr) as (cr' & Hcr' & _ & Hp' & Hn' & _).
  exists cr'. split_and!; congruence.
Qed.

Lemma tree_ok_add_child s s' self r name cr r' :
  tree_ok s → st_names s !! self = Some r → rn_is_subnet r = true →
  name ∉ (rn_childs_by_name r).*1 → name ≠ "" →
  rn_parent cr = Some self → rn_name cr = Some name →
  rn_childs_by_name cr = [] → rn_inputs cr = [] →
  rn_childs_by_name r' = rn_childs_by_name r ++ [(name, length (st_names s))] →
  rn_parent r' = rn_parent r → rn_name r' = rn_name r →
  rn_is_subnet r' = rn_is_subnet r →
  (∀ i, i ∈ rn_inputs r' → i ∈ rn_inputs r ∨ i = length (st_names s)) →
  st_names s' = <[self := r']> (st_names s ++ [cr]) →
  tree_ok s'.
Proof.
  intros Hok Hr Hsub Hfresh Hne Hcp Hcn Hcc Hci Hchilds Hpar Hname Hsub' Hinputs Hs'.
  apply lookup_lt_Some in Hr as Hlt.
  assert (∀ c crec, c ≠ self → st_names s !! c = Some crec →
            st_names s' !! c = Some crec) as Hold.
  { intros c crec Hc Hcrec. rewrite Hs', list_lookup_insert_ne by done.
    by apply lookup_app_l_Some. }
  assert (st_names s' !! self = Some r') as Hself.
  { rewrite Hs'. apply list_lookup_insert_eq. rewrite length_app. lia. }
  assert (∀ c crec, st_names s !! c = Some crec →
            ∃ crec', st_names s' !! c = Some crec' ∧ rn_name crec' = rn_name crec ∧
                     rn_parent crec' = rn_parent crec) as Hkeep.
  { intros c crec Hcrec. destruct (decide (c = self)) as [->|Hc].
    - exists r'. simplify_eq. done.
    - exists crec. split; [by apply Hold|done]. }
  intros n rn Hrn. rewrite Hs' in Hrn.
  destruct (decide (n = self)) as [->|Hn].
  - rewrite list_lookup_insert_eq in Hrn by (rewrite length_app; lia).
    injection Hrn as <-. destruct (Hok _ _ Hr) as (H1 & H2 & H3 & H4 & H5).
    rewrite Hchilds, Hpar, Hname, Hsub'. split_and!.
    + done.
    + congruence.
    + rewrite fmap_app. apply NoDup_app. split_and!; [done| |apply NoDup_singleton].
      intros k Hk ->%list_elem_of_singleton. done.
    + intros k c [Hkc|Hkc%list_elem_of_singleton]%elem_of_app.
      * destruct (H4 _ _ Hkc) as (crec & Hcrec & ? & ?).
        destruct (Hkeep _ _ Hcrec) as (crec' & ? & ? & ?). exists crec'.
        split_and!; congruence.
      * injection Hkc as -> ->. exists cr. split_and!; [|done..].
        rewrite Hs', list_lookup_insert_ne by lia. apply lookup_snoc_new.
    + intros i Hi. rewrite fmap_app. apply elem_of_app.
      destruct (Hinputs i Hi) as [Hi'| ->]; [left; by apply H5|right; left].
  - rewrite list_lookup_insert_ne in Hrn by done.
    apply lookup_app_Some in Hrn as [Hrn|[Hge Hrn]].
    + destruct (Hok _ _ Hrn) as (H1 & H2 & H3 & H4 & H5). split_and!; try done.
      intros k c Hkc. destruct (H4 _ _ Hkc) as (crec & Hcrec & ? & ?).
      destruct (Hkeep _ _ Hcrec) as (crec' & ? & ? & ?). exists crec'.
      split_and!; congruence.
    + apply list_lookup_singleton_Some in Hrn as [Hn' <-].
      rewrite Hcp, Hcn, Hcc, Hci. split_and!.
      * intros p [= <-]. split; [lia|]. cbn. by rewrite bool_decide_eq_false_2.
      * done.
      * constructor.
      * by intros k c ?%elem_of_nil.
      * by intros i ?%elem_of_nil.
Qed.

Section Tree.
Context (ext : External).

Lemma module_assigned_same_tree self m s s' :
  module_assigned ext self m s s' → same_tree s s'.
Proof.
  intros (r & me & Hr & _ & _ & _ & _ & Hs'). etrans; [|by apply ctx_only_same_tree].
  by eapply (same_tree_insert s self r (set_modules (rn_modules r ++ [m]) r)).
Qed.

Lemma call_bound_same_tree self call s s' :
  call_bound ext self call s s' → same_tree s s'.
Proof.
  intros (ce & s1 & r1 & _ & _ & Hs1 & Hr1 & _ & _ & _ & _ & ->).
  etrans; [|by eapply (same_tree_insert s1 self r1 (set_calls (rn_calls r1 ++ [call]) r1))].
  destruct Hs1 as [->|Hs1]; [reflexivity|by eapply module_assigned_same_tree].
Qed.

Lemma tree_ok_with_child s self r name is_subnet :
  tree_ok s → st_names s !! self = Some r → rn_is_subnet r = true →
  name_free (rn_childs_by_name r) name = true → name ≠ "" →
  tree_ok (with_child s self r name (child_record r self name None false is_subnet)).
Proof.
  intros Hok Hr Hsub [Hfresh _]%name_free_true Hne.
  eapply (tree_ok_add_child s _ self r name (child_record r self name None false is_subnet)
            (set_childs_by_name (rn_childs_by_name r ++ [(name, length (st_names s))]) r));
    try done.
  intros i Hi. by left.
Qed.

(** X13.  [register_sub_net] keeps the tree of the nodes well formed;
    it returns the new node, a sub-network without children that is the
    last child of the scope, or fails an assertion and leaves the store
    unchanged. *)
Theorem register_sub_net_keeps_tree frames (s : Store) (self : NameId)
    (suggested_name : string) :
  tree_ok s → self < length (st_names s) →
  match register_sub_net ext frames self suggested_name s with
  | Ok child s' =>
      tree_ok s' ∧ child = length (st_names s) ∧
      ∃ r' cr name, st_names s' !! self = Some r' ∧ st_names s' !! child = Some cr ∧
        last (rn_childs_by_name r') = Some (name, child) ∧
        rn_is_subnet cr = true ∧ rn_childs_by_name cr = []
  | Raise e s' => e = AssertionError ∧ s' = s
  | Stuck => False
  end.
Proof.
  intros Hok Hlt. destruct (lookup_lt_is_Some_2 _ _ Hlt) as [r Hr].
  change (twp (register_sub_net ext frames self suggested_name) s
            (λ child s', tree_ok s' ∧ child = length (st_names s) ∧
               ∃ r' cr name, st_names s' !! self = Some r' ∧
                 st_names s' !! child = Some cr ∧
                 last (rn_childs_by_name r') = Some (name, child) ∧
                 rn_is_subnet cr = true ∧ rn_childs_by_name cr = [])
            (λ e s', e = AssertionError ∧ s' = s)).
  unfold register_sub_net. wp_steps. eapply twp_get_name; [done|]. wp_steps.
  apply twp_assert; [intros Hsub|done]. wp_steps.
  unfold _get_unique_name. wp_steps. eapply twp_get_name; [done|].
  destruct (unique_name_spec (rn_childs_by_name r) suggested_name)
    as (name & -> & Hfree & _). wp_steps.
  eapply twp_RegisteredName_init_child; [done|done|].
  intros Hne _. cbn zeta. wp_steps.
  eapply twp_modify_name; [by apply lookup_snoc_old|]. store_simpl. wp_steps.
  apply name_free_true in Hfree as Hfree'. destruct Hfree' as [Hfresh _].
  rewrite dict_set_fresh by done.
  change {| st_names := _; st_calls := _; st_modules := _; st_tensors := _;
            st_ctxs := _; st_naming := _ |}
    with (with_child s self r name (child_record r self name None false true)).
  split_and!; [by apply tree_ok_with_child|done|].
  eexists _, _, name. split_and!.
  - by apply with_child_lookup.
  - by apply with_child_lookup_child.
  - cbn. by rewrite last_snoc.
  - done.
  - done.
Qed.

Lemma wp_register_sub_call_bound frames self call s :
  wp (register_sub_call ext frames self call) s
    (λ child s', child = length (st_names s) ∧
       ∃ s1 name, sub_call_registered ext self call s s1 name ∧
                  call_bound ext child call s1 s')
    (λ e s', s' = s ∨
       ∃ s1 name, sub_call_registered ext self call s s1 name ∧
         (s' = s1 ∨ ∃ m, module_assigned ext (length (st_names s)) m s1 s')).
Proof.
  unfold register_sub_call. wp_steps.
  apply wp_get_name; intros r Hr. wp_steps.
  apply wp_assert; intros Hsub; [|by left]. wp_steps.
  apply wp_get_call; intros ce Hce. wp_steps.
  apply wp_get_unique_name; intros r' name Hr' Hname Hfree. simplify_eq. wp_steps.
  apply wp_RegisteredName_init_child; [by left|].
  intros pr Hpr Hne _. simplify_eq. cbn zeta. wp_steps.
  apply wp_modify_name; store_simpl; intros r' Hr'. snoc_lookup Hr'. wp_steps.
  apply name_free_true in Hfree as Hfree'. destruct Hfree' as [Hfresh _].
  rewrite dict_set_fresh by done.
  set (child_rec := child_record r self name None false _).
  change {| st_names := _; st_calls := _; st_modules := _; st_tensors := _;
            st_ctxs := _; st_naming := _ |}
    with (with_child s self r name child_rec).
  assert (sub_call_registered ext self call s (with_child s self r name child_rec) name)
    as Hreg by (by exists r, ce).
  eapply wp_mono; [apply wp_assign_call_bound|..]; cbn beta.
  - intros _ s' Hs'. wp_steps. split; [done|]. eexists _, name. split; [done|].
    destruct Hs' as [[-> (cr & Hcr & Hin)]|Hs']; [|done].
    rewrite with_child_lookup_child in Hcr by done. injection Hcr as <-.
    by apply elem_of_nil in Hin.
  - intros _ s' Hs'. right. eexists _, name. split; [done|].
    destruct Hs' as [->|(ce1 & _ & Hs')]; [by left|right; by eexists].
Qed.

Lemma sub_call_registered_tree self call s s1 name :
  tree_ok s → sub_call_registered ext self call s s1 name → tree_ok s1.
Proof. intros Hok (r & ce & Hr & Hsub & _ & Hfree & Hne & ->). by apply tree_ok_with_child. Qed.

(** X14.  [register_sub_call] keeps the tree of the nodes well formed,
    whether it returns or raises, and returns the new node. *)
Theorem register_sub_call_keeps_tree frames (s : Store) (self : NameId)
    (call : CallId) (ce : CallEntry) :
  tree_ok s → self < length (st_names s) → st_calls s !! call = Some ce →
  is_Some (st_modules s !! ce_module ce) →
  match register_sub_call ext frames self call s with
  | Ok child s' => tree_ok s' ∧ child = length (st_names s)
  | Raise e s' => tree_ok s'
  | Stuck => False
  end.
Proof.
  intros Hok Hlt Hce Hme. destruct (lookup_lt_is_Some_2 _ _ Hlt) as [r Hr].
  assert (parents_ok s) as Hpok.
  { unfold parents_ok. apply Forall_lookup. intros n rn Hrn.
    destruct (rn_parent rn) as [p|] eqn:Hp; [|done].
    destruct (Hok _ _ Hrn) as (H1 & _). destruct (H1 _ Hp) as [? _].
    apply lookup_lt_Some in Hrn. lia. }
  pose proof (register_sub_call_safe ext frames self call r ce s Hpok Hr Hce Hme) as Hsafe.
  pose proof (wp_register_sub_call_bound frames self call s) as Hwp. unfold wp in Hwp.
  destruct (register_sub_call ext frames self call s) as [child s'|e s'|]; [| |done].
  - destruct Hwp as (-> & s1 & name & Hreg & Hs'). split; [|done].
    eapply tree_ok_same_tree; [by eapply sub_call_registered_tree|].
    by eapply call_bound_same_tree.
  - destruct Hwp as [->|(s1 & name & Hreg & [->|[m Hs']])]; [done| |].
    + by eapply sub_call_registered_tree.
    + eapply tree_ok_same_tree; [by eapply sub_call_registered_tree|].
      by eapply module_assigned_same_tree.
Qed.

(** X15.  [register_input] keeps the tree of the nodes well formed,
    whether it returns or raises, and returns the new node. *)
Theorem register_input_keeps_tree frames (s : Store) (self : NameId)
    (tensor : TensorId) (r : RegisteredName) :
  tree_ok s → st_names s !! self = Some r → tensor < length (st_tensors s) →
  (∀ ctx, rn_returnn_ctx r = Some ctx → ctx < length (st_ctxs s)) →
  match register_input ext frames self tensor s with
  | Ok slot s' => tree_ok s' ∧ slot = length (st_names s)
  | Raise e s' => tree_ok s'
  | Stuck => False
  end.
Proof.
  intros Hok Hr Htensor Hctx.
  destruct (lookup_lt_is_Some_2 _ _ Htensor) as [te Hte].
  change (twp (register_input ext frames self tensor) s
            (λ slot s', tree_ok s' ∧ slot = length (st_names s)) (λ _ s', tree_ok s')).
  unfold register_input. wp_steps. eapply twp_get_name; [done|]. wp_steps.
  apply twp_assert; [intros Hsub|done]. wp_steps.
  apply twp_assert; [intros _|done]. wp_steps.
  fold (slot_name (length (rn_inputs r))). fold (slot_key (length (rn_inputs r))).
  apply twp_assert; [|done].
  intros Hfree%negb_true_iff%bool_decide_eq_false. wp_steps.
  eapply twp_RegisteredName_init_child; [done|done|].
  intros Hne _. cbn zeta. exists te. split; [done|]. wp_steps.
  apply lookup_lt_Some in Hr as Hlt.
  eapply twp_modify_name; [by apply lookup_snoc_old|]. store_simpl. wp_steps.
  eapply twp_modify_name.
  { apply list_lookup_insert_eq. rewrite length_app. lia. }
  store_simpl. rewrite list_insert_insert_eq. wp_steps.
  rewrite dict_set_fresh by done. cbn [rn_inputs set_childs_by_name].
  assert (∀ s', st_names s' =
            <[self := set_inputs (rn_inputs r ++ [length (st_names s)])
                        (set_childs_by_name
                           (rn_childs_by_name r ++
                              [(slot_name (length (rn_inputs r)), length (st_names s))]) r)]>
              (st_names s ++
                 [child_record r self (slot_name (length (rn_inputs r))) (Some tensor)
                    true false]) →
            tree_ok s') as Hdone.
  { intros s'. apply (tree_ok_add_child s s' self r (slot_name (length (rn_inputs r))));
      try done.
    cbn. intros i [?| ->%list_elem_of_singleton]%elem_of_app; [by left|by right]. }
  destruct (rn_wrap_to_returnn_enabled r); [|wp_steps; split; [by apply Hdone|done]].
  wp_steps. eapply twp_get_name.
  { apply list_lookup_insert_eq. rewrite length_app. lia. }
  wp_steps. cbn [rn_returnn_ctx set_inputs set_childs_by_name].
  destruct (rn_returnn_ctx r) as [ctx|]; cbn [attr_of]; [|wp_steps; by apply Hdone].
  destruct (lookup_lt_is_Some_2 (st_ctxs s) ctx) as [c Hc]; [by apply Hctx|].
  wp_steps. unfold define_input.
  eapply twp_modify_ctx; [done|]. store_simpl. wp_steps.
  split; [by apply Hdone|done].
Qed.
End Tree.

(** ** The name of a registered unit *)

Lemma find_name_for_module_loop_app s m items items' :
  find_name_for_module_loop s m (items ++ items') =
    match find_name_for_module_loop s m items with
    | Val None => find_name_for_module_loop s m items'
    | res => res
    end.
Proof.
  induction items as [|[k c] items IH]; cbn; [done|].
  destruct (st_names s !! c) as [cr|]; [|done]. by case_bool_decide.
Qed.

Lemma find_name_for_module_loop_ext s s' m items :
  (∀ kc, kc ∈ items →
     rn_modules <$> st_names s' !! kc.2 = rn_modules <$> st_names s !! kc.2) →
  find_name_for_module_loop s' m items = find_name_for_module_loop s m items.
Proof.
  induction items as [|[k c] items IH]; cbn; [done|]. intros Hext.
  pose proof (Hext (k, c) (list_elem_of_here _ _)) as Hc. cbn in Hc.
  rewrite IH by (intros kc ?; apply Hext; by right).
  destruct (st_names s' !! c) as [cr'|], (st_names s !! c) as [cr|]; cbn in Hc;
    simplify_eq; [|done]. by rewrite Hc.
Qed.

Section FindName.
Context (ext : External).

Lemma module_assigned_others self m s s' n rn :
  module_assigned ext self m s s' → n ≠ self → st_names s !! n = Some rn →
  rn_modules <$> st_names s' !! n = Some (rn_modules rn).
Proof.
  intros (r & me & Hr & _ & _ & _ & _ & Hs') Hne Hrn.
  assert (st_names (with_module s self r m me) !! n = Some rn) as H1.
  { cbn. by rewrite list_lookup_insert_ne. }
  destruct (ctx_only_lookup _ _ _ _ Hs' H1) as (rn' & -> & ->). done.
Qed.

(** X16.  After [register_sub_call] has returned,
    [find_name_for_module] of the scope finds the unit of the call: under
    the name of an older child when one has the unit already, under the
    name of the new child otherwise. *)
Theorem register_sub_call_find_name frames (s s' : Store) (self child : NameId)
    (call : CallId) (ce : CallEntry) :
  tree_ok s → st_calls s !! call = Some ce →
  register_sub_call ext frames self call s = Ok child s' →
  ∃ cr name, st_names s' !! child = Some cr ∧ rn_name cr = Some name ∧
    find_name_for_module s' self (ce_module ce) =
      Val (Some (match find_name_for_module s self (ce_module ce) with
                 | Val (Some older) => older
                 | _ => name
                 end)).
Proof.
  intros Hok Hce Hrun.
  destruct (wp_ok _ _ _ _ _ _ (wp_register_sub_call_bound ext frames self call s) Hrun)
    as (-> & s1 & name & (r & ce0 & Hr & Hsub & Hce0 & Hfree & Hne & ->) & Hbound).
  simplify_eq.
  set (child_rec := child_record r self name None false _) in *.
  set (s1 := with_child s self r name child_rec) in *.
  apply lookup_lt_Some in Hr as Hlt.
  pose proof (with_child_lookup s self r name child_rec Hr) as Hself1.
  pose proof (with_child_lookup_child s self r name child_rec Hr) as Hchild1.
  pose proof (call_bound_same_tree ext _ _ _ _ Hbound) as Htree.
  destruct Hbound as (ce1 & s2 & r2 & Hce1 & _ & Hs2 & Hr2 & _ & Hmod & _ & _ & ->).
  assert (ce1 = ce) as ->.
  { unfold s1, with_child in Hce1. cbn in Hce1. congruence. }
  (* the units of the older nodes are as they were *)
  assert (∀ n rn, n ≠ length (st_names s) → st_names s1 !! n = Some rn →
            rn_modules <$> st_names (with_call s2 (length (st_names s)) r2 call ce) !! n
              = Some (rn_modules rn)) as Hothers.
  { intros n rn Hn Hrn. cbn. rewrite list_lookup_insert_ne by done.
    destruct Hs2 as [->|Hs2]; [by rewrite Hrn|].
    by eapply module_assigned_others. }
  exists (set_calls (rn_calls r2 ++ [call]) r2), name.
  assert (st_names (with_call s2 (length (st_names s)) r2 call ce) !! length (st_names s) =
            Some (set_calls (rn_calls r2 ++ [call]) r2)) as Hchild'.
  { cbn. apply list_lookup_insert_eq. by eapply lookup_lt_Some. }
  assert (rn_name r2 = Some name) as Hname2.
  { destruct (Forall2_lookup_l _ _ _ _ _ Htree Hchild1) as (cr' & Hcr' & _ & _ & Hn & _).
    rewrite Hchild' in Hcr'. injection Hcr' as <-. cbn in Hn. by rewrite Hn. }
  split_and!; [done|done|].
  destruct (Forall2_lookup_l _ _ _ _ _ Htree Hself1) as (r' & Hr' & Hc' & _ & _ & Hsub' & _).
  unfold find_name_for_module. rewrite Hr', Hr, Hsub', Hc'.
  cbn [rn_is_subnet rn_childs_by_name set_childs_by_name]. rewrite Hsub.
  rewrite find_name_for_module_loop_app.
  rewrite (find_name_for_module_loop_ext s _ (ce_module ce) (rn_childs_by_name r)).
  2:{ intros [k c] Hkc. cbn [snd].
      destruct (Hok _ _ Hr) as (_ & _ & _ & Hchilds & _).
      destruct (Hchilds _ _ Hkc) as (cr & Hcr & _ & _). rewrite Hcr.
      apply lookup_lt_Some in Hcr as Hc.
      destruct (decide (c = self)) as [->|Hcs].
      - simplify_eq. by apply (Hothers self _ ltac:(lia) Hself1).
      - apply Hothers; [lia|].
        unfold s1, with_child. store_simpl. rewrite list_lookup_insert_ne by done.
        by apply lookup_app_l_Some. }
  destruct (find_name_for_module_loop s (ce_module ce) (rn_childs_by_name r))
    as [[older|]| |] eqn:Hloop; [done| | |].
  - cbn [find_name_for_module_loop]. rewrite Hchild'. cbn [rn_modules set_calls].
    by rewrite bool_decide_eq_true_2.
  - pose proof (find_name_for_module_loop_first s (ce_module ce) (rn_childs_by_name r))
      as Hfirst. by rewrite Hloop in Hfirst.
  - pose proof (find_name_for_module_loop_first s (ce_module ce) (rn_childs_by_name r))
      as Hfirst. rewrite Hloop in Hfirst. destruct Hfirst as ([k c] & Hkc & Hnone).
    destruct (Hok _ _ Hr) as (_ & _ & _ & Hchilds & _).
    destruct (Hchilds _ _ Hkc) as (cr & Hcr & _). cbn in Hnone. congruence.
Qed.
End FindName.

(** ** Serialization of a scope without parent *)

Section DumpRoot.
Context (ext : External).

(** X17.  The dump of a compound node without parent (the root): when
    it has no input the description has an empty [from]; when it has an
    input the dump fails the assertion on the parent. *)
Theorem dump_scope_without_parent frames (s : Store) (self : NameId)
    (r : RegisteredName) :
  st_names s !! self = Some r → dumped_as_subnetwork ext s r → rn_parent r = None →
  Forall (λ slot, is_Some (st_names s !! slot)) (rn_inputs r) →
  dump_as_returnn_layer_dict ext (S frames) s self =
    match rn_inputs r with
    | [] =>
        subnet_dict ← dump_as_returnn_net_dict ext frames s self;
        Val (PDict [("class", PStr "subnetwork"); ("from", PList []);
                    ("subnetwork", PDict subnet_dict)])
    | _ :: _ => Exc AssertionError
    end.
Proof.
  intros Hr Hsub Hroot Hslots. cbn [dump_as_returnn_layer_dict]. rewrite Hr.
  unfold dump_as_returnn_net_dict. rewrite Hr.
  assert (match rn_calls r with
          | [] => Val false
          | call :: _ =>
              match st_calls s !! call with
              | Some ce => Val (negb (has_torch_forward ext (ce_module ce)))
              | None => Dangling
              end
          end = Val false) as ->.
  { unfold dumped_as_subnetwork in Hsub. destruct (rn_calls r) as [|call ?]; [done|].
    destruct (st_calls s !! call) as [ce|]; [|done]. cbn in Hsub.
    injection Hsub as ->. done. }
  cbn. destruct (rn_inputs r) as [|slot slots]; cbn.
  - by destruct (net_dict_loop _ s (rn_childs_by_name r) []).
  - apply Forall_cons in Hslots as [[ic Hic] _].
    assert (input_layer_name s r slot = Exc AssertionError) as ->; [|done].
    unfold input_layer_name. rewrite Hic, Hroot. by destruct (rn_tensor ic).
Qed.
End DumpRoot.

(** ** The output of a sub-network *)

#[global] Instance tree_frame_ok : FrameOK tree_frame.
Proof. split; apply _. Qed.

#[global] Instance tree_frame_module : ModuleFrame tree_frame.
Proof. split; try apply _; by intros. Qed.

#[global] Instance tree_frame_binding : BindingFrame tree_frame.
Proof. split; try apply _; by intros. Qed.

Section Output.
Context (ext : External).

Lemma frame_assign_tensor_tree self tensor :
  frame tree_frame (assign_tensor self tensor).
Proof. unfold assign_tensor. frame_steps. Qed.

Lemma frame_set_outputs_tree self outputs :
  frame tree_frame (set_outputs self outputs).
Proof.
  unfold set_outputs.
  repeat (first [apply frame_tensor_entry; [apply _|done] | frame_step]; try done).
Qed.

Lemma wp_apply_call_primitive_tree frames self s0 s ce :
  framed tree_frame s0 s →
  st_calls s !! self = Some ce → has_torch_forward ext (ce_module ce) = false →
  wp (apply_call ext frames self) s
    (λ _ s', framed tree_frame s0 s') (λ _ s', framed tree_frame s0 s').
Proof.
  intros Hs Hce Hprim.
  destruct frames as [|frames]; cbn [apply_call]; [by wp_steps|].
  unfold apply_call_body. wp_steps.
  apply wp_get_call; intros ce' Hce'. simplify_eq. cbn zeta. rewrite Hprim.
  eapply wp_frame; [|exact Hs|done..].
  unfold set_returnn_layer.
  repeat (first [ apply frame_tensor_entry; [apply _|done]
                | apply (frame_maybe_create_returnn_ctx tree_frame)
                | apply frame_assign_tensor_tree
                | apply frame_set_outputs_tree
                | frame_step ]; try done).
Qed.

Lemma list_rel_mono {X} (Q Q' : relation X) l l' :
  (∀ x y, Q x y → Q' x y) → list_rel Q l l' → list_rel Q' l l'.
Proof.
  intros HQ Hl i x Hx. destruct (Hl i x Hx) as (y & ? & ?). exists y. by auto.
Qed.

Lemma framed_link_tree s s' : framed link_frame s s' → framed tree_frame s s'.
Proof.
  intros (Hn & Hc & Hm & Ht & Hx & Hg). repeat split; cbn in *.
  - eapply list_rel_mono; [|exact Hn]. by intros x y ->.
  - eapply list_rel_mono; [|exact Hc]. unfold same. intros x y Heq. congruence.
  - eapply list_rel_mono; [|exact Hm]. done.
  - eapply list_rel_mono; [|exact Ht]. done.
  - eapply list_rel_mono; [|exact Hx]. done.
Qed.

Lemma framed_tree_childs s s' n r :
  framed tree_frame s s' → st_names s !! n = Some r →
  ∃ r', st_names s' !! n = Some r' ∧ rn_childs_by_name r' = rn_childs_by_name r ∧
    rn_parent r' = rn_parent r ∧ rn_name r' = rn_name r ∧
    rn_is_subnet r' = rn_is_subnet r ∧ rn_is_reserved r' = rn_is_reserved r.
Proof.
  intros (Hn & _) Hr. destruct (Hn _ _ Hr) as (r' & Hr' & Heq).
  cbn in Heq. unfold same in Heq. exists r'. split; [done|].
  by injection Heq as -> _ -> -> -> ->.
Qed.

Lemma wp_register_returnn_subnet_output_taken frames self tensor s r :
  st_names s !! self = Some r → ReservedOutputName ∈ (rn_childs_by_name r).*1 →
  wp (register_returnn_subnet_output ext frames self tensor) s (λ _ _, False)
    (λ _ s', ∃ r', st_names s' !! self = Some r' ∧
                   rn_childs_by_name r' = rn_childs_by_name r).
Proof.
  intros Hr Hout.
  assert (∀ s', framed tree_frame s s' →
            ∃ r', st_names s' !! self = Some r' ∧
                  rn_childs_by_name r' = rn_childs_by_name r) as Hkeep.
  { intros s' Hs'. destruct (framed_tree_childs _ _ _ _ Hs' Hr) as (r' & ? & ? & _).
    by exists r'. }
  unfold register_returnn_subnet_output, register_returnn_subnet_output_with.
  wp_steps. apply wp_get_name; intros r0 Hr0. simplify_eq. wp_steps.
  apply wp_assert; [intros Hsub|by eauto]. wp_steps.
  apply wp_assert; [intros Hwrap|by eauto]. wp_steps.
  apply wp_lift_pres; [intros name_ Hname_|by eauto]. wp_steps.
  apply wp_get_tensor; intros te Hte. wp_steps.
  unfold lookup_key. destruct (dict_get name_ _) as [producer|]; [|wp_steps; by eauto].
  wp_steps. apply wp_get_name; intros pr Hpr. cbn zeta. wp_steps.
  destruct (remove_dups _) as [|call [|]]; try (wp_steps; by eauto). wp_steps.
  eapply (wp_frame tree_frame); [apply frame_assign_tensor_tree|reflexivity| |done].
  intros _ s2 Hs2. wp_steps.
  apply wp_get_name; intros r2 Hr2. wp_steps.
  destruct (Hkeep _ Hs2) as (r2' & Hr2' & Hchilds). simplify_eq.
  apply wp_assert; [|intros _; by eauto].
  intros Hfree%negb_true_iff%bool_decide_eq_false. by rewrite Hchilds in Hfree.
Qed.

(** X18.  On a scope that has a child named [output],
    [register_returnn_subnet_output] never returns normally, and when it
    raises the children of the scope are the same. *)
Theorem register_returnn_subnet_output_taken frames (s : Store) (self : NameId)
    (tensor : TensorId) (r : RegisteredName) :
  st_names s !! self = Some r → ReservedOutputName ∈ (rn_childs_by_name r).*1 →
  match register_returnn_subnet_output ext frames self tensor s with
  | Ok _ _ => False
  | Raise _ s' =>
      ∃ r', st_names s' !! self = Some r' ∧ rn_childs_by_name r' = rn_childs_by_name r
  | Stuck => True
  end.
Proof. apply wp_register_returnn_subnet_output_taken. Qed.

(** X19.  When [register_returnn_subnet_output] has returned, its
    result is a new reserved primitive child named [output], added last to
    the children of the scope, and no later call of it on the same scope
    returns normally. *)
Theorem register_returnn_subnet_output_once frames (s s1 : Store) (self child : NameId)
    (tensor : TensorId) (r : RegisteredName) :
  st_names s !! self = Some r →
  register_returnn_subnet_output ext frames self tensor s = Ok child s1 →
  (∃ r1 cr, st_names s1 !! self = Some r1 ∧
     rn_childs_by_name r1 = rn_childs_by_name r ++ [(ReservedOutputName, child)] ∧
     st_names s1 !! child = Some cr ∧ rn_name cr = Some ReservedOutputName ∧
     rn_parent cr = Some self ∧ rn_is_reserved cr = true ∧ rn_is_subnet cr = false) ∧
  ∀ frames' tensor' child' s2,
    register_returnn_subnet_output ext frames' self tensor' s1 ≠ Ok child' s2.
Proof.
  intros Hr Hrun.
  cut (∃ r1 cr, st_names s1 !! self = Some r1 ∧
         rn_childs_by_name r1 = rn_childs_by_name r ++ [(ReservedOutputName, child)] ∧
         st_names s1 !! child = Some cr ∧ rn_name cr = Some ReservedOutputName ∧
         rn_parent cr = Some self ∧ rn_is_reserved cr = true ∧ rn_is_subnet cr = false).
  { intros Hpost. split; [done|]. destruct Hpost as (r1 & cr & Hr1 & Hchilds & _).
    intros frames' tensor' child' s2 Hrun'.
    assert (ReservedOutputName ∈ (rn_childs_by_name r1).*1) as Hin.
    { rewrite Hchilds, fmap_app. apply elem_of_app. right. left. }
    apply (wp_ok _ _ _ _ _ _
             (wp_register_returnn_subnet_output_taken frames' self tensor' s1 r1 Hr1 Hin)
             Hrun'). }
  eapply (wp_ok _ _
            (λ child s1, ∃ r1 cr, st_names s1 !! self = Some r1 ∧
               rn_childs_by_name r1 = rn_childs_by_name r ++ [(ReservedOutputName, child)] ∧
               st_names s1 !! child = Some cr ∧ rn_name cr = Some ReservedOutputName ∧
               rn_parent cr = Some self ∧ rn_is_reserved cr = true ∧
               rn_is_subnet cr = false)
            (λ _ _, True)); [|exact Hrun].
  clear Hrun child s1.
  unfold register_returnn_subnet_output, register_returnn_subnet_output_with.
  wp_steps. apply wp_get_name; intros r0 Hr0. simplify_eq. wp_steps.
  apply wp_assert; [intros Hsub|done]. wp_steps.
  apply wp_assert; [intros Hwrap|done]. wp_steps.
  apply wp_lift_pres; [intros name_ Hname_|done]. wp_steps.
  apply wp_get_tensor; intros te Hte. wp_steps.
  unfold lookup_key. destruct (dict_get name_ _) as [producer|]; [|by wp_steps].
  wp_steps. apply wp_get_name; intros pr Hpr. cbn zeta. wp_steps.
  destruct (remove_dups _) as [|call [|]]; try by wp_steps. wp_steps.
  eapply (wp_frame tree_frame); [apply frame_assign_tensor_tree|reflexivity| |done].
  intros _ s2 Hs2. wp_steps.
  apply wp_get_name; intros r2 Hr2. wp_steps.
  destruct (framed_tree_childs _ _ _ _ Hs2 Hr) as (r2' & ? & Hchilds2 & _). simplify_eq.
  apply wp_assert; [intros Hfree%negb_true_iff%bool_decide_eq_false|done]. wp_steps.
  apply wp_RegisteredName_init_child; [done|].
  intros pr2 Hpr2 _ _. simplify_eq. cbn zeta. wp_steps.
  apply wp_modify_name; store_simpl; intros r3 Hr3. snoc_lookup Hr3. wp_steps.
  rewrite dict_set_fresh by done.
  unfold CallEntry_init. wp_steps.
  apply wp_modify_module; store_simpl; intros me Hme. wp_steps.
  set (child0 := length (st_names s2)).
  set (copy_call := length (st_calls s2)).
  set (child_rec := child_record r2 self ReservedOutputName None true false).
  set (s3 := {| st_names := _ |}).
  apply lookup_lt_Some in Hr2 as Hlt2.
  assert (st_names s3 !! self =
            Some (set_childs_by_name
                    (rn_childs_by_name r2 ++ [(ReservedOutputName, child0)]) r2)) as Hself3.
  { unfold s3. cbn. apply list_lookup_insert_eq. rewrite length_app. lia. }
  assert (st_names s3 !! child0 = Some child_rec) as Hchild3.
  { unfold s3. cbn. rewrite list_lookup_insert_ne by (unfold child0; lia).
    apply lookup_snoc_new. }
  assert (∃ ce3, st_calls s3 !! copy_call = Some ce3 ∧
                 ce_module ce3 = length (st_modules s2)) as (ce3 & Hce3 & Hmod3).
  { eexists. split; [apply lookup_snoc_new|done]. }
  clearbody s3.
  assert (∀ s', framed tree_frame s3 s' →
            (∃ r1 cr, st_names s' !! self = Some r1 ∧
               rn_childs_by_name r1 = rn_childs_by_name r ++ [(ReservedOutputName, child0)] ∧
               st_names s' !! child0 = Some cr ∧ rn_name cr = Some ReservedOutputName ∧
               rn_parent cr = Some self ∧ rn_is_reserved cr = true ∧
               rn_is_subnet cr = false) ∧
            ∃ ce', st_calls s' !! copy_call = Some ce' ∧
                   ce_module ce' = length (st_modules s2)) as Hkeep.
  { intros s' Hs'.
    destruct (framed_tree_childs _ _ _ _ Hs' Hself3) as (r1 & Hr1 & Hc1 & _).
    destruct (framed_tree_childs _ _ _ _ Hs' Hchild3) as (cr & Hcr & _ & ? & ? & ? & ?).
    split.
    - exists r1, cr. split_and!; try done. by rewrite Hc1, <-Hchilds2.
    - destruct Hs' as (_ & Hc & _). destruct (Hc _ _ Hce3) as (ce' & ? & Heq).
      cbn in Heq. unfold same in Heq. exists ce'. split; [done|congruence]. }
  eapply (wp_frame link_frame); [frame_steps|reflexivity| |done].
  intros _ s4 Hs4. wp_steps.
  eapply (wp_frame link_frame); [frame_steps|exact Hs4| |done].
  clear s4 Hs4. intros _ s4 Hs4. wp_steps.
  eapply (wp_frame link_frame); [frame_steps|exact Hs4| |done].
  clear s4 Hs4. intros _ s4 Hs4. wp_steps.
  assert (st_names s4 !! child0 = Some child_rec) as Hcr4.
  { destruct Hs4 as (Hn & _). destruct (Hn _ _ Hchild3) as (? & ? & Heq).
    cbn in Heq. by subst. }
  apply framed_link_tree in Hs4.
  apply (wp_assign_call ext tree_frame); [| |done].
  { intros cr Hcr Hin. simplify_eq. by apply elem_of_nil in Hin. }
  intros cr ce s5 cr5 ce5 Hcr _ Hce Hs5' Hcr5 Hce5 Hkind _. simplify_eq.
  assert (framed tree_frame s3 s5) as Hs5 by (by etrans).
  assert (has_torch_forward ext (ce_module ce5) = false) as Hprim.
  { destruct (framed_tree_childs _ _ _ _ Hs5' Hcr4) as (cr5' & ? & _ & _ & _ & His & _).
    simplify_eq. cbn in His. rewrite His in Hkind. destruct Hkind as [_ Hkind].
    destruct Hs5' as (_ & Hc & _). destruct (Hc _ _ Hce) as (ce5' & ? & Heq).
    cbn in Heq. unfold same in Heq. simplify_eq. by rewrite Heq. }
  wp_steps. unfold push_call. wp_steps.
  set (s7 := {| st_names := _ |}).
  assert (framed tree_frame s3 s7) as Hs7.
  { etrans; [exact Hs5|]. unfold s7. repeat split; cbn; try done.
    - eapply list_rel_insert; [apply _|done|done].
    - eapply list_rel_insert; [apply _|done|done]. }
  assert (st_calls s7 !! copy_call = Some (set_namespace (Some child0) ce5)) as Hce7.
  { unfold s7. cbn. apply list_lookup_insert_eq. by eapply lookup_lt_Some. }
  clearbody s7.
  apply wp_try_finally.
  eapply wp_mono;
    [apply (wp_apply_call_primitive_tree frames copy_call s3 s7 _ Hs7 Hce7); exact Hprim|..];
    cbn beta; [|intros e s8 Hs8; unfold pop_call_checked; wp_steps;
                destruct (last _); wp_steps; [|done]; by apply wp_assert].
  intros res s8 Hs8.
  eapply (wp_frame tree_frame); [unfold pop_call_checked; frame_steps|exact Hs8| |done].
  intros _ s9 Hs9. wp_steps.
  destruct (Hkeep _ Hs9) as [Hpost _].
  apply wp_get_name; intros r9 Hr9. wp_steps.
  destruct (rn_returnn_ctx r9); [|by wp_steps]. wp_steps.
  apply wp_get_call; intros ce9 Hce9. wp_steps. unfold define_output.
  destruct (ce_returnn_layer ce9); [|by wp_steps]. wp_steps.
  apply wp_modify_ctx; store_simpl; intros c Hc. wp_steps.
  apply wp_modify_tensor; store_simpl; intros te9 Hte9. wp_steps.
  exact Hpost.
Qed.
End Output.

(** ** Back references of the outputs *)

#[global] Instance refs_grow_preorder : PreOrder refs_grow.
Proof.
  split.
  - intros s. split; [done|]. intros x te Hte. by exists te.
  - intros s1 s2 s3 [Hc Ht] [Hc' Ht']. split; [congruence|].
    intros x te Hte. destruct (Ht _ _ Hte) as (te2 & Hte2 & H1 & H2).
    destruct (Ht' _ _ Hte2) as (te3 & Hte3 & H1' & H2'). exists te3. by auto.
Qed.

Lemma refs_grow_modify s x te f :
  st_tensors s !! x = Some te →
  (∀ c, c ∈ te_output_from_calls te → c ∈ te_output_from_calls (f te)) →
  (∀ m, m ∈ te_output_from_modules te → m ∈ te_output_from_modules (f te)) →
  refs_grow s (with_tensors (<[x := f te]> (st_tensors s)) s).
Proof.
  intros Hte H1 H2. split; [done|]. intros y te' Hte'. cbn.
  destruct (decide (y = x)) as [->|Hne].
  - simplify_eq. exists (f te). split; [|done].
    apply list_lookup_insert_eq. by eapply lookup_lt_Some.
  - exists te'. by rewrite list_lookup_insert_ne.
Qed.

Lemma has_back_refs_grow s s' call module x :
  refs_grow s s' → has_back_refs s call module x → has_back_refs s' call module x.
Proof.
  intros [_ Ht] (te & Hte & ? & ?). destruct (Ht _ _ Hte) as (te' & ? & ? & ?).
  exists te'. by auto.
Qed.

Lemma wp_for_each_back_refs self module (l : list TensorId) : ∀ s,
  wp (for_each l (λ x,
        modify_tensor x (λ te, set_te_output_from_calls (te_output_from_calls te ++ [self]) te);;
        modify_tensor x (λ te,
          set_te_output_from_modules (te_output_from_modules te ++ [module]) te))) s
    (λ _ s', refs_grow s s' ∧ Forall (has_back_refs s' self module) l) (λ _ _, True).
Proof.
  induction l as [|x l IH]; intros s; cbn [for_each].
  - wp_steps. by split.
  - wp_steps. apply wp_modify_tensor; store_simpl; intros te Hte. wp_steps.
    apply wp_modify_tensor; store_simpl; intros te1 Hte1.
    rewrite list_lookup_insert_eq in Hte1 by (by eapply lookup_lt_Some).
    injection Hte1 as <-. rewrite list_insert_insert_eq.
    set (te2 := set_te_output_from_modules _ _).
    pose proof (refs_grow_modify s x te (λ _, te2) Hte) as Hgrow.
    eapply wp_mono; [apply IH| |done]. cbn beta. intros _ s' [Hs' Hl].
    assert (refs_grow s (with_tensors (<[x := te2]> (st_tensors s)) s)) as Hs1.
    { apply Hgrow; unfold te2; cbn; intros ? ?; apply elem_of_app; by left. }
    split; [by etrans|]. constructor; [|done].
    eapply has_back_refs_grow; [exact Hs'|]. exists te2. split_and!.
    + cbn. apply list_lookup_insert_eq. by eapply lookup_lt_Some.
    + unfold te2. cbn. apply elem_of_app. right. left.
    + unfold te2. cbn. apply elem_of_app. right. left.
Qed.

(** X20.  When the session has graph materialization enabled and
    [set_outputs] returns, the call holds one entry for each output, every
    entry refers back to the call and to its unit, and the first entry has
    the namespace of the call among its names. *)
Theorem set_outputs_back_references (s s' : Store) (self : CallId)
    (outputs : outputs_arg) (ce : CallEntry) :
  st_calls s !! self = Some ce → nm_wrap_to_returnn_enabled (st_naming s) = true →
  set_outputs self outputs s = Ok () s' →
  ∃ ce' entry_outputs,
    st_calls s' !! self = Some ce' ∧ ce_outputs ce' = Some entry_outputs ∧
    length entry_outputs =
      length (match outputs with OutSingle t => [t] | OutSeq l => l end) ∧
    Forall (has_back_refs s' self (ce_module ce)) entry_outputs ∧
    match entry_outputs with
    | x :: _ => ∃ te, st_tensors s' !! x = Some te ∧ ce_namespace ce ∈ te_names te
    | [] => True
    end.
Proof.
  intros Hce Hwrap Hrun.
  eapply (wp_ok _ _
            (λ _ s', ∃ ce' entry_outputs,
               st_calls s' !! self = Some ce' ∧ ce_outputs ce' = Some entry_outputs ∧
               length entry_outputs =
                 length (match outputs with OutSingle t => [t] | OutSeq l => l end) ∧
               Forall (has_back_refs s' self (ce_module ce)) entry_outputs ∧
               match entry_outputs with
               | x :: _ => ∃ te, st_tensors s' !! x = Some te ∧
                                 ce_namespace ce ∈ te_names te
               | [] => True
               end)
            (λ _ _, True)); [|exact Hrun].
  clear Hrun s'. unfold set_outputs. wp_steps.
  apply wp_get_call; intros ce0 Hce0. simplify_eq. wp_steps.
  apply wp_assert; [intros _|done]. wp_steps. rewrite Hwrap.
  (* the original outputs are kept or not: the call keeps its unit and node *)
  eapply wp_mono with
    (Q := λ _ s1, ∃ ce1, st_calls s1 !! self = Some ce1 ∧ ce_module ce1 = ce_module ce ∧
                         ce_namespace ce1 = ce_namespace ce)
    (E := λ _ _, True); [|cbn beta|done].
  { destruct (nm_keep_orig_module_io_tensors (st_naming s)); wp_steps; [|by exists ce].
    apply wp_modify_call; store_simpl; intros ce1 Hce1. simplify_eq.
    eexists. split; [apply list_lookup_insert_eq; by eapply lookup_lt_Some|done]. }
  intros _ s1 (ce1 & Hce1 & Hmod1 & Hns1). wp_steps.
  apply (wp_map_M (λ s2, st_calls s2 = st_calls s1)); [done| |].
  { intros x s2 _ Hs2. unfold tensor_entry. wp_steps.
    destruct (assoc_get x _); by wp_steps. }
  intros entry_outputs s2 Hs2 Hlen. wp_steps.
  apply wp_modify_call; store_simpl; intros ce2 Hce2. rewrite Hs2 in Hce2. simplify_eq.
  wp_steps. set (s3 := {| st_names := _ |}).
  assert (st_calls s3 !! self = Some (set_outputs_field (Some entry_outputs) ce1)) as Hce3.
  { unfold s3. cbn. apply list_lookup_insert_eq. rewrite Hs2. by eapply lookup_lt_Some. }
  clearbody s3.
  eapply wp_mono; [apply wp_for_each_back_refs| |done]. cbn beta.
  intros _ s4 [Hs4 Hrefs]. destruct Hs4 as [Hcalls4 Hgrow4].
  assert (st_calls s4 !! self = Some (set_outputs_field (Some entry_outputs) ce1)) as Hce4
    by (by rewrite Hcalls4).
  destruct entry_outputs as [|x entry_outputs].
  { wp_steps. eexists _, []. by split_and!. }
  wp_steps. apply wp_get_call; intros ce4 Hce4'. simplify_eq. wp_steps.
  apply wp_get_tensor; intros te4 Hte4. cbn [ce_namespace set_outputs_field].
  rewrite Hns1. case_bool_decide as Hin.
  - wp_steps. eexists _, (x :: entry_outputs). split_and!; try done. by exists te4.
  - apply wp_modify_tensor; store_simpl; intros te4' Hte4'. simplify_eq.
    set (s5 := {| st_names := _ |}).
    assert (refs_grow s4 s5) as Hs5 by (by apply refs_grow_modify).
    eexists _, (x :: entry_outputs). split_and!; try done.
    + eapply Forall_impl; [exact Hrefs|]. intros y. by apply has_back_refs_grow.
    + eexists. split.
      * unfold s5. cbn. apply list_lookup_insert_eq. by eapply lookup_lt_Some.
      * cbn. apply elem_of_app. right. left.
Qed.

(** ** Application of a primitive call *)

#[global] Instance dump_frame_ok : FrameOK dump_frame.
Proof. split; apply _. Qed.

Section ApplyPrimitive.
Context (ext : External).

Lemma wp_maybe_create_has_ctx frames self s r :
  st_names s !! self = Some r → is_Some (rn_returnn_ctx r) →
  wp (maybe_create_returnn_ctx frames self) s (λ _ s', s' = s) (λ _ s', s' = s).
Proof.
  intros Hr [c Hc]. destruct frames as [|frames]; cbn [maybe_create_returnn_ctx].
  - by wp_steps.
  - wp_steps. apply wp_get_name; intros r' Hr'. simplify_eq. wp_steps.
    apply wp_assert; [intros _|done]. wp_steps.
    apply wp_assert; [intros _|done]. wp_steps. rewrite Hc. by wp_steps.
Qed.

(** X21.  When the network of the parent has a layer of the name of
    the node already, [apply_call] of a primitive call does not return
    normally, and when it raises the store is unchanged. *)
Theorem apply_call_layer_name_taken frames (s : Store) (self : CallId) (ce : CallEntry)
    (namespace parent_namespace : NameId) (ns pr : RegisteredName) (name : string)
    (returnn_net : CtxId) (net : ReturnnContext) :
  st_calls s !! self = Some ce → has_torch_forward ext (ce_module ce) = false →
  ce_namespace ce = Some namespace → st_names s !! namespace = Some ns →
  rn_name ns = Some name → rn_parent ns = Some parent_namespace →
  st_names s !! parent_namespace = Some pr → rn_returnn_ctx pr = Some returnn_net →
  st_ctxs s !! returnn_net = Some net → dict_contains name (ctx_layers net) = true →
  match apply_call ext frames self s with
  | Ok _ _ => False
  | Raise _ s' => s' = s
  | Stuck => True
  end.
Proof.
  intros Hce Hprim Hns Hnsr Hname Hparent Hpr Hctx Hnet Hin.
  change (wp (apply_call ext frames self) s (λ _ _, False) (λ _ s', s' = s)).
  destruct frames as [|frames]; cbn [apply_call]; [by wp_steps|].
  unfold apply_call_body. wp_steps.
  apply wp_get_call; intros ce' Hce'. simplify_eq. cbn zeta. rewrite Hns. wp_steps.
  destruct (ce_inputs_flat ce) as [flat|]; [|by wp_steps].
  wp_steps. apply wp_read_inputs; intros inputs_flat. wp_steps.
  destruct (pack_sequence_as ext _ _ inputs_flat) as [[inputs_args inputs_kwargs]|];
    [|by wp_steps].
  wp_steps. rewrite Hprim. wp_steps.
  apply wp_assert; [intros _|done]. wp_steps.
  apply wp_get_name; intros ns' Hns'. simplify_eq. rewrite Hparent. wp_steps.
  eapply wp_mono; [by eapply wp_maybe_create_has_ctx| |done].
  cbn beta. intros _ ? ->. wp_steps.
  destruct (create_returnn_layer_dict ext s _ _ _) as [layer_dict|e]; [|by wp_steps].
  wp_steps. apply wp_get_name; intros ns' Hns'. simplify_eq. cbn zeta. wp_steps.
  apply wp_get_name; intros pr' Hpr'. simplify_eq. rewrite Hctx. wp_steps.
  apply wp_get_ctx; intros net' Hnet'. simplify_eq. wp_steps.
  rewrite Hname, Hin. by apply wp_assert.
Qed.

End ApplyPrimitive.

Section ApplyDump.
Context (ext : External).





End ApplyDump.

(** ** Nested descriptions *)

(** [name_for_tensor] returns a name exactly when the scope knows the
    tensor under it. *)
Lemma name_for_tensor_known s p t name :
  known_as s p t name → name_for_tensor s p t = Val name.
Proof.
  intros (pr & te & i & n & nr & Hpr & Hsub & Hte & Hi & Hnr & Hp & Hname & Hget & Hfirst).
  unfold name_for_tensor. rewrite Hpr, Hte, Hsub.
  revert i Hi Hfirst. generalize (te_names te) as names.
  induction names as [|on names IH]; intros [|i] Hi Hfirst; try done.
  - cbn in Hi. injection Hi as ->. cbn. rewrite Hnr, bool_decide_eq_true_2 by done.
    rewrite Hname. cbn. rewrite Hget, bool_decide_eq_true_2 by done. done.
  - destruct (Hfirst 0) as (n' & nr' & Hn' & Hnr' & Hp'); [lia|].
    cbn in Hn'. injection Hn' as ->. cbn. rewrite Hnr', bool_decide_eq_false_2 by done.
    apply (IH i); [done|]. intros j Hj. apply (Hfirst (S j)). lia.
Qed.

Lemma name_for_tensor_known_inv s p t name :
  name_for_tensor s p t = Val name → known_as s p t name.
Proof.
  unfold name_for_tensor.
  destruct (st_names s !! p) as [pr|] eqn:Hpr; [|done].
  destruct (st_tensors s !! t) as [te|] eqn:Hte; [|done].
  destruct (rn_is_subnet pr) eqn:Hsub; [|done].
  intros (i & n & nr & ? & ? & ? & ? & ? & ?)%name_for_tensor_loop_sound.
  by exists pr, te, i, n, nr.
Qed.

Section Described.

Context (ext : External) (s : Store).

Lemma input_layer_name_known r slot name :
  input_layer_name s r slot = Val name ↔ input_known_as s r slot name.
Proof.
  unfold input_layer_name, input_known_as. split.
  - destruct (st_names s !! slot) as [ir|] eqn:Hir; [|done].
    destruct (rn_tensor ir) as [t|] eqn:Ht; [|done].
    destruct (rn_parent r) as [p|] eqn:Hp; [|done].
    intros ?%name_for_tensor_known_inv. by exists ir, t, p.
  - intros (ir & t & p & -> & -> & -> & ?). by apply name_for_tensor_known.
Qed.

Lemma map_pres_Forall2 {A B} (f : A → pres B) l ys :
  Forall2 (λ x y, f x = Val y) l ys → map_pres f l = Val ys.
Proof.
  induction 1 as [|x y l ys Hx _ IH]; [done|]. cbn. rewrite Hx. cbn. by rewrite IH.
Qed.

(** The loop of [dump_as_returnn_net_dict] returns when the children are
    in the store and the dump of each child that has a call returns. *)
Lemma net_dict_loop_returns dump items : ∀ net_dict,
  (∀ kc, kc ∈ items → is_Some (st_names s !! kc.2)) →
  (∀ kc, kc ∈ items → has_calls s kc.2 = true → ∃ v, dump kc.2 = Val v) →
  ∃ d, net_dict_loop dump s items net_dict = Val d.
Proof.
  induction items as [|[k c] items IH]; intros net_dict Hin Hdump; cbn; [by eexists|].
  destruct (Hin (k, c)) as [cr Hc]; [left|]. cbn in Hc. rewrite Hc.
  destruct (rn_calls cr) as [|call calls] eqn:Hcalls.
  - apply IH; intros kc Hkc; [apply Hin|apply Hdump]; by right.
  - destruct (Hdump (k, c)) as [v Hv]; [left|..].
    { unfold has_calls. cbn. by rewrite Hc, Hcalls. }
    cbn in Hv. rewrite Hv. cbn.
    apply IH; intros kc Hkc; [apply Hin|apply Hdump]; by right.
Qed.

Hypothesis Htree : tree_ok s.

Lemma tree_ok_keyed n r :
  st_names s !! n = Some r → keyed_by_name s (rn_childs_by_name r).
Proof.
  intros Hr. destruct (Htree n r Hr) as (_ & _ & _ & Hchilds & _).
  apply Forall_forall. intros [k c] Hkc. cbn.
  destruct (Hchilds k c Hkc) as (cr & Hc & Hk & _). rewrite Hc. cbn. by rewrite Hk.
Qed.

Lemma net_dict_entries_of dump (D : NameId → pyval → Prop) n r d :
  st_names s !! n = Some r →
  (∀ kc v, kc ∈ rn_childs_by_name r → dump kc.2 = Val v → D kc.2 v) →
  net_dict_loop dump s (rn_childs_by_name r) [] = Val d →
  entries_of s D (rn_childs_by_name r) d.
Proof.
  intros Hr HD Hloop. pose proof (tree_ok_keyed n r Hr) as Hkeyed.
  destruct (Htree n r Hr) as (_ & _ & Hnd & _).
  apply net_dict_loop_entries in Hloop as (entries & -> & Hentries);
    [|done|by intros k _ ?%elem_of_nil].
  cbn [app]. split.
  - unfold keyed_by_name in Hkeyed.
    assert (Forall (λ kc, kc ∈ rn_childs_by_name r ∧
                          rn_name <$> st_names s !! kc.2 = Some (Some kc.1))
              (filter (λ kc, has_calls s kc.2 = true) (rn_childs_by_name r))) as Hk.
    { apply Forall_forall. intros kc [_ Hin]%list_elem_of_filter. split; [done|].
      by eapply Forall_forall in Hkeyed. }
    revert Hk. induction Hentries as [|kc kv l1 l2 [Hkey Hdump] _ IH];
      intros Hk; [constructor|].
    apply Forall_cons in Hk as [[Hin Hk1] Hk]. constructor; [|by apply IH].
    rewrite Hkey. split_and!; [done..|]. by apply HD.
  - assert (entries.*1 = (filter (λ kc, has_calls s kc.2 = true) (rn_childs_by_name r)).*1)
      as ->.
    { induction Hentries as [|kc kv l1 l2 [Hkey _] _ IH]; [done|]. cbn. by f_equal. }
    eapply sublist_NoDup; [exact Hnd|]. apply fmap_sublist, sublist_filter.
Qed.

(** What [dump_as_returnn_layer_dict] returns for a node describes the
    node. *)
Lemma dump_described frames : ∀ node v,
  dump_as_returnn_layer_dict ext frames s node = Val v → described ext s node v.
Proof.
  induction frames as [|frames IH]; intros node v; [done|].
  cbn [dump_as_returnn_layer_dict].
  destruct (st_names s !! node) as [r|] eqn:Hr; [|done].
  destruct (rn_calls r) as [|call calls] eqn:Hcalls.
  - cbn.
    destruct (map_pres (input_layer_name s r) (rn_inputs r)) as [inputs| |] eqn:Hin;
      cbn; [|done..].
    destruct (net_dict_loop _ s (rn_childs_by_name r) []) as [subnet_dict| |] eqn:Hloop;
      cbn; [|done..].
    intros Hv.
    assert (v = subnetwork_node inputs subnet_dict) as ->.
    { destruct inputs as [|input [|input' inputs]]; by injection Hv as <-. }
    eapply described_subnetwork; [done|..].
    + unfold dumped_as_subnetwork. by rewrite Hcalls.
    + apply map_pres_lookup in Hin. eapply Forall2_impl; [exact Hin|].
      intros slot name. apply input_layer_name_known.
    + eapply net_dict_entries_of; [done| |done]. intros kc v' _. apply IH.
  - destruct (st_calls s !! call) as [ce|] eqn:Hce; [|done]. cbn.
    destruct (has_torch_forward ext (ce_module ce)) eqn:Hkind; cbn.
    + destruct (map_pres (input_layer_name s r) (rn_inputs r)) as [inputs| |] eqn:Hin;
        cbn; [|done..].
      destruct (net_dict_loop _ s (rn_childs_by_name r) []) as [subnet_dict| |] eqn:Hloop;
        cbn; [|done..].
      intros Hv.
      assert (v = subnetwork_node inputs subnet_dict) as ->.
      { destruct inputs as [|input [|input' inputs]]; by injection Hv as <-. }
      eapply described_subnetwork; [done|..].
      * unfold dumped_as_subnetwork. by rewrite Hcalls, Hce; cbn; rewrite Hkind.
      * apply map_pres_lookup in Hin. eapply Forall2_impl; [exact Hin|].
        intros slot name. apply input_layer_name_known.
      * eapply net_dict_entries_of; [done| |done]. intros kc v' _. apply IH.
    + destruct calls; [|done]. intros [= <-].
      by eapply described_primitive.
Qed.

Hypothesis Hkinds : kinds_ok ext s.
Hypothesis Hinputs : inputs_known s.

(** The dump of a node returns, when more frames are left than there are
    nodes below it. *)
Lemma dump_returns frames : ∀ node r,
  st_names s !! node = Some r → (rn_inputs r ≠ [] → is_Some (rn_parent r)) →
  length (st_names s) ≤ frames + node →
  ∃ v, dump_as_returnn_layer_dict ext frames s node = Val v.
Proof.
  induction frames as [|frames IH]; intros node r Hr Hparent Hframes.
  { apply lookup_lt_Some in Hr. lia. }
  cbn [dump_as_returnn_layer_dict]. rewrite Hr.
  destruct (Htree node r Hr) as (_ & _ & _ & Hchilds & Hslots).
  destruct (Hkinds node r Hr) as (Hunits & Hcalls & Hone).
  assert (∃ inputs, map_pres (input_layer_name s r) (rn_inputs r) = Val inputs)
    as [inputs Hin].
  { destruct (decide (rn_inputs r = [])) as [->|Hne]; [by eexists|].
    specialize (Hparent Hne).
    assert (∃ inputs, Forall2 (λ slot name, input_layer_name s r slot = Val name)
                        (rn_inputs r) inputs) as [inputs Hall].
    { assert (∀ l, Forall (λ slot, slot ∈ rn_inputs r) l →
                ∃ inputs, Forall2 (λ slot name, input_layer_name s r slot = Val name)
                            l inputs) as Hall.
      { induction l as [|slot l IHl]; intros Hl; [by eexists|].
        apply Forall_cons in Hl as [Hslot Hl]. destruct (IHl Hl) as [inputs ?].
        destruct (Hinputs node r slot Hr Hparent Hslot) as [name Hname].
        exists (name :: inputs). constructor; [|done].
        by apply input_layer_name_known. }
      apply Hall. by apply Forall_forall. }
    exists inputs. by apply map_pres_Forall2. }
  assert (∃ d, net_dict_loop (dump_as_returnn_layer_dict ext frames s) s
                 (rn_childs_by_name r) [] = Val d) as [d Hd].
  { apply net_dict_loop_returns.
    - intros [k c] Hkc. destruct (Hchilds k c Hkc) as (cr & ? & _). by exists cr.
    - intros [k c] Hkc _. destruct (Hchilds k c Hkc) as (cr & Hcr & _ & Hp).
      destruct (Htree c cr Hcr) as (Hlt & _). destruct (Hlt node Hp) as [Hlt' _].
      apply (IH c cr Hcr); [by rewrite Hp|]. cbn. lia. }
  destruct (rn_calls r) as [|call calls] eqn:Hcalls_r.
  - cbn. rewrite Hin. cbn. rewrite Hd. cbn.
    destruct inputs as [|? [|? ?]]; by eexists.
  - destruct (Hcalls call) as (ce & Hce & _ & Hm); [left|]. rewrite Hce. cbn.
    destruct (has_torch_forward ext (ce_module ce)) eqn:Hkind; cbn.
    + rewrite Hin. cbn. rewrite Hd. cbn. destruct inputs as [|? [|? ?]]; by eexists.
    + rewrite (Hunits _ Hm) in Hkind. destruct (Hone Hkind) as [_ Hlen].
      destruct calls; [|cbn in Hlen; lia]. by eexists.
Qed.

Lemma net_dict_described frames self d :
  dump_as_returnn_net_dict ext frames s self = Val d → net_described ext s self d.
Proof.
  unfold dump_as_returnn_net_dict.
  destruct (st_names s !! self) as [r|] eqn:Hr; [|done]. intros Hd.
  exists r. split; [done|].
  eapply net_dict_entries_of; [done| |done]. intros kc v _. apply dump_described.
Qed.

Lemma net_dict_returns frames self :
  self < length (st_names s) → length (st_names s) ≤ frames →
  ∃ d, dump_as_returnn_net_dict ext frames s self = Val d.
Proof.
  unfold dump_as_returnn_net_dict.
  intros [r Hr]%lookup_lt_is_Some Hframes. rewrite Hr.
  destruct (Htree self r Hr) as (_ & _ & _ & Hchilds & _).
  apply net_dict_loop_returns.
  - intros [k c] Hkc. destruct (Hchilds k c Hkc) as (cr & ? & _). by exists cr.
  - intros [k c] Hkc _. destruct (Hchilds k c Hkc) as (cr & Hcr & _ & Hp).
    apply (dump_returns frames c cr Hcr); [by rewrite Hp|]. cbn. lia.
Qed.

End Described.

Section DumpClaims.

Context (ext : External).

(** C4.  The mapping that [dump_as_returnn_net_dict] returns for a node
    has exactly one entry for each child that has at least one bound call,
    in the order of the children, under the name of the child, and the
    value of the entry describes the child in the same way, recursively: a
    child with a call of a primitive unit by the description of that call,
    any other child by a nested-scope node whose ["subnetwork"] is the
    mapping of its own children.  Children without a call have no entry,
    and no key occurs twice, at any depth.  The mapping is returned when
    the units and the calls of the nodes are consistent, the inputs of
    every scope are known in its parent scope, and there are at least as
    many frames as nodes. *)
Theorem dump_net_dict_nested frames (s : Store) (self : NameId) :
  tree_ok s →
  (∀ d, dump_as_returnn_net_dict ext frames s self = Val d → net_described ext s self d) ∧
  (kinds_ok ext s → inputs_known s →
   self < length (st_names s) → length (st_names s) ≤ frames →
   ∃ d, dump_as_returnn_net_dict ext frames s self = Val d).
Proof.
  intros Htree. split.
  - intros d. by apply net_dict_described.
  - intros Hkinds Hinputs. by apply net_dict_returns.
Qed.


End DumpClaims.

(** ** The discipline of the call stack *)

#[global] Instance ctx_frame_ok : FrameOK ctx_frame.
Proof. split; apply _. Qed.

Lemma wp_and {A} (m : M A) s Q1 Q2 E1 E2 :
  wp m s Q1 E1 → wp m s Q2 E2 →
  wp m s (λ a s', Q1 a s' ∧ Q2 a s') (λ e s', E1 e s' ∧ E2 e s').
Proof. unfold wp. by destruct (m s). Qed.

Lemma framed_node_ctx_valid s s' n :
  framed ctx_frame s s' → node_ctx_valid s n → node_ctx_valid s' n.
Proof.
  intros (Hn & _ & _ & _ & Hx & _) (r & Hr & Hc).
  destruct (Hn _ _ Hr) as (r' & Hr' & Heq). cbn in Heq. unfold same in Heq.
  exists r'. split; [done|]. intros c Hc'. rewrite Heq in Hc'.
  destruct (Hc c Hc') as [x Hx']. destruct (Hx _ _ Hx') as (x' & ? & _). by exists x'.
Qed.

Section ApplyCtx.
Context (ext : External).

(** The creation of contexts keeps the contexts of the nodes in the
    store, and makes no node. *)
Lemma wp_maybe_create_ctxs_valid frames : ∀ self s,
  ctxs_valid s →
  wp (maybe_create_returnn_ctx frames self) s
    (λ _ s', ctxs_valid s' ∧ length (st_names s') = length (st_names s))
    (λ _ _, True).
Proof.
  induction frames as [|frames IH]; intros self s Hs; cbn [maybe_create_returnn_ctx].
  - by wp_steps.
  - wp_steps. apply wp_get_name; intros r Hr. wp_steps.
    apply wp_assert; [intros _|done]. wp_steps.
    apply wp_assert; [intros _|done]. wp_steps.
    destruct (rn_returnn_ctx r) eqn:Hctx; [by wp_steps|]. wp_steps.
    assert (∀ parent_ctx s1,
              ctxs_valid s1 → length (st_names s1) = length (st_names s) →
              wp (ReturnnContext_new parent_ctx (rn_name r)
                  ≫= λ c, modify_name self (set_returnn_ctx (Some c))) s1
                (λ _ s', ctxs_valid s' ∧ length (st_names s') = length (st_names s))
                (λ _ _, True)) as Hnew.
    { intros parent_ctx s1 Hs1 Hlen. unfold ReturnnContext_new. wp_steps.
      apply wp_modify_name; store_simpl; intros r1 Hr1. split.
      - intros n rn c. cbn. intros Hn Hc.
        destruct (decide (n = self)) as [->|Hne].
        + rewrite list_lookup_insert_eq in Hn by (by eapply lookup_lt_Some).
          injection Hn as <-. cbn in Hc. injection Hc as <-.
          apply lookup_lt_is_Some. rewrite length_app. cbn. lia.
        + rewrite list_lookup_insert_ne in Hn by done.
          destruct (Hs1 _ _ _ Hn Hc) as [x Hx%lookup_lt_Some].
          apply lookup_lt_is_Some. rewrite length_app. lia.
      - cbn. by rewrite length_insert. }
    destruct (rn_parent r) as [p|]; [|wp_steps; by apply Hnew].
    wp_steps. apply wp_get_name; intros pr Hpr. wp_steps.
    eapply wp_mono with
      (Q := λ _ s1, ctxs_valid s1 ∧ length (st_names s1) = length (st_names s))
      (E := λ _ _, True); [| |done].
    { destruct (rn_returnn_ctx pr); [by wp_steps|]. by apply IH. }
    cbn beta. intros _ s1 [Hs1 Hlen]. wp_steps.
    apply wp_get_name; intros pr1 Hpr1. wp_steps.
    apply wp_assert; [intros _|done]. wp_steps. by apply Hnew.
Qed.

Lemma frame_assign_tensor_ctx self tensor :
  frame ctx_frame (assign_tensor self tensor).
Proof. unfold assign_tensor. frame_steps. Qed.

Lemma frame_set_outputs_ctx self outputs :
  frame ctx_frame (set_outputs self outputs).
Proof.
  unfold set_outputs.
  repeat (first [apply frame_tensor_entry; [apply _|done] | frame_step]; try done).
Qed.

(** The application of a call of a primitive unit leaves the nodes with
    contexts that are in the store. *)
Lemma wp_apply_call_primitive_ctx frames self s ce :
  ctxs_valid s → st_calls s !! self = Some ce →
  has_torch_forward ext (ce_module ce) = false →
  wp (apply_call ext frames self) s
    (λ _ s', ∀ n, n < length (st_names s) → node_ctx_valid s' n) (λ _ _, True).
Proof.
  intros Hs Hce Hprim.
  destruct frames as [|frames]; cbn [apply_call]; [by wp_steps|].
  unfold apply_call_body. wp_steps.
  apply wp_get_call; intros ce' Hce'. simplify_eq. cbn zeta.
  destruct (ce_namespace ce) as [namespace|]; [|by wp_steps]. wp_steps.
  destruct (ce_inputs_flat ce) as [flat|]; [|by wp_steps].
  wp_steps. apply wp_read_inputs; intros inputs_flat. wp_steps.
  destruct (pack_sequence_as ext _ _ inputs_flat) as [[inputs_args inputs_kwargs]|];
    [|by wp_steps].
  wp_steps. rewrite Hprim. wp_steps.
  apply wp_assert; [intros _|done]. wp_steps.
  apply wp_get_name; intros ns Hns.
  destruct (rn_parent ns) as [parent_namespace|]; [|by wp_steps]. wp_steps.
  eapply wp_mono; [by apply wp_maybe_create_ctxs_valid| |done].
  cbn beta. intros _ s1 [Hs1 Hlen].
  assert (∀ n, n < length (st_names s) → node_ctx_valid s1 n) as Hvalid.
  { intros n Hn. rewrite <-Hlen in Hn. apply lookup_lt_is_Some in Hn as [r Hr].
    exists r. split; [done|]. intros c Hc. by eapply Hs1. }
  assert (∀ s', framed ctx_frame s1 s' →
            ∀ n, n < length (st_names s) → node_ctx_valid s' n) as Hpost.
  { intros s' Hs' n Hn. eapply framed_node_ctx_valid; [done|]. by apply Hvalid. }
  eapply (wp_frame ctx_frame); [|reflexivity| |done].
  { repeat (first [ apply frame_tensor_entry; [apply _|done]
                  | apply frame_assign_tensor_ctx
                  | frame_step ]; try done). }
  intros [[res layer] layer_dict] s2 Hs2.
  eapply (wp_frame ctx_frame); [|exact Hs2|intros _ s'; by apply Hpost|done].
  unfold set_returnn_layer.
  repeat (first [ apply frame_set_outputs_ctx | frame_step ]; try done).
Qed.

End ApplyCtx.

(** One step of a method that returns. *)
Lemma step_ok {A B} (m : M A) (f : A → M B) s a s' (P : result B → Prop) :
  m s = Ok a s' → P (f a s') → P ((m ≫= f) s).
Proof.
  intros Hm HP. change ((m ≫= f) s) with (M_bind f m s). unfold M_bind. by rewrite Hm.
Qed.

(** [assign_tensor] on a node whose tensor, if any, lists it. *)
Lemma twp_assign_tensor self tensor s r te (Q : () → Store → Prop) E :
  st_names s !! self = Some r → st_tensors s !! tensor = Some te →
  match rn_tensor r with
  | Some old => ∃ te_old, st_tensors s !! old = Some te_old ∧
                          Some self ∈ te_names te_old
  | None => True
  end →
  (∀ s', st_names s' = <[self := set_tensor (Some tensor) r]> (st_names s) →
         st_calls s' = st_calls s → st_modules s' = st_modules s →
         st_ctxs s' = st_ctxs s → st_naming s' = st_naming s →
         length (st_tensors s') = length (st_tensors s) → Q () s') →
  twp (assign_tensor self tensor) s Q E.
Proof.
  intros Hr Hte Hold HQ. unfold assign_tensor. wp_steps.
  eapply twp_get_name; [done|]. wp_steps.
  eapply twp_mono with
    (Q := λ _ s1, st_names s1 = st_names s ∧ st_calls s1 = st_calls s ∧
                  st_modules s1 = st_modules s ∧ st_ctxs s1 = st_ctxs s ∧
                  st_naming s1 = st_naming s ∧
                  length (st_tensors s1) = length (st_tensors s))
    (E := λ _ _, False); [| |done].
  { destruct (rn_tensor r) as [old|]; [|by wp_steps].
    destruct Hold as (te_old & Hte_old & Hin). wp_steps.
    eapply twp_get_tensor; [done|].
    destruct (list_remove_first_elem _ _ Hin) as (l & -> & _).
    eapply twp_modify_tensor; [done|]. store_simpl.
    split_and!; [done..|]. by rewrite length_insert. }
  cbn beta. intros _ s1 (Hn & Hc & Hm & Hx & Hg & Hlen). wp_steps.
  eapply twp_modify_name; [by rewrite Hn|]. store_simpl. wp_steps.
  assert (is_Some (st_tensors s1 !! tensor)) as [te1 Hte1].
  { apply lookup_lt_is_Some. rewrite Hlen. by eapply lookup_lt_Some. }
  eapply twp_modify_tensor; [done|]. store_simpl.
  apply HQ; cbn; [by rewrite Hn|done..|]. by rewrite length_insert.
Qed.

Section AssignFresh.
Context (ext : External).

(** [assign_call] of a new call of a primitive unit to a primitive node
    that has neither unit nor call. *)
Lemma twp_assign_call_fresh frames self call s r ce me (Q : () → Store → Prop) E :
  st_names s !! self = Some r → rn_modules r = [] → rn_calls r = [] →
  rn_is_subnet r = false →
  st_calls s !! call = Some ce → ce_namespace ce = None →
  st_modules s !! ce_module ce = Some me →
  has_torch_forward ext (ce_module ce) = false →
  Q () (with_call (with_module s self r (ce_module ce) me) self
          (set_modules (rn_modules r ++ [ce_module ce]) r) call ce) →
  twp (assign_call ext frames self call) s Q E.
Proof.
  intros Hr Hmods Hcalls Hsub Hce Hns Hme Hprim HQ.
  apply lookup_lt_Some in Hr as Hlt.
  unfold assign_call. wp_steps. eapply twp_get_name; [done|].
  rewrite Hcalls, bool_decide_eq_false_2 by apply not_elem_of_nil. wp_steps.
  eapply twp_get_call; [done|]. wp_steps.
  unfold assign_module. wp_steps. eapply twp_get_name; [done|].
  case_bool_decide as Hin; [rewrite Hmods in Hin; by apply elem_of_nil in Hin|].
  rewrite Hsub, Hprim. wp_steps.
  apply twp_assert; [intros _|by rewrite Hmods, bool_decide_eq_true_2]. wp_steps.
  apply twp_assert; [intros _|done]. wp_steps.
  eapply twp_modify_name; [done|]. store_simpl. wp_steps.
  eapply twp_modify_module; [done|]. store_simpl. wp_steps.
  match goal with |- twp _ ?st _ _ => set (s2 := st) end.
  assert (st_names s2 !! self = Some (set_modules (rn_modules r ++ [ce_module ce]) r))
    as Hr2 by (by apply list_lookup_insert_eq).
  eapply twp_mono with (Q := λ _ s', s' = s2) (E := λ _ _, False); [| |done].
  { destruct (rn_is_reserved r); [|by wp_steps]. by apply twp_assert. }
  cbn beta. intros _ ? ->.
  eapply twp_mono with (Q := λ _ s', s' = s2) (E := λ _ _, False); [| |done].
  { destruct (rn_wrap_to_returnn_enabled r); [|by wp_steps]. wp_steps.
    eapply twp_get_name; [exact Hr2|]. cbn [andb]. by wp_steps. }
  cbn beta. intros _ ? ->. wp_steps.
  eapply twp_get_name; [exact Hr2|].
  cbn [rn_is_subnet set_modules]. rewrite Hsub. wp_steps.
  apply twp_assert; [intros _|by cbn; rewrite Hcalls, bool_decide_eq_true_2]. wp_steps.
  apply twp_assert; [intros _|done]. wp_steps.
  eapply twp_get_call; [exact Hce|]. rewrite Hns. wp_steps.
  apply twp_assert; [intros _|done]. wp_steps.
  eapply twp_modify_call; [exact Hce|]. store_simpl. wp_steps.
  eapply twp_modify_name; [exact Hr2|]. store_simpl.
  exact HQ.
Qed.

End AssignFresh.

Lemma pop_call_checked_top call s stack :
  call_stack s = stack ++ [call] → pop_call_checked call s = Ok () (popped s).
Proof.
  intros Hstack. unfold pop_call_checked, popped.
  change ((get_naming ≫= ?f) s) with (f (st_naming s) s). cbn beta.
  unfold call_stack in Hstack. rewrite Hstack, last_snoc.
  change ((assert ?b ≫= ?f) s) with (M_bind f (assert b) s).
  unfold M_bind. by rewrite bool_decide_eq_true_2.
Qed.

Lemma call_stack_popped s stack call :
  call_stack s = stack ++ [call] → call_stack (popped s) = stack.
Proof. intros Hstack. unfold popped, call_stack at 1. cbn. by rewrite Hstack, removelast_last. Qed.

(** [try: body finally: pop], for a body that keeps the call stack: the
    call is popped when the body returns and when it raises, and what the
    body raises is raised again. *)
Lemma try_finally_pop {A B} (body : M A) call (k : A → M B) s stack :
  call_stack s = stack ++ [call] →
  wp body s (λ _ s', call_stack s' = call_stack s) (λ _ s', call_stack s' = call_stack s) →
  (try_finally body (pop_call_checked call) ≫= k) s =
    match body s with
    | Ok a s2 => k a (popped s2)
    | Raise e s2 => Raise e (popped s2)
    | Stuck => Stuck
    end.
Proof.
  intros Hstack Hbody. unfold wp in Hbody.
  change ((?m ≫= k) s) with (M_bind k m s). unfold M_bind, try_finally.
  destruct (body s) as [a s2|e s2|]; [| |done];
    by rewrite (pop_call_checked_top call s2 stack) by (by rewrite Hbody).
Qed.

(** The registry of the tensors, and the objects that the application of
    a call uses. *)
Lemma assoc_get_snoc {V} k k' (v : V) d :
  assoc_get k (d ++ [(k', v)]) =
    match assoc_get k d with
    | Some v' => Some v'
    | None => if decide (k' = k) then Some v else None
    end.
Proof.
  induction d as [|[k0 v0] d IH]; cbn; [done|]. by destruct (decide (k0 = k)).
Qed.

Lemma twp_tensor_entry x s (Q : TensorId → Store → Prop) E :
  registry_ok s →
  (∀ t s', st_names s' = st_names s → st_calls s' = st_calls s →
           st_modules s' = st_modules s → st_ctxs s' = st_ctxs s →
           length (st_tensors s) ≤ length (st_tensors s') →
           registry_ok s' → t < length (st_tensors s') → Q t s') →
  twp (tensor_entry x) s Q E.
Proof.
  intros Hreg HQ. unfold tensor_entry. wp_steps.
  destruct (assoc_get x (nm_tensors (st_naming s))) as [t|] eqn:Hx.
  - wp_steps. apply HQ; try done. apply lookup_lt_is_Some. by eapply Hreg.
  - wp_steps. apply HQ; cbn; try done.
    + rewrite length_app. lia.
    + intros x' t'. cbn. rewrite assoc_get_snoc.
      destruct (assoc_get x' (nm_tensors (st_naming s))) as [t0|] eqn:Hx'.
      * intros [= <-]. apply lookup_lt_is_Some. rewrite length_app.
        destruct (Hreg _ _ Hx') as [? ?%lookup_lt_Some]. lia.
      * case_decide; [|done]. intros [= <-]. apply lookup_lt_is_Some.
        rewrite length_app. cbn. lia.
    + rewrite length_app. cbn. lia.
Qed.

Lemma twp_tensor_entries l : ∀ s (Q : list TensorId → Store → Prop) E,
  registry_ok s →
  (∀ ts s', st_names s' = st_names s → st_calls s' = st_calls s →
            st_modules s' = st_modules s → st_ctxs s' = st_ctxs s →
            length (st_tensors s) ≤ length (st_tensors s') →
            registry_ok s' → Forall (λ t, t < length (st_tensors s')) ts → Q ts s') →
  twp (map_M tensor_entry l) s Q E.
Proof.
  induction l as [|x l IH]; intros s Q E Hreg HQ; cbn [map_M].
  - wp_steps. by apply HQ.
  - wp_steps. apply twp_tensor_entry; [done|].
    intros t s1 Hn1 Hc1 Hm1 Hx1 Ht1 Hreg1 Hlt1. wp_steps.
    apply IH; [done|]. intros ts s2 Hn2 Hc2 Hm2 Hx2 Ht2 Hreg2 Hlt2. wp_steps.
    apply HQ; [congruence|congruence|congruence|congruence|lia|done|].
    constructor; [lia|done].
Qed.

Lemma twp_for_each_tensors (l : list TensorId) (f g : TensorEntry → TensorEntry) :
  ∀ s (Q : () → Store → Prop) E,
  Forall (λ t, t < length (st_tensors s)) l →
  (∀ s', st_names s' = st_names s → st_calls s' = st_calls s →
         st_naming s' = st_naming s →
         length (st_tensors s') = length (st_tensors s) → Q () s') →
  twp (for_each l (λ x, modify_tensor x f;; modify_tensor x g)) s Q E.
Proof.
  induction l as [|x l IH]; intros s Q E Hl HQ; cbn [for_each].
  - wp_steps. by apply HQ.
  - apply Forall_cons in Hl as [Hx Hl]. wp_steps.
    apply lookup_lt_is_Some in Hx as [te Hte].
    eapply twp_modify_tensor; [exact Hte|]. store_simpl. wp_steps.
    eapply twp_modify_tensor.
    { store_simpl. apply list_lookup_insert_eq. by eapply lookup_lt_Some. }
    store_simpl. wp_steps. apply IH.
    + cbn. by rewrite !length_insert.
    + intros s' Hn Hc Hg Ht. cbn in *. apply HQ; try done.
      by rewrite Ht, !length_insert.
Qed.

(** [set_outputs] finds every object that it uses, when the call and the
    entries of the registry are in the store. *)
Lemma set_outputs_safe self outputs s :
  is_Some (st_calls s !! self) → registry_ok s → set_outputs self outputs s ≠ Stuck.
Proof.
  intros [ce Hce] Hreg.
  apply (twp_not_stuck _ _ (λ _ _, True) (λ _ _, True)).
  unfold set_outputs. wp_steps. eapply twp_get_call; [done|]. wp_steps.
  apply twp_assert; [intros _|done]. wp_steps.
  eapply twp_mono with (Q := λ _ s1, is_Some (st_calls s1 !! self) ∧ registry_ok s1)
    (E := λ _ _, True); [| |done].
  { destruct (nm_keep_orig_module_io_tensors (st_naming s)); [|by wp_steps].
    eapply twp_modify_call; [done|]. store_simpl. split; [|done].
    apply lookup_lt_is_Some. cbn. rewrite length_insert. by eapply lookup_lt_Some. }
  cbn beta. intros _ s1 [[ce1 Hce1] Hreg1].
  destruct (nm_wrap_to_returnn_enabled (st_naming s)); [|by wp_steps]. wp_steps.
  apply twp_tensor_entries; [done|].
  intros ts s2 Hn2 Hc2 Hm2 Hx2 Ht2 Hreg2 Hlt2. wp_steps.
  eapply twp_modify_call; [by rewrite Hc2|]. store_simpl. wp_steps.
  apply twp_for_each_tensors; [done|]. cbn.
  intros s3 Hn3 Hc3 Hg3 Ht3. wp_steps.
  destruct ts as [|x ts]; [by wp_steps|]. wp_steps.
  assert (is_Some (st_calls s3 !! self)) as [ce3 Hce3].
  { apply lookup_lt_is_Some. rewrite Hc3, length_insert, Hc2. by eapply lookup_lt_Some. }
  eapply twp_get_call; [done|]. wp_steps.
  apply Forall_cons in Hlt2 as [Hx Hlt2]. rewrite <-Ht3 in Hx.
  apply lookup_lt_is_Some in Hx as [te Hte].
  eapply twp_get_tensor; [done|].
  case_bool_decide; [by wp_steps|]. by eapply twp_modify_tensor.
Qed.

Lemma registry_ok_same s s' :
  nm_tensors (st_naming s') = nm_tensors (st_naming s) →
  length (st_tensors s) ≤ length (st_tensors s') →
  registry_ok s → registry_ok s'.
Proof.
  intros Hg Hlen Hreg x t Hx. rewrite Hg in Hx.
  destruct (Hreg x t Hx) as [? ?%lookup_lt_Some]. apply lookup_lt_is_Some. lia.
Qed.

(** [assign_tensor] on a node whose tensor, if any, is in the store. *)
Lemma twp_assign_tensor_valid self tensor s r (Q : () → Store → Prop)
    (E : exn → Store → Prop) :
  st_names s !! self = Some r → is_Some (st_tensors s !! tensor) →
  (∀ old, rn_tensor r = Some old → is_Some (st_tensors s !! old)) →
  (∀ s', st_calls s' = st_calls s → st_naming s' = st_naming s →
         length (st_tensors s') = length (st_tensors s) → Q () s') →
  (∀ s', E ValueError s') →
  twp (assign_tensor self tensor) s Q E.
Proof.
  intros Hr Hte Hold HQ HE. unfold assign_tensor. wp_steps.
  eapply twp_get_name; [done|]. wp_steps.
  eapply twp_mono with
    (Q := λ _ s1, st_names s1 = st_names s ∧ st_calls s1 = st_calls s ∧
                  st_naming s1 = st_naming s ∧
                  length (st_tensors s1) = length (st_tensors s))
    (E := E); [| |done].
  { destruct (rn_tensor r) as [old|]; [|by wp_steps].
    destruct (Hold old eq_refl) as [te_old Hte_old]. wp_steps.
    eapply twp_get_tensor; [done|].
    destruct (list_remove_first _ _); [|by wp_steps].
    eapply twp_modify_tensor; [done|]. store_simpl.
    split_and!; [done..|]. by rewrite length_insert. }
  cbn beta. intros _ s1 (Hn & Hc & Hg & Hlen). wp_steps.
  eapply twp_modify_name; [by rewrite Hn|]. store_simpl. wp_steps.
  assert (is_Some (st_tensors s1 !! tensor)) as [te1 Hte1].
  { apply lookup_lt_is_Some. rewrite Hlen. by apply lookup_lt_is_Some. }
  eapply twp_modify_tensor; [done|]. store_simpl.
  apply HQ; cbn; [done..|]. by rewrite length_insert.
Qed.

Lemma read_inputs_valid s flat :
  (∀ t, Some t ∈ flat → is_Some (st_tensors s !! t)) → is_Some (read_inputs s flat).
Proof.
  unfold read_inputs. induction flat as [|x flat IH]; intros Hflat; [by eexists|].
  cbn [mapM]. destruct IH as [ys Hys].
  { intros t Ht. apply Hflat. by right. }
  rewrite Hys. destruct x as [t|]; [|by eexists].
  destruct (Hflat t) as [te Hte]; [by left|]. rewrite Hte. by eexists.
Qed.

Section ApplySafe.
Context (ext : External).

(** The creation of contexts returns or raises, between stores that
    differ in contexts only and keep the contexts of the nodes in the
    store. *)
Lemma twp_maybe_create_returnn_ctx frames self s (Q : () → Store → Prop)
    (E : exn → Store → Prop) :
  parents_ok s → is_Some (st_names s !! self) → ctxs_valid s →
  (∀ s', ctx_only s s' → ctxs_valid s' → Q () s') → (∀ e s', E e s') →
  twp (maybe_create_returnn_ctx frames self) s Q E.
Proof.
  intros Hok Hself Hvalid HQ HE.
  apply twp_intro; [|by apply maybe_create_returnn_ctx_safe].
  eapply wp_mono;
    [exact (wp_and _ _ _ _ _ _ (wp_maybe_create_ctx_only frames self s)
              (wp_maybe_create_ctxs_valid frames self s Hvalid))|..]; cbn beta.
  - intros [] s' [[Hs' _] [Hv' _]]. by apply HQ.
  - intros e s' _. apply HE.
Qed.

(** The application of a call of a primitive unit finds every object
    that it uses: it returns or raises. *)
Lemma apply_call_primitive_safe frames self s ce :
  st_calls s !! self = Some ce → has_torch_forward ext (ce_module ce) = false →
  is_Some (st_modules s !! ce_module ce) →
  (∀ n, ce_namespace ce = Some n →
     ∃ ns, st_names s !! n = Some ns ∧
           ∀ old, rn_tensor ns = Some old → is_Some (st_tensors s !! old)) →
  (∀ flat t, ce_inputs_flat ce = Some flat → Some t ∈ flat →
     is_Some (st_tensors s !! t)) →
  parents_ok s → ctxs_valid s → registry_ok s →
  apply_call ext frames self s ≠ Stuck.
Proof.
  intros Hce Hprim [me Hme] Hns Hflat Hok Hvalid Hreg.
  destruct frames as [|frames]; [done|].
  apply (twp_not_stuck _ _ (λ _ _, True) (λ _ _, True)).
  cbn [apply_call]. unfold apply_call_body. wp_steps.
  eapply twp_get_call; [exact Hce|]. cbn zeta.
  destruct (ce_namespace ce) as [namespace|]; [|by wp_steps]. wp_steps.
  destruct (Hns namespace eq_refl) as (ns & Hnode & Hold).
  destruct (ce_inputs_flat ce) as [flat|]; [|by wp_steps]. wp_steps.
  destruct (read_inputs_valid s flat) as [inputs_flat Hread].
  { intros t Ht. by eapply Hflat. }
  eapply twp_read_inputs; [exact Hread|]. wp_steps.
  destruct (pack_sequence_as ext _ _ inputs_flat) as [[inputs_args inputs_kwargs]|];
    [|by wp_steps].
  wp_steps. rewrite Hprim. wp_steps.
  apply twp_assert; [intros _|done]. wp_steps.
  eapply twp_get_name; [exact Hnode|].
  destruct (rn_parent ns) as [parent_namespace|] eqn:Hparent; [|by wp_steps]. wp_steps.
  destruct (parents_ok_lookup s namespace ns parent_namespace Hok Hnode Hparent)
    as [pr Hpr].
  apply twp_maybe_create_returnn_ctx; [done..| |done].
  intros s1 Hs1 Hvalid1. wp_steps.
  destruct (create_returnn_layer_dict ext s1 _ _ _) as [layer_dict|e]; [|by wp_steps].
  wp_steps.
  destruct (ctx_only_lookup s s1 namespace ns Hs1 Hnode) as (ns1 & Hnode1 & Hns1).
  destruct (ctx_only_lookup s s1 parent_namespace pr Hs1 Hpr) as (pr1 & Hpr1 & _).
  pose proof Hs1 as (_ & Hc1 & Hm1 & Ht1 & _ & Hg1).
  eapply twp_get_name; [exact Hnode1|]. cbn zeta. wp_steps.
  eapply twp_get_name; [exact Hpr1|]. wp_steps.
  destruct (rn_returnn_ctx pr1) as [returnn_net|] eqn:Hnet; [|by wp_steps]. wp_steps.
  destruct (Hvalid1 _ _ _ Hpr1 Hnet) as [net Hnet1].
  eapply twp_get_ctx; [exact Hnet1|]. wp_steps.
  apply twp_assert; [intros _|done]. wp_steps.
  eapply twp_get_module; [by rewrite Hm1|]. wp_steps.
  case_bool_decide; [by wp_steps|]. wp_steps.
  destruct (rn_name ns1) as [name|]; [|by wp_steps]. wp_steps.
  destruct (construct_layer ext s1 returnn_net name layer_dict); [by wp_steps|]. wp_steps.
  eapply twp_modify_ctx; [exact Hnet1|]. store_simpl. wp_steps.
  destruct (check_returnn_layer ext _ _ _); [by wp_steps|]. wp_steps.
  apply twp_tensor_entry.
  { intros x t. cbn. rewrite Hg1, Ht1. apply Hreg. }
  cbn. intros res_entry s2 Hn2 Hc2 Hm2 Hx2 Ht2 Hreg2 Hlt2. wp_steps.
  apply lookup_lt_is_Some in Hlt2 as [te2 Hte2].
  eapply twp_modify_tensor; [exact Hte2|]. store_simpl. wp_steps.
  eapply twp_assign_tensor_valid.
  - cbn. rewrite Hn2. exact Hnode1.
  - cbn. apply lookup_lt_is_Some. rewrite length_insert. by eapply lookup_lt_Some.
  - cbn. intros old Hold1. apply lookup_lt_is_Some. rewrite length_insert.
    rewrite Hns1 in Hold1. cbn in Hold1. destruct (Hold old Hold1) as [? ?%lookup_lt_Some].
    rewrite Ht1 in Ht2. lia.
  - cbn. intros s3 Hc3 Hg3 Ht3. wp_steps. unfold set_returnn_layer.
    assert (is_Some (st_calls s3 !! self)) as [ce3 Hce3].
    { rewrite Hc3, Hc2, Hc1. by eexists. }
    eapply twp_modify_call; [exact Hce3|]. store_simpl. wp_steps.
    eapply twp_mono; [apply twp_safe, set_outputs_safe| |done].
    + cbn. apply lookup_lt_is_Some. rewrite length_insert. by eapply lookup_lt_Some.
    + eapply (registry_ok_same s2); [cbn; by rewrite Hg3| |done].
      cbn. rewrite Ht3, length_insert. lia.
    + cbn beta. intros _ s4 _. wp_steps.
      destruct (check_call_returnn_outputs ext _ _ _); by wp_steps.
  - done.
Qed.

End ApplySafe.

Section Discipline.
Context (ext : External).

(** C9.  [register_returnn_subnet_output] leaves the call stack as it
    found it, whenever it returns and whenever it raises.  When the store
    lets it get to the copy call (lines 195-215), it makes a new call, puts
    it on top of the call stack and applies it there; if the application
    returns, the call is popped and the method returns or raises (lines
    222-223) with the call stack that it found; if the application raises,
    the call is popped all the same and the method raises the same
    exception, the store being the one that the application has left, with
    the call popped; the method uses an object that is not in the store
    only if the application does, and the application does not when every
    parent of a node and every tensor entry of the registry is in the
    store. *)
Theorem register_returnn_subnet_output_stack_discipline frames (s : Store)
    (self : NameId) (tensor : TensorId) :
  (∀ child s', register_returnn_subnet_output ext frames self tensor s = Ok child s' →
               call_stack s' = call_stack s) ∧
  (∀ e s', register_returnn_subnet_output ext frames self tensor s = Raise e s' →
           call_stack s' = call_stack s) ∧
  ∀ call, output_ready ext s self tensor call → ctxs_valid s →
    ∃ child copy_call s1,
      copy_call_pushed s s1 self tensor call child copy_call ∧
      (parents_ok s → registry_ok s → apply_call ext frames copy_call s1 ≠ Stuck) ∧
      match apply_call ext frames copy_call s1 with
      | Ok _ s2 =>
          call_stack s2 = call_stack s1 ∧
          match register_returnn_subnet_output ext frames self tensor s with
          | Ok child' s' => child' = child ∧ call_stack s' = call_stack s
          | Raise _ s' => call_stack s' = call_stack s
          | Stuck => False
          end
      | Raise e s2 =>
          call_stack s2 = call_stack s1 ∧
          register_returnn_subnet_output ext frames self tensor s = Raise e (popped s2)
      | Stuck => register_returnn_subnet_output ext frames self tensor s = Stuck
      end.
Proof.
  split_and!.
  { intros child s' Hrun.
    exact (wp_ok _ _ _ _ _ _ (wp_register_returnn_subnet_output ext frames self tensor s)
             Hrun). }
  { intros e s' Hrun.
    exact (wp_raised _ _ _ _ _ _
             (wp_register_returnn_subnet_output ext frames self tensor s) Hrun). }
  intros call
    (r & name_ & producer & pr & te & Hr & Hsub & Hwrap & Hknown & Hget & Hpr &
     Hte & Hpot & [cce Hcall] & Hold & Hfree & Hprim) Hctx.
  set (P := λ out : result NameId,
         ∃ child copy_call s1,
           copy_call_pushed s s1 self tensor call child copy_call ∧
           (parents_ok s → registry_ok s → apply_call ext frames copy_call s1 ≠ Stuck) ∧
           match apply_call ext frames copy_call s1 with
           | Ok _ s2 =>
               call_stack s2 = call_stack s1 ∧
               match out with
               | Ok child' s' => child' = child ∧ call_stack s' = call_stack s
               | Raise _ s' => call_stack s' = call_stack s
               | Stuck => False
               end
           | Raise e s2 => call_stack s2 = call_stack s1 ∧ out = Raise e (popped s2)
           | Stuck => out = Stuck
           end).
  change (P (register_returnn_subnet_output ext frames self tensor s)).
  unfold register_returnn_subnet_output, register_returnn_subnet_output_with.
  eapply step_ok; [unfold get_name; by rewrite Hr|]. cbn beta.
  eapply step_ok; [by rewrite Hsub|]. cbn beta.
  eapply step_ok; [done|]. cbn beta.
  eapply step_ok; [by rewrite Hwrap|]. cbn beta.
  eapply step_ok; [unfold lift_pres; by rewrite (name_for_tensor_known _ _ _ _ Hknown)|].
  cbn beta.
  eapply step_ok; [unfold get_tensor; by rewrite Hte|]. cbn beta.
  eapply step_ok; [unfold lookup_key; by rewrite Hget|]. cbn beta.
  eapply step_ok; [unfold get_name; by rewrite Hpr|]. cbn beta zeta. rewrite Hpot.
  eapply step_ok; [done|]. cbn beta.
  (* line 203 *)
  destruct (twp_returns (assign_tensor self tensor) s
              (λ _ s', st_names s' = <[self := set_tensor (Some tensor) r]> (st_names s) ∧
                       st_calls s' = st_calls s ∧ st_modules s' = st_modules s ∧
                       st_ctxs s' = st_ctxs s ∧ st_naming s' = st_naming s ∧
                       length (st_tensors s') = length (st_tensors s)))
    as ([] & s2 & Hrun2 & Hn2 & Hc2 & Hm2 & Hx2 & Hg2 & Ht2).
  { eapply twp_assign_tensor; [done..|]. intros s'; by intros. }
  eapply step_ok; [exact Hrun2|]. cbn beta.
  apply lookup_lt_Some in Hr as Hself.
  assert (st_names s2 !! self = Some (set_tensor (Some tensor) r)) as Hr2.
  { rewrite Hn2. by apply list_lookup_insert_eq. }
  eapply step_ok; [unfold get_name; by rewrite Hr2|]. cbn beta.
  eapply step_ok; [cbn; by rewrite Hfree|]. cbn beta.
  (* line 206 *)
  set (child := length (st_names s2)).
  set (child_rec := child_record (set_tensor (Some tensor) r) self ReservedOutputName
                      None true false).
  destruct (twp_returns
              (RegisteredName_init ext frames None (Some self) (Some ReservedOutputName)
                 None None true false) s2
              (λ c s', c = child ∧ s' = with_names (st_names s2 ++ [child_rec]) s2))
    as (? & ? & Hrun3 & -> & ->).
  { eapply twp_RegisteredName_init_child; [exact Hr2| |].
    - by intros [?|[? _]].
    - by intros _ _. }
  eapply step_ok; [exact Hrun3|]. cbn beta. clear Hrun3.
  (* lines 207-214 *)
  eapply step_ok.
  { unfold modify_name. store_simpl. by rewrite (lookup_snoc_old _ _ _ _ Hr2). }
  cbn beta. store_simpl.
  eapply step_ok; [done|]. cbn beta. store_simpl.
  unfold CallEntry_init.
  eapply step_ok.
  { eapply step_ok; [done|]. cbn beta. store_simpl.
    eapply step_ok; [|done].
    unfold modify_module. store_simpl. by rewrite lookup_snoc_new. }
  cbn beta. store_simpl.
  rewrite insert_snoc_new. cbn [set_me_calls me_calls me_names app].
  assert (call < length (st_calls s2)) as Hlt_call.
  { rewrite Hc2. by eapply lookup_lt_Some. }
  eapply step_ok.
  { unfold modify_call. store_simpl. by rewrite lookup_snoc_new. }
  cbn beta. store_simpl. rewrite insert_snoc_new.
  eapply step_ok.
  { unfold modify_call. store_simpl.
    rewrite (lookup_snoc_old _ _ _ cce) by (by rewrite Hc2). reflexivity. }
  cbn beta. store_simpl. rewrite (insert_snoc_old (st_calls s2)) by done.
  eapply step_ok.
  { unfold modify_call. store_simpl.
    rewrite lookup_app_r by (by rewrite length_insert).
    rewrite length_insert, Nat.sub_diag. reflexivity. }
  cbn beta. store_simpl.
  (* line 215 *)
  assert (self < child) as Hlt_self.
  { unfold child. rewrite Hn2, length_insert. done. }
  match goal with |- P (_ ?st) => set (s5 := st) end.
  set (copy_mod := length (st_modules s2)).
  set (copy_call := length (st_calls s2)).
  pose (ce5 := set_call_inputs (Some [Some tensor]) (Some []) (Some [Some tensor])
                 (set_parent_call (Some call)
                    {| ce_module := copy_mod; ce_orig_outputs := None;
                       ce_inputs_args := None; ce_inputs_kwargs := None;
                       ce_inputs_flat := None; ce_outputs := None;
                       ce_parent_call := None; ce_child_calls := [];
                       ce_level := None; ce_namespace := None;
                       ce_returnn_layer := None; ce_returnn_layer_dict := None |})).
  assert (st_names s5 !! child = Some child_rec) as Hchild5.
  { unfold s5. cbn. rewrite list_lookup_insert_ne by lia. apply lookup_snoc_new. }
  assert (st_calls s5 !! copy_call = Some ce5) as Hce5.
  { unfold s5. cbn. apply list_lookup_insert_eq.
    rewrite length_app, length_insert. cbn. unfold copy_call. lia. }
  assert (st_modules s5 !! copy_mod = Some (set_me_calls [copy_call]
                                              {| me_calls := []; me_names := [] |}))
    as Hme5 by apply lookup_snoc_new.
  destruct (twp_returns (assign_call ext frames child copy_call) s5
              (λ _ s', s' = with_call (with_module s5 child child_rec copy_mod
                                         (set_me_calls [copy_call]
                                            {| me_calls := []; me_names := [] |}))
                              child (set_modules (rn_modules child_rec ++ [copy_mod])
                                       child_rec) copy_call ce5))
    as ([] & ? & Hrun6 & ->).
  { eapply (twp_assign_call_fresh ext frames child copy_call s5 child_rec ce5);
      [done..| |reflexivity].
    cbn. unfold copy_mod. by rewrite Hm2. }
  eapply step_ok; [exact Hrun6|]. cbn beta. clear Hrun6.
  eapply step_ok; [reflexivity|]. cbn beta.
  match goal with |- P (_ ?st) => set (s7 := st) end.
  assert (call_stack s7 = call_stack s ++ [copy_call]) as Hstack7.
  { unfold s7, call_stack. cbn. by rewrite Hg2. }
  assert (st_calls s7 !! copy_call = Some (set_namespace (Some child) ce5)) as Hce7.
  { unfold s7. cbn. apply list_lookup_insert_eq. by eapply lookup_lt_Some. }
  assert (st_names s7 !! child
          = Some (set_calls [copy_call] (set_modules [copy_mod] child_rec))) as Hchild7.
  { unfold s7. cbn. apply list_lookup_insert_eq. rewrite length_insert.
    by eapply lookup_lt_Some. }
  assert (∃ r7, st_names s7 !! self = Some r7 ∧ rn_returnn_ctx r7 = rn_returnn_ctx r)
    as (r7 & Hr7 & Hctx7).
  { eexists. split.
    - unfold s7. cbn. rewrite !list_lookup_insert_ne by lia. unfold s5. cbn.
      apply list_lookup_insert_eq. rewrite length_app. unfold child in Hlt_self. lia.
    - done. }
  assert (ctxs_valid s7) as Hvalid7.
  { intros n rn c Hn Hc. unfold s7 in Hn |- *. cbn in Hn |- *. rewrite Hx2.
    destruct (decide (n = child)) as [->|Hne].
    { rewrite list_lookup_insert_eq in Hn
        by (rewrite length_insert; by eapply lookup_lt_Some).
      by injection Hn as <-. }
    rewrite !list_lookup_insert_ne in Hn by done. unfold s5 in Hn. cbn in Hn.
    destruct (decide (n = self)) as [->|Hne'].
    { rewrite list_lookup_insert_eq in Hn by (rewrite length_app; unfold child in *; lia).
      injection Hn as <-. cbn in Hc. exact (Hctx _ _ _ Hr Hc). }
    rewrite list_lookup_insert_ne in Hn by done.
    apply lookup_app_Some in Hn as [Hn|[Hge Hn]].
    - rewrite Hn2, list_lookup_insert_ne in Hn by done. exact (Hctx _ _ _ Hn Hc).
    - apply list_lookup_singleton_Some in Hn as [Hn _]. unfold child in Hne. lia. }
  assert (tensor < length (st_tensors s7)) as Htensor7.
  { unfold s7. cbn. rewrite Ht2. by eapply lookup_lt_Some. }
  assert (has_torch_forward ext (ce_module (set_namespace (Some child) ce5)) = false)
    as Hprim7.
  { cbn. unfold copy_mod. by rewrite Hm2. }
  assert (self < length (st_names s7)) as Hself7 by (by eapply lookup_lt_Some).
  assert (copy_call_pushed s s7 self tensor call child copy_call) as Hpushed.
  { split_and!.
    - apply lookup_ge_None. unfold child. rewrite Hn2, length_insert. done.
    - apply lookup_ge_None. unfold copy_call. by rewrite Hc2.
    - done.
    - eexists. by split_and!.
    - eexists. by split_and!. }
  assert (parents_ok s → registry_ok s → apply_call ext frames copy_call s7 ≠ Stuck)
    as Hsafe7.
  { intros Hok Hreg.
    eapply apply_call_primitive_safe; [exact Hce7|exact Hprim7|..].
    - apply lookup_lt_is_Some. unfold s7. cbn. rewrite length_insert. unfold s5. cbn.
      rewrite length_app. cbn. unfold copy_mod. lia.
    - intros n [= <-]. eexists. split; [exact Hchild7|]. by intros old.
    - intros flat t [= <-] Ht. apply list_elem_of_singleton in Ht. injection Ht as ->.
      by apply lookup_lt_is_Some.
    - unfold parents_ok. apply Forall_lookup. intros n rn Hn.
      assert (length (st_names s7) = S (length (st_names s))) as Hlen7.
      { unfold s7, s5. cbn.
        rewrite ?length_insert, ?length_app, ?Hn2, ?length_insert. cbn. lia. }
      rewrite Hlen7. unfold parents_ok in Hok. rewrite Forall_lookup in Hok.
      unfold s7 in Hn. cbn in Hn.
      destruct (decide (n = child)) as [->|Hne].
      { rewrite list_lookup_insert_eq in Hn
          by (rewrite length_insert; by eapply lookup_lt_Some).
        injection Hn as <-. cbn. lia. }
      rewrite !list_lookup_insert_ne in Hn by done. unfold s5 in Hn. cbn in Hn.
      destruct (decide (n = self)) as [->|Hne'].
      { rewrite list_lookup_insert_eq in Hn by (rewrite length_app; unfold child in *; lia).
        injection Hn as <-. cbn. specialize (Hok _ _ Hr).
        destruct (rn_parent r); [lia|done]. }
      rewrite list_lookup_insert_ne in Hn by done.
      apply lookup_app_Some in Hn as [Hn|[Hge Hn]].
      + rewrite Hn2, list_lookup_insert_ne in Hn by done. specialize (Hok _ _ Hn).
        destruct (rn_parent rn); [lia|done].
      + apply list_lookup_singleton_Some in Hn as [Hn _]. unfold child in Hne. lia.
    - exact Hvalid7.
    - eapply (registry_ok_same s); [|unfold s7; cbn; by rewrite Ht2|done].
      unfold s7. cbn. by rewrite Hg2. }
  pose proof (wp_and _ _ _ _ _ _
                (wp_apply_call_primitive_stack ext frames copy_call s7 s7 _
                   (reflexivity _) Hce7 Hprim7)
                (wp_apply_call_primitive_ctx ext frames copy_call s7 _
                   Hvalid7 Hce7 Hprim7)) as Happly.
  rewrite (try_finally_pop (apply_call ext frames copy_call) copy_call _ s7 (call_stack s));
    [|done|].
  2:{ eapply wp_mono; [exact Happly|..]; cbn beta.
      - by intros _ s' [?%framed_stack _].
      - by intros _ s' [?%framed_stack _]. }
  clearbody s7. clear s5 Hchild5 Hce5 Hme5.
  exists child, copy_call, s7. split; [done|]. split; [done|].
  unfold wp in Happly.
  destruct (apply_call ext frames copy_call s7) as [res s8|e s8|]; [| |reflexivity].
  2:{ destruct Happly as [Hs8%framed_stack _]. done. }
  destruct Happly as [Hs8 Hctx8]. split; [by apply framed_stack|].
  destruct (Hctx8 self Hself7) as (r8 & Hr8 & Hctx_r8).
  assert (is_Some (st_calls s8 !! copy_call)) as [ce8 Hce8].
  { destruct Hs8 as (_ & Hc & _). destruct (Hc _ _ Hce7) as (ce8 & ? & _). by exists ce8. }
  assert (is_Some (st_tensors s8 !! tensor)) as [te8 Hte8].
  { destruct Hs8 as (_ & _ & _ & Ht & _). apply lookup_lt_is_Some in Htensor7 as [te7 Hte7].
    destruct (Ht _ _ Hte7) as (te8 & ? & _). by exists te8. }
  assert (call_stack (popped s8) = call_stack s) as Hstack9.
  { apply (call_stack_popped s8 (call_stack s) copy_call).
    by rewrite (framed_stack _ _ Hs8). }
  change (twp (get_name self ≫= λ r0, attr_of (rn_returnn_ctx r0) ≫= λ ctx,
               get_call copy_call ≫= λ ce, define_output ctx (ce_returnn_layer ce) ≫= λ _,
               attr_of (ce_returnn_layer ce) ≫= λ layer,
               modify_tensor tensor (set_te_returnn_data (Some layer)) ≫= λ _,
               mret child) (popped s8)
            (λ child' s', child' = child ∧ call_stack s' = call_stack s)
            (λ _ s', call_stack s' = call_stack s)).
  wp_steps. eapply twp_get_name; [exact Hr8|].
  destruct (rn_returnn_ctx r8) as [ctx|] eqn:Hctx8'; [|by wp_steps]. wp_steps.
  eapply twp_get_call; [exact Hce8|]. unfold define_output.
  destruct (ce_returnn_layer ce8) as [layer|]; [|by wp_steps]. wp_steps.
  destruct (Hctx_r8 ctx eq_refl) as [cx Hcx].
  eapply twp_modify_ctx; [exact Hcx|]. store_simpl. wp_steps.
  eapply twp_modify_tensor; [exact Hte8|]. store_simpl. wp_steps.
  done.
Qed.

End Discipline.

(** ** The example session, continued *)

(** Case analysis on the index of a lookup in a store that is given in
    full. *)
Ltac each_index n H :=
  vm_compute in H;
  first [discriminate H | destruct n as [|n]; [injection H as <-|each_index n H]].

(** X1, witness: the node [add] of [net] has the absolute name
    [net/add]; the path of [net], a child of the root, is [net]. *)
Lemma get_absolute_name_child_witness :
  get_absolute_name 3 net_store 6 = Some (Val "net/add").
Proof.
  exact (get_absolute_name_child 2 net_store 6 3 _ _ "add" "net"
           eq_refl eq_refl eq_refl eq_refl eq_refl).
Defined.

(** The nodes of the example are younger than their parents, and named. *)
Lemma named_tree_net_store : named_tree net_store.
Proof.
  intros n r H. each_index n H; cbn; try done; (split; [lia|by eexists]).
Qed.

(** X2, witness: the absolute name of the node [add]. *)
Lemma get_absolute_name_returns_witness :
  ∃ path, ∀ n, 6 < n → get_absolute_name n net_store 6 = Some (Val path).
Proof.
  apply (get_absolute_name_returns net_store 6 named_tree_net_store). cbn. lia.
Defined.

(** X3, witness: the unit 1 is found in [net], where the children
    [add] and [add_1] have it. *)
Lemma find_name_for_module_first_witness :
  match find_name_for_module reuse_store 3 1 with
  | Val (Some name) =>
      ∃ i child cr, [("data", 4); ("data:1", 5); ("add", 6); ("add_1", 7)] !! i
                      = Some (name, child) ∧
        st_names reuse_store !! child = Some cr ∧ 1 ∈ rn_modules cr ∧
        ∀ j kc cr', j < i →
          [("data", 4); ("data:1", 5); ("add", 6); ("add_1", 7)] !! j = Some kc →
          st_names reuse_store !! kc.2 = Some cr' → 1 ∉ rn_modules cr'
  | Val None =>
      ∀ kc, kc ∈ [("data", 4); ("data:1", 5); ("add", 6); ("add_1", 7)] →
        ∃ cr, st_names reuse_store !! kc.2 = Some cr ∧ 1 ∉ rn_modules cr
  | Exc _ => False
  | Dangling => ∃ kc, kc ∈ [("data", 4); ("data:1", 5); ("add", 6); ("add_1", 7)] ∧
                      st_names reuse_store !! kc.2 = None
  end.
Proof.
  exact (find_name_for_module_first reuse_store 3 _ 1 eq_refl eq_refl).
Defined.

(** X4, witness: the root of the call 2, the copy of the output of
    [net], whose parent is the call 1. *)
Lemma get_root_call_chain_witness :
  ∃ root, (∀ n, 2 < n → get_root_call n output_store 2 = Some (Val root)) ∧
    rtc (parent_call_of output_store) 2 root ∧
    (∃ ce, st_calls output_store !! root = Some ce ∧ ce_parent_call ce = None) ∧
    ∀ n, 0 < n → get_root_call n output_store root = Some (Val root).
Proof.
  apply (get_root_call_chain output_store 2); [|cbn; lia].
  intros c p (ce & H & Hp). each_index c H; cbn in Hp; try done. injection Hp as <-. lia.
Defined.

(** The example with four more sub-networks: parents are older, and the
    contexts mirror the tree. *)
Lemma parents_older_named_store : parents_older named_store.
Proof.
  intros n r p H Hp. each_index n H; cbn in Hp; try done; injection Hp as <-; lia.
Qed.

Lemma ctx_tree_ok_named_store : ctx_tree_ok named_store.
Proof.
  intros n r c H Hc. each_index n H; cbn in Hc; try done; injection Hc as <-.
  - eexists. by split_and!.
  - eexists. split_and!; [done..|]. do 2 eexists. by split_and!.
Qed.

(** X5, witness: the context of the sub-network [add_1] of [net] is
    created. *)
Lemma maybe_create_returnn_ctx_tree_witness :
  match maybe_create_returnn_ctx 8 7 named_store with
  | Ok _ s' =>
      ctx_only named_store s' ∧ ctx_tree_ok s' ∧
      ∃ r', st_names s' !! 7 = Some r' ∧ is_Some (rn_returnn_ctx r')
  | Raise _ s' => s' = named_store
  | Stuck => False
  end.
Proof.
  apply (maybe_create_returnn_ctx_tree 8 named_store 7
           parents_older_named_store ctx_tree_ok_named_store).
  cbn. lia.
Defined.

(** X6, witness: the call 2 is bound to the node 7 a second time. *)
Lemma assign_call_idempotent_witness :
  assign_call demo_ext 3 7 2 bound_store = Ok () bound_store.
Proof.
  apply (assign_call_idempotent demo_ext 8 3 unbound_store bound_store 7 2). by vm_compute.
Defined.

(** X7, witness: the node [add] has the call 1 and refuses the call 2. *)
Lemma assign_call_primitive_taken_witness :
  assign_call demo_ext 8 6 2 second_call_store = Raise AssertionError second_call_store.
Proof.
  apply (assign_call_primitive_taken demo_ext 8 second_call_store 6 2 _ eq_refl);
    [done..| |by eexists].
  apply (bool_decide_unpack _). by vm_compute.
Defined.

Lemma parents_ok_second_call_store : parents_ok second_call_store.
Proof. repeat constructor; cbn; lia. Qed.

(** X8, witness: the call 1, bound to [add], is not bound to [net]. *)
Lemma assign_call_never_rebinds_witness :
  ∃ e s', assign_call demo_ext 8 3 1 second_call_store = Raise e s' ∧
    st_calls s' = st_calls second_call_store ∧
    ∃ r', st_names s' !! 3 = Some r' ∧ rn_calls r' = [0].
Proof.
  eapply (assign_call_never_rebinds demo_ext 8 second_call_store 3 1 _ _
            parents_ok_second_call_store eq_refl); [|done|by eexists..].
  apply (bool_decide_unpack _). by vm_compute.
Defined.

(** The bindings of the example are consistent. *)
Lemma kinds_ok_unbound_store : kinds_ok demo_ext unbound_store.
Proof.
  intros n r H. each_index n H; cbn [rn_modules rn_calls rn_is_subnet];
    (split_and!;
     [intros m Hm; repeat (apply elem_of_cons in Hm as [->|Hm]; [done|]);
      by apply elem_of_nil in Hm
     |intros c Hc; repeat (apply elem_of_cons in Hc as [->|Hc];
        [eexists; split_and!; [done..|by left]|]);
      by apply elem_of_nil in Hc
     |intros _; cbn; lia]).
Qed.

(** X9, witness: a second call of the compound unit is bound to the
    sub-network [add_1]. *)
Lemma assign_call_keeps_kinds_witness :
  match assign_call demo_ext 8 7 2 unbound_store with
  | Ok _ s' => kinds_ok demo_ext s' ∧
      ∃ r' ce', st_names s' !! 7 = Some r' ∧ 2 ∈ rn_calls r' ∧
                st_calls s' !! 2 = Some ce' ∧ ce_namespace ce' = Some 7
  | Raise _ s' => kinds_ok demo_ext s'
  | Stuck => True
  end.
Proof. exact (assign_call_keeps_kinds demo_ext 8 unbound_store 7 2 kinds_ok_unbound_store). Defined.

(** The input slots of the example are names of their tensors. *)
Lemma tensor_links_ok_net_store : tensor_links_ok net_store.
Proof.
  intros n r t H Ht. each_index n H; cbn in Ht; try done; injection Ht as <-;
    (eexists; split; [done|]; apply (bool_decide_unpack _); by vm_compute).
Qed.

(** X10, witness: the tensor 0 is assigned to the node [add]. *)
Lemma assign_tensor_links_witness :
  ∃ s', assign_tensor 6 0 net_store = Ok () s' ∧ tensor_links_ok s' ∧
    ∃ r' te', st_names s' !! 6 = Some r' ∧ rn_tensor r' = Some 0 ∧
              st_tensors s' !! 0 = Some te' ∧ last (te_names te') = Some (Some 6).
Proof.
  apply (assign_tensor_links net_store 6 0 tensor_links_ok_net_store); cbn; lia.
Defined.

(** X11, witness: the tensor 0 is [data] in [net]; its first name is the
    slot of the root. *)
Lemma name_for_tensor_sound_witness :
  ∃ r te i n nr,
    st_names net_store !! 3 = Some r ∧ rn_is_subnet r = true ∧
    st_tensors net_store !! 0 = Some te ∧ te_names te !! i = Some (Some n) ∧
    st_names net_store !! n = Some nr ∧ rn_parent nr = Some 3 ∧ rn_name nr = Some "data" ∧
    dict_get "data" (rn_childs_by_name r) = Some n ∧
    ∀ j, j < i → ∃ n' nr', te_names te !! j = Some (Some n') ∧
      st_names net_store !! n' = Some nr' ∧ rn_parent nr' ≠ Some 3.
Proof. exact (name_for_tensor_sound net_store 3 0 "data" eq_refl). Defined.

(** X12, witness: the tensor 0, an input of the root, is registered as
    the first input of [net]. *)
Lemma register_input_name_for_tensor_witness :
  ∃ slot s', register_input demo_ext 8 3 0 sub_store = Ok slot s' ∧
    name_for_tensor s' 3 0 = Val "data".
Proof.
  apply (register_input_name_for_tensor demo_ext 8 sub_store 3 0 _ _ eq_refl eq_refl eq_refl).
  - cbn. apply not_elem_of_nil.
  - intros _. eexists. split; [done|]. by eexists.
  - repeat constructor. do 2 eexists. by split_and!.
Defined.

(** The tree of the example is well formed. *)
Lemma tree_ok_second_call_store : tree_ok second_call_store.
Proof.
  intros n r H. each_index n H; cbn;
    (split_and!;
     [first [done|intros p [= <-]; split; [lia|done]]
     |first [done|intros _; done]
     |apply (bool_decide_unpack _); by vm_compute
     |intros k c Hkc;
      repeat (apply elem_of_cons in Hkc as [[= -> ->]|Hkc];
              [eexists; by split_and!|]);
      by apply elem_of_nil in Hkc
     |intros i Hi;
      repeat (apply elem_of_cons in Hi as [->|Hi];
              [apply (bool_decide_unpack _); by vm_compute|]);
      by apply elem_of_nil in Hi]).
Qed.

(** X13, witness: a sub-network is registered in [net]. *)
Lemma register_sub_net_keeps_tree_witness :
  match register_sub_net demo_ext 8 3 "add" second_call_store with
  | Ok child s' =>
      tree_ok s' ∧ child = 7 ∧
      ∃ r' cr name, st_names s' !! 3 = Some r' ∧ st_names s' !! child = Some cr ∧
        last (rn_childs_by_name r') = Some (name, child) ∧
        rn_is_subnet cr = true ∧ rn_childs_by_name cr = []
  | Raise e s' => e = AssertionError ∧ s' = second_call_store
  | Stuck => False
  end.
Proof.
  apply (register_sub_net_keeps_tree demo_ext 8 second_call_store 3 "add"
           tree_ok_second_call_store).
  cbn. lia.
Defined.

(** X14, witness: the call 2 is registered in [net]. *)
Lemma register_sub_call_keeps_tree_witness :
  match register_sub_call demo_ext 8 3 2 second_call_store with
  | Ok child s' => tree_ok s' ∧ child = 7
  | Raise e s' => tree_ok s'
  | Stuck => False
  end.
Proof.
  eapply (register_sub_call_keeps_tree demo_ext 8 second_call_store 3 2 _
            tree_ok_second_call_store); [cbn; lia|done|by eexists].
Defined.

(** X15, witness: the output of [add] is registered as an input of
    [net]. *)
Lemma register_input_keeps_tree_witness :
  match register_input demo_ext 8 3 2 second_call_store with
  | Ok slot s' => tree_ok s' ∧ slot = 7
  | Raise e s' => tree_ok s'
  | Stuck => False
  end.
Proof.
  eapply (register_input_keeps_tree demo_ext 8 second_call_store 3 2 _
            tree_ok_second_call_store eq_refl); [cbn; lia|].
  intros ctx [= <-]. cbn. lia.
Defined.

(** X16, witness: the unit 1 has the child [add] of [net] already, and
    is found there after its second call is registered as [add_1]. *)
Lemma register_sub_call_find_name_witness :
  ∃ cr name, st_names reuse_store !! 7 = Some cr ∧ rn_name cr = Some name ∧
    find_name_for_module reuse_store 3 1 =
      Val (Some (match find_name_for_module second_call_store 3 1 with
                 | Val (Some older) => older
                 | _ => name
                 end)).
Proof.
  eapply (register_sub_call_find_name demo_ext 8 second_call_store reuse_store 3 7 2 _
            tree_ok_second_call_store eq_refl).
  by vm_compute.
Defined.

(** X17, witness: the root has two inputs, and its dump fails. *)
Lemma dump_scope_without_parent_witness :
  dump_as_returnn_layer_dict demo_ext 8 applied_store 0 = Exc AssertionError.
Proof.
  refine (dump_scope_without_parent demo_ext 7 applied_store 0 _ eq_refl _ eq_refl _).
  - exact I.
  - repeat constructor; by eexists.
Defined.

(** X18, witness: [net] has an output already. *)
Lemma register_returnn_subnet_output_taken_witness :
  match register_returnn_subnet_output demo_ext 8 3 2 output_store with
  | Ok _ _ => False
  | Raise _ s' =>
      ∃ r', st_names s' !! 3 = Some r' ∧
        rn_childs_by_name r' = [("data", 4); ("data:1", 5); ("add", 6); ("output", 7)]
  | Stuck => True
  end.
Proof.
  apply (register_returnn_subnet_output_taken demo_ext 8 output_store 3 2 _ eq_refl).
  apply (bool_decide_unpack _). by vm_compute.
Defined.

(** X19, witness: the output of [add] becomes the output of [net]. *)
Lemma register_returnn_subnet_output_once_witness :
  (∃ r1 cr, st_names output_store !! 3 = Some r1 ∧
     rn_childs_by_name r1 =
       [("data", 4); ("data:1", 5); ("add", 6)] ++ [(ReservedOutputName, 7)] ∧
     st_names output_store !! 7 = Some cr ∧ rn_name cr = Some ReservedOutputName ∧
     rn_parent cr = Some 3 ∧ rn_is_reserved cr = true ∧ rn_is_subnet cr = false) ∧
  ∀ frames' tensor' child' s2,
    register_returnn_subnet_output demo_ext frames' 3 tensor' output_store ≠ Ok child' s2.
Proof.
  apply (register_returnn_subnet_output_once demo_ext 8 running_store output_store 3 7 2 _
           eq_refl).
  by vm_compute.
Defined.

(** X20, witness: the tensor 100 is the output of the call 0, which has
    no namespace. *)
Lemma set_outputs_back_references_witness :
  ∃ ce' entry_outputs,
    st_calls outputs_store !! 0 = Some ce' ∧ ce_outputs ce' = Some entry_outputs ∧
    length entry_outputs = 1 ∧
    Forall (has_back_refs outputs_store 0 0) entry_outputs ∧
    match entry_outputs with
    | x :: _ => ∃ te, st_tensors outputs_store !! x = Some te ∧ None ∈ te_names te
    | [] => True
    end.
Proof.
  apply (set_outputs_back_references session_store outputs_store 0 (OutSeq [100]) _
           eq_refl eq_refl).
  by vm_compute.
Defined.

(** X21, witness: the call 1 is applied a second time; the layer [add]
    is in the network of [net]. *)
Lemma apply_call_layer_name_taken_witness :
  match apply_call demo_ext 8 1 applied_store with
  | Ok _ _ => False
  | Raise _ s' => s' = applied_store
  | Stuck => True
  end.
Proof.
  exact (apply_call_layer_name_taken demo_ext 8 applied_store 1 _ 6 3 _ _ "add" 1 _
           eq_refl eq_refl eq_refl eq_refl eq_refl eq_refl eq_refl eq_refl eq_refl eq_refl).
Defined.


(** The store with the output of [net]: the tree is well formed, the
    bindings are consistent, and the root knows the inputs of [net]. *)
Lemma tree_ok_output_store : tree_ok output_store.
Proof.
  intros n r H. each_index n H; cbn;
    (split_and!;
     [first [done|intros p [= <-]; split; [lia|done]]
     |first [done|intros _; done]
     |apply (bool_decide_unpack _); by vm_compute
     |intros k c Hkc;
      repeat (apply elem_of_cons in Hkc as [[= -> ->]|Hkc];
              [eexists; by split_and!|]);
      by apply elem_of_nil in Hkc
     |intros i Hi;
      repeat (apply elem_of_cons in Hi as [->|Hi];
              [apply (bool_decide_unpack _); by vm_compute|]);
      by apply elem_of_nil in Hi]).
Qed.

Lemma kinds_ok_output_store : kinds_ok demo_ext output_store.
Proof.
  intros n r H. each_index n H; cbn [rn_modules rn_calls rn_is_subnet];
    (split_and!;
     [intros m Hm; repeat (apply elem_of_cons in Hm as [->|Hm]; [done|]);
      by apply elem_of_nil in Hm
     |intros c Hc; repeat (apply elem_of_cons in Hc as [->|Hc];
        [eexists; split_and!; [done..|by left]|]);
      by apply elem_of_nil in Hc
     |intros _; cbn; lia]).
Qed.

Lemma inputs_known_output_store : inputs_known output_store.
Proof.
  intros n r slot H Hp Hslot. each_index n H; cbn in Hp, Hslot;
    try (by apply is_Some_None in Hp); try (by apply elem_of_nil in Hslot).
  repeat (apply elem_of_cons in Hslot as [->|Hslot]); [| |by apply elem_of_nil in Hslot].
  - exists "data". do 3 eexists. split_and!; [done..|].
    do 2 eexists. exists 0. do 2 eexists. split_and!; [done..|]. intros j Hj. lia.
  - exists "data:1". do 3 eexists. split_and!; [done..|].
    do 2 eexists. exists 0. do 2 eexists. split_and!; [done..|]. intros j Hj. lia.
Qed.

(** C4, witness: the dump of the root has one entry, for [net]; in it,
    [add] and [output] have one each, and the input slots have none. *)
Lemma dump_net_dict_nested_witness :
  ∃ d, dump_as_returnn_net_dict demo_ext 8 output_store 0 = Val d ∧
       net_described demo_ext output_store 0 d ∧
       d = [("net",
             PDict [("class", PStr "subnetwork");
                    ("from", PList [PStr "data"; PStr "data:1"]);
                    ("subnetwork",
                     PDict [("add", PDict [("class", PStr "combine"); ("kind", PStr "add");
                                           ("from", PList [PStr "data"; PStr "data:1"])]);
                            ("output", PDict [("class", PStr "copy");
                                              ("from", PStr "add")])]);
                    ("concat_sources", PBool false)])].
Proof.
  destruct (dump_net_dict_nested demo_ext 8 output_store 0 tree_ok_output_store)
    as [Hsound Htotal].
  destruct (Htotal kinds_ok_output_store inputs_known_output_store) as [d Hd];
    [cbn; lia..|].
  exists d. split; [done|]. split; [by apply Hsound|].
  vm_compute in Hd. by injection Hd.
Defined.



(** The store in which the call 0 is running: the contexts of the nodes
    are there, and [net] is ready for the output of [add]. *)
Lemma ctxs_valid_running_store : ctxs_valid running_store.
Proof.
  intros n r c H Hc. each_index n H; cbn in Hc; try done; injection Hc as <-; by eexists.
Qed.

Lemma output_ready_running_store : output_ready demo_ext running_store 3 2 1.
Proof.
  eexists _, "add", _, _, _. split_and!; [done..| | | | | | | | |].
  - do 2 eexists. exists 0. do 2 eexists. split_and!; [done..|]. intros j Hj. lia.
  - reflexivity.
  - reflexivity.
  - reflexivity.
  - by vm_compute.
  - by eexists.
  - exact I.
  - reflexivity.
  - reflexivity.
Qed.

Lemma parents_ok_running_store : parents_ok running_store.
Proof. repeat constructor; cbn; lia. Qed.

Lemma registry_ok_running_store : registry_ok running_store.
Proof.
  intros x t. cbn. repeat (case_decide; [intros [= <-]; by eexists|]). done.
Qed.

(** C9, witness: the output of [add] is registered as the output of
    [net], while the call 0 is running; every parent and every tensor
    entry of the registry is in the store, and the application of the copy
    call returns or raises. *)
Lemma register_returnn_subnet_output_stack_discipline_witness :
  ∃ child copy_call s1,
    copy_call_pushed running_store s1 3 2 1 child copy_call ∧
    apply_call demo_ext 8 copy_call s1 ≠ Stuck ∧
    match apply_call demo_ext 8 copy_call s1 with
    | Ok _ s2 =>
        call_stack s2 = call_stack s1 ∧
        match register_returnn_subnet_output demo_ext 8 3 2 running_store with
        | Ok child' s' => child' = child ∧ call_stack s' = call_stack running_store
        | Raise _ s' => call_stack s' = call_stack running_store
        | Stuck => False
        end
    | Raise e s2 =>
        call_stack s2 = call_stack s1 ∧
        register_returnn_subnet_output demo_ext 8 3 2 running_store = Raise e (popped s2)
    | Stuck => register_returnn_subnet_output demo_ext 8 3 2 running_store = Stuck
    end.
Proof.
  destruct (register_returnn_subnet_output_stack_discipline demo_ext 8 running_store 3 2)
    as (_ & _ & H).
  destruct (H 1 output_ready_running_store ctxs_valid_running_store)
    as (child & copy_call & s1 & Hpushed & Hsafe & Hrun).
  exists child, copy_call, s1. split_and!; [exact Hpushed| |exact Hrun].
  exact (Hsafe parents_ok_running_store registry_ok_running_store).
Defined.
